(** * Chrono Serpent: the per-frame simulation core of [game.js]

    A shallow embedding of the simulation and combat-resolution engine of
    [src/game.js] (classes [Particle], [ParticleSystem], [Projectile],
    [Mine], [Enemy], [Core], [Mission], [MissionSystem], [Snake], [Game])
    and the properties of its resource model, missions, combo, mines, time
    dilation and boss gating.

    Conventions of the embedding.
    - A JavaScript number is an exact rational ([Q]); comparisons are the
      order of [Q].  Rounding error, NaN and infinities are not modelled.
      Counters that the code only ever moves in whole steps ([level],
      [comboTier], [length]) are integers ([Z]).
    - What the browser supplies is a parameter, the class [Host]: the canvas
      size behind [WORLD], the transcendental functions of [Math], the
      sequence of values [Math.random()] returns, and the permutation that
      [Array.prototype.sort] produces under a random comparator.
    - Mutation of [this] is explicit state passing: every method takes the
      state it mutates and returns the new one.  A [for ... of] loop whose
      body mutates the current element and the rest of the game is
      [forEach]; the arrays being iterated are never resized by their own
      loop bodies in the source.
    - Painting, audio, the DOM overlay and HUD, the star field and the body
      segments (which only [draw] reads) are not part of the model; of
      [draw] the model keeps what it does to the match state, the two
      random values it takes while the camera shakes.
    - Key names are ASCII strings, as every key the game reads is. *)

From Stdlib Require Import QArith Qround Qminmax Lqa ZArith List Ascii String Bool Lia.
From Stdlib Require Import Permutation.
Import ListNotations.
Open Scope Q_scope.

Set Implicit Arguments.

(* ------------------------------------------------------------------ *)
(** ** Numbers *)

Definition Qltb (x y : Q) : bool := negb (Qle_bool y x).
Definition Qleb (x y : Q) : bool := Qle_bool x y.
Definition Qgtb (x y : Q) : bool := Qltb y x.
Definition Qgeb (x y : Q) : bool := Qleb y x.

(** [const clamp = (v, min, max) => Math.max(min, Math.min(max, v))] *)
Definition clamp (v lo hi : Q) : Q := Qmax lo (Qmin hi v).

(** [const lerp = (a, b, t) => a + (b - a) * t] *)
Definition lerp (a b t : Q) : Q := a + (b - a) * t.

(** [Math.round]: the nearest integer, halves going up. *)
Definition Math_round (x : Q) : Z := Qfloor (x + (1#2)).

(** [Math.floor] *)
Definition Math_floor (x : Q) : Z := Qfloor x.

#[global] Arguments firstn : simpl never.
#[global] Arguments Qfloor : simpl never.
#[global] Arguments Math_round : simpl never.
#[global] Arguments Math_floor : simpl never.

(** [v || 1] on numbers: zero is falsy. *)
Definition orOne (v : Q) : Q := if Qeq_bool v 0 then 1 else v.

(** A [null]-able number used in arithmetic: [null] converts to [0]. *)
Definition numOf (o : option Q) : Q :=
  match o with Some q => q | None => 0 end.

(* ------------------------------------------------------------------ *)
(** ** Loops *)

(** [for (const a of l) body(a)], where the body updates the element it
    visits and the surrounding state. *)
Fixpoint forEach {A S : Type} (body : A -> S -> A * S) (l : list A) (s : S)
  : list A * S :=
  match l with
  | [] => ([], s)
  | a :: l' =>
      let r := body a s in
      let r' := forEach body l' (snd r) in
      (fst r :: fst r', snd r')
  end.

(** [for (let i = 0; i < n; i += 1) s = body(s)] *)
Fixpoint repeatN {S : Type} (n : nat) (body : S -> S) (s : S) : S :=
  match n with
  | O => s
  | S n' => repeatN n' body (body s)
  end.

(* ------------------------------------------------------------------ *)
(** ** Entity records *)

Module Particle.
Record t := mk {
  x : Q; y : Q; vx : Q; vy : Q;
  life : Q; maxLife : Q; color : string; size : Q }.

(** [constructor(x, y, vx, vy, life, color, size = 3)] *)
Definition new (x y vx vy life : Q) (color : string) (size : Q) : t :=
  mk x y vx vy life life color size.

(** [update(dt)]: the particle after the step, and whether it lives on. *)
Definition update (dt : Q) (p : t) : t * bool :=
  let life' := life p - dt in
  (mk (x p + vx p * dt) (y p + vy p * dt)
      (vx p * (99#100)) (vy p * (99#100))
      life' (maxLife p) (color p) (size p),
   Qgtb life' 0).
End Particle.

Module Projectile.
Record t := mk {
  x : Q; y : Q; vx : Q; vy : Q;
  damage : Q; color : string; radius : Q; ttl : Q; alive : bool }.

(** [constructor(x, y, vx, vy, damage, color, radius, ttl)] *)
Definition new (x y vx vy damage : Q) (color : string) (radius ttl : Q) : t :=
  mk x y vx vy damage color radius ttl true.

Definition kill (p : t) : t :=
  mk (x p) (y p) (vx p) (vy p) (damage p) (color p) (radius p) (ttl p) false.
End Projectile.

Module Mine.
Record t := mk {
  x : Q; y : Q; radius : Q; armTime : Q; ttl : Q; alive : bool }.

(** [constructor(x, y)] *)
Definition new (x y : Q) : t := mk x y 10 (65#100) 6 true.

(** [update(dt)] *)
Definition update (dt : Q) (m : t) : t :=
  let ttl' := ttl m - dt in
  mk (x m) (y m) (radius m) (armTime m - dt) ttl'
     (if Qleb ttl' 0 then false else alive m).

Definition kill (m : t) : t :=
  mk (x m) (y m) (radius m) (armTime m) (ttl m) false.
End Mine.

Inductive EnemyType := runner | tank | sniper | boss | drone.

Definition EnemyType_eqb (a b : EnemyType) : bool :=
  match a, b with
  | runner, runner | tank, tank | sniper, sniper | boss, boss | drone, drone => true
  | _, _ => false
  end.

Module Enemy.
Record t := mk {
  type : EnemyType;
  x : Q; y : Q; vx : Q; vy : Q;
  radius : Q; maxHealth : Q; health : Q; speed : Q; contactDamage : Q;
  color : string; alive : bool; fireCooldown : Q; scoreValue : Q }.

(** The per-archetype tunables of the constructor:
    radius, maxHealth, speed, contactDamage, color, scoreValue. *)
Definition radius0 (ty : EnemyType) : Q :=
  match ty with runner => 10 | tank => 18 | sniper => 12 | boss => 40 | drone => 14 end.
Definition maxHealth0 (ty : EnemyType) : Q :=
  match ty with runner => 14 | tank => 44 | sniper => 18 | boss => 320 | drone => 20 end.
Definition speed0 (ty : EnemyType) : Q :=
  match ty with runner => 140 | tank => 56 | sniper => 76 | boss => 48 | drone => 85 end.
Definition contactDamage0 (ty : EnemyType) : Q :=
  match ty with runner => 7 | tank => 17 | sniper => 8 | boss => 22 | drone => 10 end.
Definition color0 (ty : EnemyType) : string :=
  match ty with
  | runner => "#ffad5b" | tank => "#ff6262" | sniper => "#bd89ff"
  | boss => "#ff3b73" | drone => "#ff6f8a"
  end.
Definition scoreValue0 (ty : EnemyType) : Q :=
  match ty with runner => 45 | tank => 85 | sniper => 60 | boss => 950 | drone => 40 end.

(** [constructor(type, x, y, levelScale)]; [cooldown] is the value the
    constructor draws with [randRange(0.8, 1.6)]. *)
Definition new (ty : EnemyType) (x y levelScale cooldown : Q) : t :=
  let mh := inject_Z (Math_round (maxHealth0 ty * levelScale)) in
  mk ty x y 0 0 (radius0 ty) mh mh
     (speed0 ty * ((85#100) + levelScale * (2#10)))
     (inject_Z (Math_round (contactDamage0 ty * ((7#10) + levelScale * (4#10)))))
     (color0 ty) true cooldown (scoreValue0 ty).

(** [takeDamage(amount)] *)
Definition takeDamage (amount : Q) (e : t) : t :=
  let h := health e - amount in
  mk (type e) (x e) (y e) (vx e) (vy e) (radius e) (maxHealth e) h
     (speed e) (contactDamage e) (color e)
     (if Qleb h 0 then false else alive e) (fireCooldown e) (scoreValue e).

Definition isBoss (e : t) : bool := EnemyType_eqb (type e) boss.
End Enemy.

Inductive CoreKind := energy | healthCore | shieldCore.

Module Core.
(** [kind] is [None] when the index into the three-element array is out
    of range ([undefined] in the source). *)
Record t := mk {
  x : Q; y : Q; radius : Q; value : Q; pulse : Q;
  kind : option CoreKind; collected : bool }.

Definition kinds : list CoreKind := [energy; healthCore; shieldCore].

(** [constructor(x, y)]; [pulse0] is [Math.random() * Math.PI * 2] and
    [k] is [randInt(0, 2)]. *)
Definition new (x y pulse0 : Q) (k : Z) : t :=
  mk x y 8 25 pulse0
     (if (k <? 0)%Z then None else nth_error kinds (Z.to_nat k)) false.

(** [update(dt)] *)
Definition update (dt : Q) (c : t) : t :=
  mk (x c) (y c) (radius c) (value c) (pulse c + dt * 5) (kind c) (collected c).

Definition collect (c : t) : t :=
  mk (x c) (y c) (radius c) (value c) (pulse c) (kind c) true.
End Core.

Inductive MissionType :=
  runnerKills | coreCollect | secondsNoHit | mineKills | comboPeak.

Definition MissionType_eqb (a b : MissionType) : bool :=
  match a, b with
  | runnerKills, runnerKills | coreCollect, coreCollect
  | secondsNoHit, secondsNoHit | mineKills, mineKills
  | comboPeak, comboPeak => true
  | _, _ => false
  end.

Module Mission.
Record t := mk {
  id : string; text : string; target : Q; type : MissionType;
  progress : Q; done : bool; failed : bool;
  timer : option Q; maxTimer : option Q; reward : Q }.

(** [constructor(id, text, target, type, timer = null)] *)
Definition new (id text : string) (target : Q) (ty : MissionType)
    (timer : option Q) : t :=
  mk id text target ty 0 false false timer timer 180.

(** [update(dt)] *)
Definition update (dt : Q) (m : t) : t :=
  if done m || failed m then m
  else match timer m with
       | None => m
       | Some tm =>
           let tm' := tm - dt in
           mk (id m) (text m) (target m) (type m) (progress m) (done m)
              (if Qleb tm' 0 && Qltb (progress m) (target m)
               then true else failed m)
              (Some tm') (maxTimer m) (reward m)
       end.

(** [inc(amount = 1)] *)
Definition inc (amount : Q) (m : t) : t :=
  if done m || failed m then m
  else
    let p := progress m + amount in
    mk (id m) (text m) (target m) (type m) p
       (if Qgeb p (target m) then true else done m)
       (failed m) (timer m) (maxTimer m) (reward m).

Definition setProgress (p : Q) (m : t) : t :=
  mk (id m) (text m) (target m) (type m) p (done m) (failed m)
     (timer m) (maxTimer m) (reward m).

Definition setDone (m : t) : t :=
  mk (id m) (text m) (target m) (type m) (progress m) true (failed m)
     (timer m) (maxTimer m) (reward m).
End Mission.

Module Vec.
Record t := mk { x : Q; y : Q }.
End Vec.

(* ------------------------------------------------------------------ *)
(** ** What the browser supplies *)

(** [WORLD] is read off the canvas element; [Math.random()] is a global
    generator, seen here as the sequence of values it returns, with the
    game state counting how many were drawn; [sortRandom] is
    [[...a].sort(() => Math.random() - 0.5)], whose outcome depends on the
    engine's sorting algorithm: some permutation of [a], and the position
    in the random sequence after the comparisons. *)
Class Host := {
  WORLD_width : Q;
  WORLD_height : Q;
  Math_hypot : Q -> Q -> Q;
  Math_exp : Q -> Q;
  Math_cos : Q -> Q;
  Math_sin : Q -> Q;
  Math_atan2 : Q -> Q -> Q;
  Math_PI : Q;
  Math_random : nat -> Q;
  sortRandom : forall A : Type, nat -> list A -> list A * nat;
  Math_random_range : forall n, 0 <= Math_random n /\ Math_random n < 1;
  sortRandom_perm : forall (A : Type) n (l : list A),
      Permutation l (fst (sortRandom n l)) }.

(* ------------------------------------------------------------------ *)
(** ** Input snapshot *)

Module InputManager.
(** [keys] and [justPressed] are sets of lower-cased key names. *)
Record t := mk { keys : list string; justPressed : list string }.

Definition has (k : string) (l : list string) : bool :=
  existsb (String.eqb k) l.

Definition add (k : string) (l : list string) : list string :=
  if has k l then l else l ++ [k].

Definition delete (k : string) (l : list string) : list string :=
  filter (fun x => negb (String.eqb k x)) l.

(** [isDown(...keys)] *)
Definition isDown (ks : list string) (i : t) : bool :=
  existsb (fun k => has k (keys i)) ks.

(** [String.prototype.toLowerCase] on key names, which are ASCII: the
    letters [A] to [Z] go to [a] to [z], every other character stays. *)
Definition lowerAscii (c : ascii) : ascii :=
  let n := nat_of_ascii c in
  if (65 <=? n)%nat && (n <=? 90)%nat then ascii_of_nat (n + 32) else c.

Fixpoint toLowerCase (s : string) : string :=
  match s with
  | EmptyString => EmptyString
  | String c s' => String (lowerAscii c) (toLowerCase s')
  end.

(** [consume(key)]: whether the lower-cased key was just pressed, and the
    input after it has been taken out of [justPressed]. *)
Definition consume (key : string) (i : t) : bool * t :=
  let k := toLowerCase key in
  (has k (justPressed i),
   if has k (justPressed i) then mk (keys i) (delete k (justPressed i)) else i).

(** [endFrame()] *)
Definition endFrame (i : t) : t := mk (keys i) [].

(** The [keydown] listener of the constructor, for an event that is not a
    repeat; [key] is [e.key]. *)
Definition keydown (key : string) (i : t) : t :=
  let k := toLowerCase key in
  mk (add k (keys i))
     (if has k (keys i) then justPressed i else add k (justPressed i)).

(** The [keyup] listener; [key] is [e.key]. *)
Definition keyup (key : string) (i : t) : t :=
  let k := toLowerCase key in
  mk (delete k (keys i)) (justPressed i).
End InputManager.

(* ------------------------------------------------------------------ *)
(** ** The player *)

Module Snake.
Record t := mk {
  head : Vec.t; baseSpeed : Q; speed : Q; turnRate : Q; dir : Vec.t;
  targetDir : Vec.t; maxHealth : Q; health : Q; shield : Q; invulnTimer : Q;
  dashCooldown : Q; dashTime : Q; temporalCooldown : Q; temporalTime : Q;
  primaryCooldown : Q; mineCooldown : Q; length : Z }.

Definition set_head (v : Vec.t) (r : t) : t :=
  mk v (baseSpeed r) (speed r) (turnRate r) (dir r) (targetDir r) (maxHealth
     r) (health r) (shield r) (invulnTimer r) (dashCooldown r) (dashTime r)
     (temporalCooldown r) (temporalTime r) (primaryCooldown r) (mineCooldown
     r) (length r).
Definition set_baseSpeed (v : Q) (r : t) : t :=
  mk (head r) v (speed r) (turnRate r) (dir r) (targetDir r) (maxHealth r)
     (health r) (shield r) (invulnTimer r) (dashCooldown r) (dashTime r)
     (temporalCooldown r) (temporalTime r) (primaryCooldown r) (mineCooldown
     r) (length r).
Definition set_speed (v : Q) (r : t) : t :=
  mk (head r) (baseSpeed r) v (turnRate r) (dir r) (targetDir r) (maxHealth
     r) (health r) (shield r) (invulnTimer r) (dashCooldown r) (dashTime r)
     (temporalCooldown r) (temporalTime r) (primaryCooldown r) (mineCooldown
     r) (length r).
Definition set_turnRate (v : Q) (r : t) : t :=
  mk (head r) (baseSpeed r) (speed r) v (dir r) (targetDir r) (maxHealth r)
     (health r) (shield r) (invulnTimer r) (dashCooldown r) (dashTime r)
     (temporalCooldown r) (temporalTime r) (primaryCooldown r) (mineCooldown
     r) (length r).
Definition set_dir (v : Vec.t) (r : t) : t :=
  mk (head r) (baseSpeed r) (speed r) (turnRate r) v (targetDir r)
     (maxHealth r) (health r) (shield r) (invulnTimer r) (dashCooldown r)
     (dashTime r) (temporalCooldown r) (temporalTime r) (primaryCooldown r)
     (mineCooldown r) (length r).
Definition set_targetDir (v : Vec.t) (r : t) : t :=
  mk (head r) (baseSpeed r) (speed r) (turnRate r) (dir r) v (maxHealth r)
     (health r) (shield r) (invulnTimer r) (dashCooldown r) (dashTime r)
     (temporalCooldown r) (temporalTime r) (primaryCooldown r) (mineCooldown
     r) (length r).
Definition set_maxHealth (v : Q) (r : t) : t :=
  mk (head r) (baseSpeed r) (speed r) (turnRate r) (dir r) (targetDir r) v
     (health r) (shield r) (invulnTimer r) (dashCooldown r) (dashTime r)
     (temporalCooldown r) (temporalTime r) (primaryCooldown r) (mineCooldown
     r) (length r).
Definition set_health (v : Q) (r : t) : t :=
  mk (head r) (baseSpeed r) (speed r) (turnRate r) (dir r) (targetDir r)
     (maxHealth r) v (shield r) (invulnTimer r) (dashCooldown r) (dashTime
     r) (temporalCooldown r) (temporalTime r) (primaryCooldown r)
     (mineCooldown r) (length r).
Definition set_shield (v : Q) (r : t) : t :=
  mk (head r) (baseSpeed r) (speed r) (turnRate r) (dir r) (targetDir r)
     (maxHealth r) (health r) v (invulnTimer r) (dashCooldown r) (dashTime
     r) (temporalCooldown r) (temporalTime r) (primaryCooldown r)
     (mineCooldown r) (length r).
Definition set_invulnTimer (v : Q) (r : t) : t :=
  mk (head r) (baseSpeed r) (speed r) (turnRate r) (dir r) (targetDir r)
     (maxHealth r) (health r) (shield r) v (dashCooldown r) (dashTime r)
     (temporalCooldown r) (temporalTime r) (primaryCooldown r) (mineCooldown
     r) (length r).
Definition set_dashCooldown (v : Q) (r : t) : t :=
  mk (head r) (baseSpeed r) (speed r) (turnRate r) (dir r) (targetDir r)
     (maxHealth r) (health r) (shield r) (invulnTimer r) v (dashTime r)
     (temporalCooldown r) (temporalTime r) (primaryCooldown r) (mineCooldown
     r) (length r).
Definition set_dashTime (v : Q) (r : t) : t :=
  mk (head r) (baseSpeed r) (speed r) (turnRate r) (dir r) (targetDir r)
     (maxHealth r) (health r) (shield r) (invulnTimer r) (dashCooldown r) v
     (temporalCooldown r) (temporalTime r) (primaryCooldown r) (mineCooldown
     r) (length r).
Definition set_temporalCooldown (v : Q) (r : t) : t :=
  mk (head r) (baseSpeed r) (speed r) (turnRate r) (dir r) (targetDir r)
     (maxHealth r) (health r) (shield r) (invulnTimer r) (dashCooldown r)
     (dashTime r) v (temporalTime r) (primaryCooldown r) (mineCooldown r)
     (length r).
Definition set_temporalTime (v : Q) (r : t) : t :=
  mk (head r) (baseSpeed r) (speed r) (turnRate r) (dir r) (targetDir r)
     (maxHealth r) (health r) (shield r) (invulnTimer r) (dashCooldown r)
     (dashTime r) (temporalCooldown r) v (primaryCooldown r) (mineCooldown
     r) (length r).
Definition set_primaryCooldown (v : Q) (r : t) : t :=
  mk (head r) (baseSpeed r) (speed r) (turnRate r) (dir r) (targetDir r)
     (maxHealth r) (health r) (shield r) (invulnTimer r) (dashCooldown r)
     (dashTime r) (temporalCooldown r) (temporalTime r) v (mineCooldown r)
     (length r).
Definition set_mineCooldown (v : Q) (r : t) : t :=
  mk (head r) (baseSpeed r) (speed r) (turnRate r) (dir r) (targetDir r)
     (maxHealth r) (health r) (shield r) (invulnTimer r) (dashCooldown r)
     (dashTime r) (temporalCooldown r) (temporalTime r) (primaryCooldown r)
     v (length r).
Definition set_length (v : Z) (r : t) : t :=
  mk (head r) (baseSpeed r) (speed r) (turnRate r) (dir r) (targetDir r)
     (maxHealth r) (health r) (shield r) (invulnTimer r) (dashCooldown r)
     (dashTime r) (temporalCooldown r) (temporalTime r) (primaryCooldown r)
     (mineCooldown r) v.

(** [constructor(x, y)] *)
Definition new (x y : Q) : t :=
  mk (Vec.mk x y) 170 170 (65#10) (Vec.mk 1 0) (Vec.mk 1 0)
     100 100 0 0 0 0 0 0 0 0 18%Z.

(** [grow(amount)] *)
Definition grow (amount : Z) (s : t) : t :=
  set_length (length s + amount)%Z s.

(** [heal(amount)] *)
Definition heal (amount : Q) (s : t) : t :=
  set_health (clamp (health s + amount) 0 (maxHealth s)) s.

(** [addShield(amount)] *)
Definition addShield (amount : Q) (s : t) : t :=
  set_shield (clamp (shield s + amount) 0 120) s.

(** [applyDamage(amount)]: the value returned and the snake afterwards. *)
Definition applyDamage (amount : Q) (s : t) : Q * t :=
  if Qgtb (invulnTimer s) 0 then (0, s)
  else
    let absorbed := if Qgtb (shield s) 0 then Qmin (shield s) amount else 0 in
    let s1 := if Qgtb (shield s) 0 then set_shield (shield s - absorbed) s else s in
    let remaining := amount - absorbed in
    let s2 := if Qgtb remaining 0 then set_health (health s1 - remaining) s1 else s1 in
    (amount, set_invulnTimer (2#10) s2).
End Snake.

(* ------------------------------------------------------------------ *)
(** ** The match state *)

Inductive GameState := menu | running | paused | gameover.

Definition GameState_eqb (a b : GameState) : bool :=
  match a, b with
  | menu, menu | running, running | paused, paused | gameover, gameover => true
  | _, _ => false
  end.

Module Game.
(** [missions] is [missionSystem.missions], [particles] is
    [particles.items], [tookDamageThisLevel] is [flags.tookDamageThisLevel],
    [rng] counts the calls to [Math.random()] so far. *)
Record t := mk {
  input : InputManager.t; particles : list Particle.t; missions : list
  Mission.t; state : GameState; snake : Snake.t; projectiles : list
  Projectile.t; enemyProjectiles : list Projectile.t; enemies : list
  Enemy.t; cores : list Core.t; mines : list Mine.t; score : Q; level : Z;
  xp : Q; combo : Q; comboTimer : Q; comboTier : Z; waveTime : Q; spawnTimer
  : Q; coreSpawnTimer : Q; bgTime : Q; tookDamageThisLevel : bool;
  cameraShake : Q; lastTime : Q; rng : nat }.

Definition set_input (v : InputManager.t) (r : t) : t :=
  mk v (particles r) (missions r) (state r) (snake r) (projectiles r)
     (enemyProjectiles r) (enemies r) (cores r) (mines r) (score r) (level
     r) (xp r) (combo r) (comboTimer r) (comboTier r) (waveTime r)
     (spawnTimer r) (coreSpawnTimer r) (bgTime r) (tookDamageThisLevel r)
     (cameraShake r) (lastTime r) (rng r).
Definition set_particles (v : list Particle.t) (r : t) : t :=
  mk (input r) v (missions r) (state r) (snake r) (projectiles r)
     (enemyProjectiles r) (enemies r) (cores r) (mines r) (score r) (level
     r) (xp r) (combo r) (comboTimer r) (comboTier r) (waveTime r)
     (spawnTimer r) (coreSpawnTimer r) (bgTime r) (tookDamageThisLevel r)
     (cameraShake r) (lastTime r) (rng r).
Definition set_missions (v : list Mission.t) (r : t) : t :=
  mk (input r) (particles r) v (state r) (snake r) (projectiles r)
     (enemyProjectiles r) (enemies r) (cores r) (mines r) (score r) (level
     r) (xp r) (combo r) (comboTimer r) (comboTier r) (waveTime r)
     (spawnTimer r) (coreSpawnTimer r) (bgTime r) (tookDamageThisLevel r)
     (cameraShake r) (lastTime r) (rng r).
Definition set_state (v : GameState) (r : t) : t :=
  mk (input r) (particles r) (missions r) v (snake r) (projectiles r)
     (enemyProjectiles r) (enemies r) (cores r) (mines r) (score r) (level
     r) (xp r) (combo r) (comboTimer r) (comboTier r) (waveTime r)
     (spawnTimer r) (coreSpawnTimer r) (bgTime r) (tookDamageThisLevel r)
     (cameraShake r) (lastTime r) (rng r).
Definition set_snake (v : Snake.t) (r : t) : t :=
  mk (input r) (particles r) (missions r) (state r) v (projectiles r)
     (enemyProjectiles r) (enemies r) (cores r) (mines r) (score r) (level
     r) (xp r) (combo r) (comboTimer r) (comboTier r) (waveTime r)
     (spawnTimer r) (coreSpawnTimer r) (bgTime r) (tookDamageThisLevel r)
     (cameraShake r) (lastTime r) (rng r).
Definition set_projectiles (v : list Projectile.t) (r : t) : t :=
  mk (input r) (particles r) (missions r) (state r) (snake r) v
     (enemyProjectiles r) (enemies r) (cores r) (mines r) (score r) (level
     r) (xp r) (combo r) (comboTimer r) (comboTier r) (waveTime r)
     (spawnTimer r) (coreSpawnTimer r) (bgTime r) (tookDamageThisLevel r)
     (cameraShake r) (lastTime r) (rng r).
Definition set_enemyProjectiles (v : list Projectile.t) (r : t) : t :=
  mk (input r) (particles r) (missions r) (state r) (snake r) (projectiles
     r) v (enemies r) (cores r) (mines r) (score r) (level r) (xp r) (combo
     r) (comboTimer r) (comboTier r) (waveTime r) (spawnTimer r)
     (coreSpawnTimer r) (bgTime r) (tookDamageThisLevel r) (cameraShake r)
     (lastTime r) (rng r).
Definition set_enemies (v : list Enemy.t) (r : t) : t :=
  mk (input r) (particles r) (missions r) (state r) (snake r) (projectiles
     r) (enemyProjectiles r) v (cores r) (mines r) (score r) (level r) (xp
     r) (combo r) (comboTimer r) (comboTier r) (waveTime r) (spawnTimer r)
     (coreSpawnTimer r) (bgTime r) (tookDamageThisLevel r) (cameraShake r)
     (lastTime r) (rng r).
Definition set_cores (v : list Core.t) (r : t) : t :=
  mk (input r) (particles r) (missions r) (state r) (snake r) (projectiles
     r) (enemyProjectiles r) (enemies r) v (mines r) (score r) (level r) (xp
     r) (combo r) (comboTimer r) (comboTier r) (waveTime r) (spawnTimer r)
     (coreSpawnTimer r) (bgTime r) (tookDamageThisLevel r) (cameraShake r)
     (lastTime r) (rng r).
Definition set_mines (v : list Mine.t) (r : t) : t :=
  mk (input r) (particles r) (missions r) (state r) (snake r) (projectiles
     r) (enemyProjectiles r) (enemies r) (cores r) v (score r) (level r) (xp
     r) (combo r) (comboTimer r) (comboTier r) (waveTime r) (spawnTimer r)
     (coreSpawnTimer r) (bgTime r) (tookDamageThisLevel r) (cameraShake r)
     (lastTime r) (rng r).
Definition set_score (v : Q) (r : t) : t :=
  mk (input r) (particles r) (missions r) (state r) (snake r) (projectiles
     r) (enemyProjectiles r) (enemies r) (cores r) (mines r) v (level r) (xp
     r) (combo r) (comboTimer r) (comboTier r) (waveTime r) (spawnTimer r)
     (coreSpawnTimer r) (bgTime r) (tookDamageThisLevel r) (cameraShake r)
     (lastTime r) (rng r).
Definition set_level (v : Z) (r : t) : t :=
  mk (input r) (particles r) (missions r) (state r) (snake r) (projectiles
     r) (enemyProjectiles r) (enemies r) (cores r) (mines r) (score r) v (xp
     r) (combo r) (comboTimer r) (comboTier r) (waveTime r) (spawnTimer r)
     (coreSpawnTimer r) (bgTime r) (tookDamageThisLevel r) (cameraShake r)
     (lastTime r) (rng r).
Definition set_xp (v : Q) (r : t) : t :=
  mk (input r) (particles r) (missions r) (state r) (snake r) (projectiles
     r) (enemyProjectiles r) (enemies r) (cores r) (mines r) (score r)
     (level r) v (combo r) (comboTimer r) (comboTier r) (waveTime r)
     (spawnTimer r) (coreSpawnTimer r) (bgTime r) (tookDamageThisLevel r)
     (cameraShake r) (lastTime r) (rng r).
Definition set_combo (v : Q) (r : t) : t :=
  mk (input r) (particles r) (missions r) (state r) (snake r) (projectiles
     r) (enemyProjectiles r) (enemies r) (cores r) (mines r) (score r)
     (level r) (xp r) v (comboTimer r) (comboTier r) (waveTime r)
     (spawnTimer r) (coreSpawnTimer r) (bgTime r) (tookDamageThisLevel r)
     (cameraShake r) (lastTime r) (rng r).
Definition set_comboTimer (v : Q) (r : t) : t :=
  mk (input r) (particles r) (missions r) (state r) (snake r) (projectiles
     r) (enemyProjectiles r) (enemies r) (cores r) (mines r) (score r)
     (level r) (xp r) (combo r) v (comboTier r) (waveTime r) (spawnTimer r)
     (coreSpawnTimer r) (bgTime r) (tookDamageThisLevel r) (cameraShake r)
     (lastTime r) (rng r).
Definition set_comboTier (v : Z) (r : t) : t :=
  mk (input r) (particles r) (missions r) (state r) (snake r) (projectiles
     r) (enemyProjectiles r) (enemies r) (cores r) (mines r) (score r)
     (level r) (xp r) (combo r) (comboTimer r) v (waveTime r) (spawnTimer r)
     (coreSpawnTimer r) (bgTime r) (tookDamageThisLevel r) (cameraShake r)
     (lastTime r) (rng r).
Definition set_waveTime (v : Q) (r : t) : t :=
  mk (input r) (particles r) (missions r) (state r) (snake r) (projectiles
     r) (enemyProjectiles r) (enemies r) (cores r) (mines r) (score r)
     (level r) (xp r) (combo r) (comboTimer r) (comboTier r) v (spawnTimer
     r) (coreSpawnTimer r) (bgTime r) (tookDamageThisLevel r) (cameraShake
     r) (lastTime r) (rng r).
Definition set_spawnTimer (v : Q) (r : t) : t :=
  mk (input r) (particles r) (missions r) (state r) (snake r) (projectiles
     r) (enemyProjectiles r) (enemies r) (cores r) (mines r) (score r)
     (level r) (xp r) (combo r) (comboTimer r) (comboTier r) (waveTime r) v
     (coreSpawnTimer r) (bgTime r) (tookDamageThisLevel r) (cameraShake r)
     (lastTime r) (rng r).
Definition set_coreSpawnTimer (v : Q) (r : t) : t :=
  mk (input r) (particles r) (missions r) (state r) (snake r) (projectiles
     r) (enemyProjectiles r) (enemies r) (cores r) (mines r) (score r)
     (level r) (xp r) (combo r) (comboTimer r) (comboTier r) (waveTime r)
     (spawnTimer r) v (bgTime r) (tookDamageThisLevel r) (cameraShake r)
     (lastTime r) (rng r).
Definition set_bgTime (v : Q) (r : t) : t :=
  mk (input r) (particles r) (missions r) (state r) (snake r) (projectiles
     r) (enemyProjectiles r) (enemies r) (cores r) (mines r) (score r)
     (level r) (xp r) (combo r) (comboTimer r) (comboTier r) (waveTime r)
     (spawnTimer r) (coreSpawnTimer r) v (tookDamageThisLevel r)
     (cameraShake r) (lastTime r) (rng r).
Definition set_tookDamageThisLevel (v : bool) (r : t) : t :=
  mk (input r) (particles r) (missions r) (state r) (snake r) (projectiles
     r) (enemyProjectiles r) (enemies r) (cores r) (mines r) (score r)
     (level r) (xp r) (combo r) (comboTimer r) (comboTier r) (waveTime r)
     (spawnTimer r) (coreSpawnTimer r) (bgTime r) v (cameraShake r)
     (lastTime r) (rng r).
Definition set_cameraShake (v : Q) (r : t) : t :=
  mk (input r) (particles r) (missions r) (state r) (snake r) (projectiles
     r) (enemyProjectiles r) (enemies r) (cores r) (mines r) (score r)
     (level r) (xp r) (combo r) (comboTimer r) (comboTier r) (waveTime r)
     (spawnTimer r) (coreSpawnTimer r) (bgTime r) (tookDamageThisLevel r) v
     (lastTime r) (rng r).
Definition set_lastTime (v : Q) (r : t) : t :=
  mk (input r) (particles r) (missions r) (state r) (snake r) (projectiles
     r) (enemyProjectiles r) (enemies r) (cores r) (mines r) (score r)
     (level r) (xp r) (combo r) (comboTimer r) (comboTier r) (waveTime r)
     (spawnTimer r) (coreSpawnTimer r) (bgTime r) (tookDamageThisLevel r)
     (cameraShake r) v (rng r).
Definition set_rng (v : nat) (r : t) : t :=
  mk (input r) (particles r) (missions r) (state r) (snake r) (projectiles
     r) (enemyProjectiles r) (enemies r) (cores r) (mines r) (score r)
     (level r) (xp r) (combo r) (comboTimer r) (comboTier r) (waveTime r)
     (spawnTimer r) (coreSpawnTimer r) (bgTime r) (tookDamageThisLevel r)
     (cameraShake r) (lastTime r) v.
End Game.

Import Game.

(* ------------------------------------------------------------------ *)
(** ** Behaviour *)

Section Engine.
Context {host : Host}.

(** [const distance = (x1, y1, x2, y2) => Math.hypot(x2 - x1, y2 - y1)] *)
Definition distance (x1 y1 x2 y2 : Q) : Q := Math_hypot (x2 - x1) (y2 - y1).

(** [randRange(min, max)], reading the [n]-th random value.  Over the
    rationals the result is below [max] whenever [min < max]; the
    floating-point sum of the source can round up to [max] itself. *)
Definition randRange (lo hi : Q) (n : nat) : Q :=
  lo + Math_random n * (hi - lo).

(** [randInt(min, max)], reading the [n]-th random value.  The source
    calls it as [randInt(0, 3)] and [randInt(0, 2)] only, where the
    floating-point product stays below [max + 1] as the rational one
    does. *)
Definition randInt (lo hi : Z) (n : nat) : Z :=
  Math_floor (randRange (inject_Z lo) (inject_Z (hi + 1)) n).

(** *** Particles *)

(** One iteration of the loop of [ParticleSystem.burst]: four draws. *)
Definition burstParticle (x y : Q) (color : string) (speed size : Q) (n : nat)
  : Particle.t :=
  let angle := Math_random n * Math_PI * 2 in
  let sp := speed * ((4#10) + Math_random (n + 1)) in
  Particle.new x y (Math_cos angle * sp) (Math_sin angle * sp)
    (randRange (25#100) (85#100) (n + 2)) color
    (size * randRange (7#10) (13#10) (n + 3)).

Fixpoint burstItems (x y : Q) (count : nat) (color : string) (speed size : Q)
    (n : nat) : list Particle.t :=
  match count with
  | O => []
  | S c => burstParticle x y color speed size n
           :: burstItems x y c color speed size (n + 4)
  end.

(** [ParticleSystem.burst(x, y, count, color, speed, size)] *)
Definition ParticleSystem_burst (x y : Q) (count : nat) (color : string)
    (speed size : Q) (g : Game.t) : Game.t :=
  set_rng (rng g + 4 * count)
    (set_particles (particles g ++ burstItems x y count color speed size (rng g)) g).

(** [ParticleSystem.trail(x, y, color)] *)
Definition ParticleSystem_trail (x y : Q) (color : string) (g : Game.t) : Game.t :=
  let n := rng g in
  set_rng (n + 4)
    (set_particles
       (particles g ++
        [Particle.new x y (randRange (-20) 20 n) (randRange (-20) 20 (n + 1))
           (randRange (16#100) (3#10) (n + 2)) color
           (randRange (12#10) (23#10) (n + 3))]) g).

(** [ParticleSystem.update(dt)]:
    [this.items = this.items.filter((p) => p.update(dt))] *)
Definition ParticleSystem_update (dt : Q) (ps : list Particle.t) : list Particle.t :=
  map fst (filter snd (map (Particle.update dt) ps)).

(** *** Projectiles *)

(** [Projectile.update(dt)] *)
Definition Projectile_update (dt : Q) (p : Projectile.t) : Projectile.t :=
  let ttl' := Projectile.ttl p - dt in
  let x' := Projectile.x p + Projectile.vx p * dt in
  let y' := Projectile.y p + Projectile.vy p * dt in
  let a1 := if Qleb ttl' 0 then false else Projectile.alive p in
  let a2 := if Qltb x' (-20) || Qltb y' (-20)
               || Qgtb x' (WORLD_width + 20) || Qgtb y' (WORLD_height + 20)
            then false else a1 in
  Projectile.mk x' y' (Projectile.vx p) (Projectile.vy p) (Projectile.damage p)
    (Projectile.color p) (Projectile.radius p) ttl' a2.

(** *** Missions *)

(** [MissionSystem.pool], each thunk already applied. *)
Definition pool : list Mission.t :=
  [ Mission.new "kill_runners" "Eliminate runner units" 6 runnerKills None;
    Mission.new "collect_cores" "Absorb unstable cores" 8 coreCollect None;
    Mission.new "no_hit" "No damage for 30s" 30 secondsNoHit (Some 30);
    Mission.new "mine_kill" "Destroy enemies with mines" 5 mineKills None;
    Mission.new "combo" "Reach combo x10" 10 comboPeak None ].

(** [MissionSystem.startLevel(level)] *)
Definition MissionSystem_startLevel (lvl : Z) (g : Game.t) : Game.t :=
  let rngCount := if (Z.rem lvl 3 =? 0)%Z then 3%nat else 2%nat in
  let bag := sortRandom (rng g) pool in
  set_rng (snd bag) (set_missions (firstn rngCount (fst bag)) g).

(** The body of the loop of [MissionSystem.update(dt, game)]. *)
Definition MissionSystem_step (dt : Q) (tookDamage : bool) (tier : Z)
    (m0 : Mission.t) : Mission.t :=
  let m1 := Mission.update dt m0 in
  let m2 :=
    if MissionType_eqb (Mission.type m1) secondsNoHit && negb tookDamage then
      let p := clamp (numOf (Mission.maxTimer m1) - numOf (Mission.timer m1))
                     0 (Mission.target m1) in
      let m := Mission.setProgress p m1 in
      if Qgeb p (Mission.target m) then Mission.setDone m else m
    else m1 in
  if MissionType_eqb (Mission.type m2) comboPeak then
    let p := Qmax (Mission.progress m2) (inject_Z tier) in
    let m := Mission.setProgress p m2 in
    if Qgeb p (Mission.target m) then Mission.setDone m else m
  else m2.

(** [MissionSystem.update(dt, game)] *)
Definition MissionSystem_update (dt : Q) (g : Game.t) : Game.t :=
  set_missions
    (map (MissionSystem_step dt (tookDamageThisLevel g) (comboTier g)) (missions g))
    g.

(** [MissionSystem.onEvent(type, amount = 1)] *)
Definition MissionSystem_onEvent (ty : MissionType) (amount : Q) (g : Game.t)
  : Game.t :=
  set_missions
    (map (fun m => if MissionType_eqb (Mission.type m) ty
                   then Mission.inc amount m else m) (missions g))
    g.

(** [MissionSystem.rewardScore()] *)
Definition MissionSystem_rewardScore (ms : list Mission.t) : Q :=
  fold_left (fun sum m => sum + Mission.reward m) (filter Mission.done ms) 0.

(** *** The player's update *)

(** [Snake.setAimFromInput(input)] *)
Definition Snake_setAimFromInput (i : InputManager.t) (s : Snake.t) : Snake.t :=
  let y0 := if InputManager.isDown ["arrowup"; "w"]%string i then 0 - 1 else 0 in
  let y := if InputManager.isDown ["arrowdown"; "s"]%string i then y0 + 1 else y0 in
  let x0 := if InputManager.isDown ["arrowleft"; "a"]%string i then 0 - 1 else 0 in
  let x := if InputManager.isDown ["arrowright"; "d"]%string i then x0 + 1 else x0 in
  if negb (Qeq_bool x 0) || negb (Qeq_bool y 0) then
    let mag := orOne (Math_hypot x y) in
    Snake.set_targetDir (Vec.mk (x / mag) (y / mag)) s
  else s.

(** Lines 633-638 of [Snake.update]: low-pass filter of the facing
    direction, renormalised. *)
Definition Snake_turn (dt : Q) (s : Snake.t) : Snake.t :=
  let smoothing := 1 - Math_exp (- Snake.turnRate s * dt) in
  let dx := lerp (Vec.x (Snake.dir s)) (Vec.x (Snake.targetDir s)) smoothing in
  let dy := lerp (Vec.y (Snake.dir s)) (Vec.y (Snake.targetDir s)) smoothing in
  let m := orOne (Math_hypot dx dy) in
  Snake.set_dir (Vec.mk (dx / m) (dy / m)) s.

(** Lines 640-651: every timer counts down; the two active-duration
    timers only while positive. *)
Definition Snake_timers (dt : Q) (s : Snake.t) : Snake.t :=
  let s1 := Snake.set_invulnTimer (Snake.invulnTimer s - dt) s in
  let s2 := Snake.set_primaryCooldown (Snake.primaryCooldown s1 - dt) s1 in
  let s3 := Snake.set_dashCooldown (Snake.dashCooldown s2 - dt) s2 in
  let s4 := Snake.set_temporalCooldown (Snake.temporalCooldown s3 - dt) s3 in
  let s5 := Snake.set_mineCooldown (Snake.mineCooldown s4 - dt) s4 in
  let s6 := if Qgtb (Snake.dashTime s5) 0
            then Snake.set_dashTime (Snake.dashTime s5 - dt) s5 else s5 in
  if Qgtb (Snake.temporalTime s6) 0
  then Snake.set_temporalTime (Snake.temporalTime s6 - dt) s6 else s6.

(** [input.consume(key)] on the game's input manager. *)
Definition consumeKey (k : string) (g : Game.t) : bool * Game.t :=
  let c := InputManager.consume k (input g) in
  (fst c, set_input (snd c) g).

(** Lines 653-658: dash. *)
Definition Snake_dash (g0 : Game.t) : Game.t :=
  let c := consumeKey "shift" g0 in
  let g := snd c in
  if fst c && Qleb (Snake.dashCooldown (snake g)) 0 then
    let s := Snake.set_dashTime (24#100) (Snake.set_dashCooldown (35#10) (snake g)) in
    ParticleSystem_burst (Vec.x (Snake.head s)) (Vec.y (Snake.head s)) 18
      "#a6f7ff" 190 3 (set_snake s g)
  else g.

(** Lines 660-664: temporal burst. *)
Definition Snake_temporal (g0 : Game.t) : Game.t :=
  let c := consumeKey "e" g0 in
  let g := snd c in
  if fst c && Qleb (Snake.temporalCooldown (snake g)) 0 then
    let s := Snake.set_temporalTime (22#10)
               (Snake.set_temporalCooldown 8 (snake g)) in
    ParticleSystem_burst (Vec.x (Snake.head s)) (Vec.y (Snake.head s)) 25
      "#a08cff" 240 4 (set_snake s g)
  else g.

(** Lines 666-669: mine deployment. *)
Definition Snake_mine (g0 : Game.t) : Game.t :=
  let c := consumeKey "q" g0 in
  let g := snd c in
  if fst c && Qleb (Snake.mineCooldown (snake g)) 0 then
    let s := Snake.set_mineCooldown (22#10) (snake g) in
    set_mines
      (mines g ++ [Mine.new (Vec.x (Snake.head s)) (Vec.y (Snake.head s))])
      (set_snake s g)
  else g.

(** One projectile of the primary weapon, [i] steps of [spread] off the
    facing direction. *)
Definition primaryShot (s : Snake.t) (i : Q) : Projectile.t :=
  let a := Math_atan2 (Vec.y (Snake.dir s)) (Vec.x (Snake.dir s)) + i * (9#100) in
  Projectile.new (Vec.x (Snake.head s)) (Vec.y (Snake.head s))
    (Math_cos a * 360) (Math_sin a * 360) 12 "#87faff" 4 (15#10).

(** Lines 671-681: primary fire; [||] stops consuming at the first key
    that was pressed. *)
Definition Snake_fire (g0 : Game.t) : Game.t :=
  let c1 := consumeKey " " g0 in
  let c2 := if fst c1 then c1 else consumeKey "space" (snd c1) in
  let c3 := if fst c2 then c2 else consumeKey "spacebar" (snd c2) in
  let g := snd c3 in
  if fst c3 && Qleb (Snake.primaryCooldown (snake g)) 0 then
    let s := Snake.set_primaryCooldown (18#100) (snake g) in
    set_projectiles
      (projectiles g ++ [primaryShot s (-1); primaryShot s 0; primaryShot s 1])
      (set_snake s g)
  else g.

(** Line 691-694: the head wraps at each boundary of the world. *)
Definition wrap (v size : Q) : Q :=
  let v1 := if Qltb v 0 then v + size else v in
  if Qgtb v1 size then v1 - size else v1.

(** Lines 683-694: speed and head movement. *)
Definition Snake_move (dt : Q) (s : Snake.t) : Snake.t :=
  let sp0 := Snake.baseSpeed s + inject_Z (Snake.length s - 18) * (35#100) in
  let sp1 := if Qgtb (Snake.dashTime s) 0 then sp0 * (26#10) else sp0 in
  let sp2 := if Qgtb (Snake.temporalTime s) 0 then sp1 * (13#10) else sp1 in
  let s1 := Snake.set_speed sp2 s in
  let hx := Vec.x (Snake.head s1) + Vec.x (Snake.dir s1) * Snake.speed s1 * dt in
  let hy := Vec.y (Snake.head s1) + Vec.y (Snake.dir s1) * Snake.speed s1 * dt in
  Snake.set_head (Vec.mk (wrap hx WORLD_width) (wrap hy WORLD_height)) s1.

(** [Snake.update(dt, input, game)] *)
Definition Snake_update (dt : Q) (g : Game.t) : Game.t :=
  let g1 :=
    set_snake
      (Snake_timers dt (Snake_turn dt (Snake_setAimFromInput (input g) (snake g))))
      g in
  let g2 := Snake_fire (Snake_mine (Snake_temporal (Snake_dash g1))) in
  let g3 := set_snake (Snake_move dt (snake g2)) g2 in
  ParticleSystem_trail (Vec.x (Snake.head (snake g3))) (Vec.y (Snake.head (snake g3)))
    (if Qgtb (Snake.temporalTime (snake g3)) 0 then "#a08cff" else "#6cefff") g3.

(** *** Enemies *)

(** The twelve projectiles of a boss volley. *)
Definition bossVolley (e : Enemy.t) : list Projectile.t :=
  map (fun i : Z =>
         let a := (Math_PI * 2 * inject_Z i) / 12 in
         Projectile.new (Enemy.x e) (Enemy.y e)
           (Math_cos a * 190) (Math_sin a * 190) 10 "#ff8ca2" 5 3)
      [0; 1; 2; 3; 4; 5; 6; 7; 8; 9; 10; 11]%Z.

Definition Enemy_setMotion (vx vy cooldown : Q) (e : Enemy.t) : Enemy.t :=
  Enemy.mk (Enemy.type e) (Enemy.x e) (Enemy.y e) vx vy (Enemy.radius e)
    (Enemy.maxHealth e) (Enemy.health e) (Enemy.speed e) (Enemy.contactDamage e)
    (Enemy.color e) (Enemy.alive e) cooldown (Enemy.scoreValue e).

(** Lines 409-412: integrate the velocity and clamp into the world. *)
Definition Enemy_advance (dt : Q) (e : Enemy.t) : Enemy.t :=
  Enemy.mk (Enemy.type e)
    (clamp (Enemy.x e + Enemy.vx e * dt) (Enemy.radius e)
           (WORLD_width - Enemy.radius e))
    (clamp (Enemy.y e + Enemy.vy e * dt) (Enemy.radius e)
           (WORLD_height - Enemy.radius e))
    (Enemy.vx e) (Enemy.vy e) (Enemy.radius e)
    (Enemy.maxHealth e) (Enemy.health e) (Enemy.speed e) (Enemy.contactDamage e)
    (Enemy.color e) (Enemy.alive e) (Enemy.fireCooldown e) (Enemy.scoreValue e).

(** [Enemy.update(dt, game)]: the enemy afterwards, and the game with what
    the enemy fired. *)
Definition Enemy_update (dt : Q) (e : Enemy.t) (g : Game.t) : Enemy.t * Game.t :=
  let dx := Vec.x (Snake.head (snake g)) - Enemy.x e in
  let dy := Vec.y (Snake.head (snake g)) - Enemy.y e in
  let d := orOne (Math_hypot dx dy) in
  let nx := dx / d in
  let ny := dy / d in
  let sp := Enemy.speed e in
  match Enemy.type e with
  | runner =>
      (Enemy_advance dt (Enemy_setMotion (nx * sp) (ny * sp) (Enemy.fireCooldown e) e), g)
  | tank =>
      (Enemy_advance dt
         (Enemy_setMotion (lerp (Enemy.vx e) (nx * sp) (3#100))
            (lerp (Enemy.vy e) (ny * sp) (3#100)) (Enemy.fireCooldown e) e), g)
  | sniper =>
      let desired := 210 in
      let vx' := if Qgtb d (desired + 14) then nx * sp
                 else if Qltb d (desired - 16) then - nx * sp
                 else Enemy.vx e * (92#100) in
      let vy' := if Qgtb d (desired + 14) then ny * sp
                 else if Qltb d (desired - 16) then - ny * sp
                 else Enemy.vy e * (92#100) in
      let cd := Enemy.fireCooldown e - dt in
      if Qleb cd 0 then
        let e1 := Enemy_setMotion vx' vy' (randRange (14#10) (22#10) (rng g)) e in
        let g1 := set_rng (rng g + 1) g in
        let g2 := set_enemyProjectiles
                    (enemyProjectiles g1 ++
                     [Projectile.new (Enemy.x e) (Enemy.y e) (nx * 250) (ny * 250)
                        12 "#f4a2ff" 4 (26#10)]) g1 in
        (Enemy_advance dt e1,
         ParticleSystem_burst (Enemy.x e) (Enemy.y e) 8 "#f4a2ff" 95 (24#10) g2)
      else (Enemy_advance dt (Enemy_setMotion vx' vy' cd e), g)
  | boss =>
      let vx' := lerp (Enemy.vx e) (nx * sp) (15#1000) in
      let vy' := lerp (Enemy.vy e) (ny * sp) (15#1000) in
      let cd := Enemy.fireCooldown e - dt in
      if Qleb cd 0 then
        (Enemy_advance dt (Enemy_setMotion vx' vy' (115#100) e),
         set_enemyProjectiles (enemyProjectiles g ++ bossVolley e) g)
      else (Enemy_advance dt (Enemy_setMotion vx' vy' cd e), g)
  | drone =>
      (Enemy_advance dt (Enemy_setMotion (nx * sp) (ny * sp) (Enemy.fireCooldown e) e), g)
  end.

(** *** Spawning *)

(** [Game.spawnEnemy()]: four draws (roll, side, position, and the fire
    cooldown drawn by the [Enemy] constructor). *)
Definition Game_spawnEnemy (g : Game.t) : Game.t :=
  let n := rng g in
  let roll := Math_random n in
  let ty0 := if Qltb roll (35#100) then runner
             else if Qltb roll (55#100) then sniper
             else if Qltb roll (7#10) then tank
             else drone in
  let ty := if (Z.rem (level g) 4 =? 0)%Z && negb (existsb Enemy.isBoss (enemies g))
            then boss else ty0 in
  let side := randInt 0 3 (n + 1) in
  let x := if (side =? 0)%Z then randRange 0 WORLD_width (n + 2)
           else if (side =? 1)%Z then WORLD_width + 20
           else if (side =? 2)%Z then randRange 0 WORLD_width (n + 2)
           else -20 in
  let y := if (side =? 0)%Z then -20
           else if (side =? 1)%Z then randRange 0 WORLD_height (n + 2)
           else if (side =? 2)%Z then WORLD_height + 20
           else randRange 0 WORLD_height (n + 2) in
  let scale := 1 + inject_Z (level g - 1) * (16#100) in
  set_rng (n + 4)
    (set_enemies (enemies g ++ [Enemy.new ty x y scale (randRange (8#10) (16#10) (n + 3))])
       g).

(** [Game.spawnCore()] *)
Definition Game_spawnCore (g : Game.t) : Game.t :=
  let n := rng g in
  let margin := 30 in
  set_rng (n + 4)
    (set_cores
       (cores g ++
        [Core.new (randRange margin (WORLD_width - margin) n)
           (randRange margin (WORLD_height - margin) (n + 1))
           (Math_random (n + 2) * Math_PI * 2) (randInt 0 2 (n + 3))]) g).

(** *** Scoring and progression *)

(** Lines 916-932 of [Game.gainScore]: the level-up check. *)
Definition Game_levelUp (g : Game.t) : Game.t :=
  let needed := inject_Z (450 + level g * 170) in
  if Qgeb (xp g) needed then
    let g1 := set_tookDamageThisLevel false
                (set_level (level g + 1)%Z (set_xp (xp g - needed) g)) in
    let missionReward := MissionSystem_rewardScore (missions g1) in
    let g2 := MissionSystem_startLevel (level g1)
                (set_score (score g1 + missionReward) g1) in
    let s1 := Snake.set_maxHealth (Snake.maxHealth (snake g2) + 6) (snake g2) in
    let s2 := Snake.set_health
                (Qmin (Snake.maxHealth s1) (Snake.health s1 + 18)) s1 in
    set_snake (Snake.addShield 18 s2) g2
  else g.

(** Lines 909-914 of [Game.gainScore]: score, experience and combo. *)
Definition Game_award (points : Q) (g : Game.t) : Game.t :=
  let value := inject_Z (Math_round (points * combo g)) in
  let c := clamp (combo g + (5#100)) 1 6 in
  set_comboTier (Z.max (comboTier g) (Math_floor c))
    (set_combo c
       (set_comboTimer 4
          (set_xp (xp g + points) (set_score (score g + value) g)))).

(** [Game.gainScore(points)] *)
Definition Game_gainScore (points : Q) (g : Game.t) : Game.t :=
  Game_levelUp (Game_award points g).

(** [Game.explodeEnemy(enemy, isMine = false)] *)
Definition Game_explodeEnemy (e : Enemy.t) (isMine : bool) (g : Game.t) : Game.t :=
  let big := Enemy.isBoss e in
  let g1 := ParticleSystem_burst (Enemy.x e) (Enemy.y e)
              (if big then 60 else 22) (Enemy.color e) 220
              (if big then 5 else 3) g in
  let g2 := Game_gainScore (Enemy.scoreValue e) g1 in
  let g3 := set_snake (Snake.grow (if big then 4 else 1) (snake g2)) g2 in
  let g4 := if EnemyType_eqb (Enemy.type e) runner
            then MissionSystem_onEvent runnerKills 1 g3 else g3 in
  if isMine then MissionSystem_onEvent mineKills 1 g4 else g4.

(** *** Collisions *)

Definition headX (g : Game.t) : Q := Vec.x (Snake.head (snake g)).
Definition headY (g : Game.t) : Q := Vec.y (Snake.head (snake g)).

(** Lines 946-962: the body of the pickup loop. *)
Definition collectCore (c : Core.t) (g : Game.t) : Core.t * Game.t :=
  if Qltb (distance (Core.x c) (Core.y c) (headX g) (headY g)) 18 then
    let g1 :=
      match Core.kind c with
      | Some energy => Game_gainScore (Core.value c) g
      | Some healthCore =>
          Game_gainScore (Core.value c + 10)
            (set_snake (Snake.heal 15 (snake g)) g)
      | _ =>
          Game_gainScore (Core.value c + 5)
            (set_snake (Snake.addShield 20 (snake g)) g)
      end in
    (Core.collect c,
     ParticleSystem_burst (Core.x c) (Core.y c) 18 "#9bf7ff" 140 3
       (MissionSystem_onEvent coreCollect 1 g1))
  else (c, g).

(** Lines 967-976: the first live enemy a projectile overlaps takes its
    damage; the enemies after the hit, and the enemy that was struck. *)
Fixpoint strike (p : Projectile.t) (es : list Enemy.t)
  : option (list Enemy.t * Enemy.t) :=
  match es with
  | [] => None
  | e :: es' =>
      if Enemy.alive e
         && Qltb (distance (Projectile.x p) (Projectile.y p) (Enemy.x e) (Enemy.y e))
                 (Projectile.radius p + Enemy.radius e)
      then Some (Enemy.takeDamage (Projectile.damage p) e :: es',
                 Enemy.takeDamage (Projectile.damage p) e)
      else match strike p es' with
           | None => None
           | Some r => Some (e :: fst r, snd r)
           end
  end.

(** Lines 965-977: the body of the player-projectile loop. *)
Definition projectileHit (p : Projectile.t) (g : Game.t) : Projectile.t * Game.t :=
  if negb (Projectile.alive p) then (p, g)
  else match strike p (enemies g) with
       | None => (p, g)
       | Some r =>
           let g1 := ParticleSystem_burst (Projectile.x p) (Projectile.y p) 6
                       "#8fffff" 90 2 (set_enemies (fst r) g) in
           (Projectile.kill p,
            if Enemy.alive (snd r) then g1 else Game_explodeEnemy (snd r) false g1)
       end.

(** Line 983: does some live enemy overlap the mine? *)
Definition mineTriggered (m : Mine.t) (es : list Enemy.t) : bool :=
  existsb (fun e =>
             Enemy.alive e
             && Qltb (distance (Mine.x m) (Mine.y m) (Enemy.x e) (Enemy.y e))
                     (Mine.radius m + Enemy.radius e + 3)) es.

(** Lines 986-993: the body of the blast loop. *)
Definition blast (m : Mine.t) (target : Enemy.t) (g : Game.t) : Enemy.t * Game.t :=
  if negb (Enemy.alive target) then (target, g)
  else
    let d := distance (Mine.x m) (Mine.y m) (Enemy.x target) (Enemy.y target) in
    if Qltb d (90 + Enemy.radius target) then
      let t' := Enemy.takeDamage (65 - d * (35#100)) target in
      (t', if Enemy.alive t' then g else Game_explodeEnemy t' true g)
    else (target, g).

(** Lines 979-997: the body of the mine loop. *)
Definition mineStep (m : Mine.t) (g : Game.t) : Mine.t * Game.t :=
  if negb (Mine.alive m) || Qgtb (Mine.armTime m) 0 then (m, g)
  else if mineTriggered m (enemies g) then
    let g1 := ParticleSystem_burst (Mine.x m) (Mine.y m) 32 "#ffaf8f" 230 4 g in
    let r := forEach (blast m) (enemies g1) g1 in
    (Mine.kill m, set_enemies (fst r) (snd r))
  else (m, g).

(** Lines 1004-1007 and 1020-1023: what a landed hit does to the match. *)
Definition onPlayerHit (shake : Q) (g : Game.t) : Game.t :=
  set_cameraShake shake
    (set_comboTimer 0 (set_combo 1 (set_tookDamageThisLevel true g))).

(** Lines 999-1012: the body of the contact loop. *)
Definition contact (dt : Q) (g : Game.t) (e : Enemy.t) : Game.t :=
  if Enemy.alive e
     && Qltb (distance (Enemy.x e) (Enemy.y e) (headX g) (headY g))
             (Enemy.radius e + 11)
  then
    let r := Snake.applyDamage (Enemy.contactDamage e * dt * (35#10)) (snake g) in
    let g1 := set_snake (snd r) g in
    if Qgtb (fst r) 0 then
      ParticleSystem_burst (headX g1) (headY g1) 14 "#ff8094" 180 3
        (onPlayerHit 7 g1)
    else g1
  else g.

(** Lines 1014-1026: the body of the enemy-projectile loop. *)
Definition enemyProjectileHit (p : Projectile.t) (g : Game.t)
  : Projectile.t * Game.t :=
  if Projectile.alive p
     && Qltb (distance (Projectile.x p) (Projectile.y p) (headX g) (headY g))
             (Projectile.radius p + 10)
  then
    let r := Snake.applyDamage (Projectile.damage p) (snake g) in
    let g1 := set_snake (snd r) g in
    (Projectile.kill p, if Qgtb (fst r) 0 then onPlayerHit 5 g1 else g1)
  else (p, g).

Definition pickupPass (g : Game.t) : Game.t :=
  let r := forEach collectCore (cores g) g in
  set_cores (filter (fun c => negb (Core.collected c)) (fst r)) (snd r).

Definition projectilePass (g : Game.t) : Game.t :=
  let r := forEach projectileHit (projectiles g) g in
  set_projectiles (fst r) (snd r).

Definition minePass (g : Game.t) : Game.t :=
  let r := forEach mineStep (mines g) g in
  set_mines (fst r) (snd r).

Definition contactPass (dt : Q) (g : Game.t) : Game.t :=
  fold_left (contact dt) (enemies g) g.

Definition enemyProjectilePass (g : Game.t) : Game.t :=
  let r := forEach enemyProjectileHit (enemyProjectiles g) g in
  set_enemyProjectiles (fst r) (snd r).

(** Lines 1028-1031: only what is still alive is retained. *)
Definition sweep (g : Game.t) : Game.t :=
  set_enemies (filter Enemy.alive (enemies g))
    (set_mines (filter Mine.alive (mines g))
       (set_enemyProjectiles (filter Projectile.alive (enemyProjectiles g))
          (set_projectiles (filter Projectile.alive (projectiles g)) g))).

(** [Game.handleCollisions(dt)] *)
Definition Game_handleCollisions (dt : Q) (g : Game.t) : Game.t :=
  sweep
    (enemyProjectilePass
       (contactPass dt (minePass (projectilePass (pickupPass g))))).

(** *** The tick *)

(** Line 1040: [slowFactor], read before the player's own update. *)
Definition slowFactor (g : Game.t) : Q :=
  if Qgtb (Snake.temporalTime (snake g)) 0 then (5#10) else 1.

(** Lines 1043-1051: the clocks, and the relaxation of the combo. *)
Definition Game_clocks (dt scaledDt : Q) (g : Game.t) : Game.t :=
  let g1 :=
    set_comboTimer (comboTimer g - dt)
      (set_coreSpawnTimer (coreSpawnTimer g - scaledDt)
         (set_spawnTimer (spawnTimer g - scaledDt)
            (set_bgTime (bgTime g + dt)
               (set_waveTime (waveTime g + scaledDt) g)))) in
  if Qleb (comboTimer g1) 0 then set_combo (lerp (combo g1) 1 (8#100)) g1 else g1.

(** Lines 1055-1060: the enemy spawn director. *)
Definition Game_spawnWave (g : Game.t) : Game.t :=
  if Qleb (spawnTimer g) 0 then
    let base := clamp ((22#10) - inject_Z (level g) * (8#100)) (45#100) (22#10) in
    let g1 := set_rng (rng g + 1)
                (set_spawnTimer (base * randRange (75#100) (125#100) (rng g)) g) in
    let amount := if (level g1 >=? 6)%Z then 2%nat else 1%nat in
    repeatN amount Game_spawnEnemy g1
  else g.

(** Lines 1062-1065: the pickup spawn director. *)
Definition Game_spawnPickup (g : Game.t) : Game.t :=
  if Qleb (coreSpawnTimer g) 0 && (List.length (cores g) <? 9)%nat then
    Game_spawnCore
      (set_rng (rng g + 1)
         (set_coreSpawnTimer (randRange (12#10) (26#10) (rng g)) g))
  else g.

(** Lines 1067-1071: every entity advances, the hostile ones by
    [scaledDt]. *)
Definition Game_entities (dt scaledDt : Q) (g : Game.t) : Game.t :=
  let g1 := set_cores (map (Core.update dt) (cores g)) g in
  let r := forEach (Enemy_update scaledDt) (enemies g1) g1 in
  let g2 := set_enemies (fst r) (snd r) in
  let g3 := set_projectiles (map (Projectile_update dt) (projectiles g2)) g2 in
  let g4 := set_enemyProjectiles
              (map (Projectile_update scaledDt) (enemyProjectiles g3)) g3 in
  set_mines (map (Mine.update dt) (mines g4)) g4.

(** Lines 1043-1071: everything [Game.update] does before collisions. *)
Definition Game_advance (dt : Q) (g : Game.t) : Game.t :=
  let scaledDt := dt * slowFactor g in
  Game_entities dt scaledDt
    (Game_spawnPickup (Game_spawnWave (Snake_update dt (Game_clocks dt scaledDt g)))).

(** Lines 1075-1088: missions, particles, camera shake, the death check,
    and the end of the input frame. *)
Definition Game_settle (dt : Q) (g : Game.t) : Game.t :=
  let g1 := MissionSystem_update dt g in
  let g2 := set_particles (ParticleSystem_update dt (particles g1)) g1 in
  let g3 := set_cameraShake (Qmax 0 (cameraShake g2 - 16 * dt)) g2 in
  let g4 := if Qleb (Snake.health (snake g3)) 0 then set_state gameover g3 else g3 in
  set_input (InputManager.endFrame (input g4)) g4.

(** [Game.update(dt)] *)
Definition Game_update (dt : Q) (g : Game.t) : Game.t :=
  if negb (GameState_eqb (state g) running)
  then set_input (InputManager.endFrame (input g)) g
  else Game_settle dt (Game_handleCollisions dt (Game_advance dt g)).

(** [Game.draw()], as far as the match state goes: it paints, and while
    the camera shakes it takes two random values for the offset of the
    picture. *)
Definition Game_draw (g : Game.t) : Game.t :=
  if Qgtb (cameraShake g) 0 then set_rng (rng g + 2)%nat g else g.

(** [Game.frame(now)] *)
Definition Game_frame (now : Q) (g : Game.t) : Game.t :=
  let dt := clamp ((now - lastTime g) / 1000) 0 (5#100) in
  Game_draw (Game_update dt (set_lastTime now g)).

(** *** The match life cycle *)

(** [Game.reset()] *)
Definition Game_reset (g : Game.t) : Game.t :=
  let g1 :=
    Game.mk (input g) [] (missions g) (state g)
      (Snake.new (WORLD_width * (5#10)) (WORLD_height * (5#10)))
      [] [] [] [] []
      0 1%Z 0 1 0 1%Z 0 0 (16#10) (bgTime g) false
      (cameraShake g) (lastTime g) (rng g) in
  MissionSystem_startLevel (level g1) g1.

(** [Game.startGame()] *)
Definition Game_startGame (g : Game.t) : Game.t :=
  set_state running (Game_reset g).

(** The pause button and the [p] key. *)
Definition Game_togglePause (g : Game.t) : Game.t :=
  match state g with
  | running => set_state paused g
  | paused => set_state running g
  | _ => g
  end.

(** The two [keydown] listeners, for an event that is not a repeat; [k] is
    [e.key].  (A repeat only reaches the second listener, where it is
    [Game_togglePause] for the key [p] and nothing otherwise.) *)
Definition Game_keydown (k : string) (g : Game.t) : Game.t :=
  let g1 := set_input (InputManager.keydown k (input g)) g in
  if String.eqb (InputManager.toLowerCase k) "p" then Game_togglePause g1 else g1.

(** The [keyup] listener. *)
Definition Game_keyup (k : string) (g : Game.t) : Game.t :=
  set_input (InputManager.keyup k (input g)) g.

(** [new Game()]: the field initialisers, then [reset()].  The star field
    takes the first 720 random values; [now] is [performance.now()]; the
    snake is [null] until [reset()] builds it, so the one given here is
    never read. *)
Definition Game_new (now : Q) : Game.t :=
  Game_reset
    (Game.mk (InputManager.mk [] []) [] [] menu
       (Snake.new 0 0) [] [] [] [] []
       0 1%Z 0 1 0 1%Z 0 0 0 0 false 0 now 720%nat).

(** The states a session can be in: the constructor's, and whatever the
    listeners and the animation frames lead to from there. *)
Inductive reachable : Game.t -> Prop :=
| reach_new : forall now, reachable (Game_new now)
| reach_start : forall g, reachable g -> reachable (Game_startGame g)
| reach_pause : forall g, reachable g -> reachable (Game_togglePause g)
| reach_keydown : forall k g, reachable g -> reachable (Game_keydown k g)
| reach_keyup : forall k g, reachable g -> reachable (Game_keyup k g)
| reach_frame : forall now g, reachable g -> reachable (Game_frame now g).

End Engine.

(* ------------------------------------------------------------------ *)
(** ** A host to run the model on *)

(** A 960 by 540 canvas, and rational stand-ins for the transcendental
    functions, good enough to run the model on concrete states: a square
    root by integer square root at six decimals, and short series for the
    others.  No theorem about the engine depends on them; they only serve
    to evaluate it. *)
Module RationalHost.

Definition sqrtQ (q : Q) : Q :=
  (Z.sqrt (Qnum q * Z.pos (Qden q) * 1000000000000) # (Qden q * 1000000))%Q.

Definition hypot (x y : Q) : Q := Qred (sqrtQ (Qred (x * x + y * y))).

Definition exp (x : Q) : Q :=
  Qred (1 + x + x * x / 2 + x * x * x / 6 + x * x * x * x / 24).

Definition cos (x : Q) : Q :=
  Qred (1 - x * x / 2 + x * x * x * x / 24).

Definition sin (x : Q) : Q :=
  Qred (x - x * x * x / 6 + x * x * x * x * x / 120).

Definition PI : Q := 355 # 113.

Definition atan (t : Q) : Q := Qred (t - t * t * t / 3 + t * t * t * t * t / 5).

Definition atan2 (y x : Q) : Q :=
  if Qeq_bool x 0 then
    if Qltb y 0 then - (PI / 2) else if Qeq_bool y 0 then 0 else PI / 2
  else if Qltb 0 x then atan (y / x)
  else if Qltb y 0 then atan (y / x) - PI else atan (y / x) + PI.

(** A fixed sequence in [[0, 1)]: the hundredths [37 n + 11 mod 100]. *)
Definition random (n : nat) : Q :=
  Z.of_nat ((37 * n + 11) mod 100) # 100.

(** The sort reverses the array and draws nothing. *)
Definition sort (A : Type) (n : nat) (l : list A) : list A * nat := (rev l, n).

Lemma random_range : forall n, 0 <= random n /\ random n < 1.
Proof.
  intro n. unfold random, Qle, Qlt. cbn [Qnum Qden].
  pose proof (Nat.mod_upper_bound (37 * n + 11) 100 ltac:(discriminate)) as B.
  set (r := ((37 * n + 11) mod 100)%nat) in *. lia.
Qed.

Lemma sort_perm : forall (A : Type) n (l : list A),
    Permutation l (fst (sort n l)).
Proof. intros. apply Permutation_rev. Qed.

Definition host : Host :=
  Build_Host 960 540 hypot exp cos sin atan2 PI random sort
    random_range sort_perm.

End RationalHost.

(* ------------------------------------------------------------------ *)
(** ** The vocabulary of the properties *)

Section Vocabulary.
Context {host : Host}.

Definition bossCount (es : list Enemy.t) : nat :=
  List.length (filter Enemy.isBoss es).

(** What the invariant says of the enemies: none heals on contact, and at
    most one is a boss. *)
Definition EnemiesOk (es : list Enemy.t) : Prop :=
  Forall (fun e => 0 <= Enemy.contactDamage e) es /\ (bossCount es <= 1)%nat.

Definition HostileOk (ps : list Projectile.t) : Prop :=
  Forall (fun p => 0 <= Projectile.damage p) ps.

(** What the invariant says of a mission of type [comboPeak]. *)
Definition comboPeakOk (m : Mission.t) : Prop :=
  Mission.type m = comboPeak ->
  Mission.target m = 10 /\ Mission.progress m <= 6 /\ Mission.timer m = None /\
  Mission.done m = false /\ Mission.failed m = false.

Record Safe (g : Game.t) : Prop := {
  safe_level : (1 <= level g)%Z;
  safe_maxHealth : 0 <= Snake.maxHealth (snake g);
  safe_health : Snake.health (snake g) <= Snake.maxHealth (snake g);
  safe_shield : 0 <= Snake.shield (snake g) /\ Snake.shield (snake g) <= 120;
  safe_combo : 1 <= combo g /\ combo g <= 6;
  safe_tier : (1 <= comboTier g <= 6)%Z;
  safe_floor : (Math_floor (combo g) <= comboTier g)%Z;
  safe_enemies : EnemiesOk (enemies g);
  safe_hostile : HostileOk (enemyProjectiles g);
  safe_missions : Forall comboPeakOk (missions g) }.

(** Two states that agree on everything the invariant reads. *)
Definition sameCore (g g' : Game.t) : Prop :=
  level g' = level g /\
  Snake.maxHealth (snake g') = Snake.maxHealth (snake g) /\
  Snake.health (snake g') = Snake.health (snake g) /\
  Snake.shield (snake g') = Snake.shield (snake g) /\
  combo g' = combo g /\ comboTier g' = comboTier g /\
  comboTimer g' = comboTimer g /\
  tookDamageThisLevel g' = tookDamageThisLevel g /\
  enemies g' = enemies g /\ enemyProjectiles g' = enemyProjectiles g /\
  missions g' = missions g.

(** Two snakes with the same resources. *)
Definition sameResources (s s' : Snake.t) : Prop :=
  Snake.maxHealth s' = Snake.maxHealth s /\
  Snake.health s' = Snake.health s /\
  Snake.shield s' = Snake.shield s.

(** What never changes in an enemy after its construction, as far as the
    invariant is concerned. *)
Definition stats (e : Enemy.t) : EnemyType * Q :=
  (Enemy.type e, Enemy.contactDamage e).

(** The invariant, with the combo and its tier above given marks, and
    the tier above its mark only as far as the floor of the combo is:
    what every step before the damage passes preserves. *)
Definition Pre (c : Q) (t : Z) (g : Game.t) : Prop :=
  Safe g /\ c <= combo g /\ (t <= comboTier g)%Z /\
  (comboTier g <= Z.max t (Math_floor (combo g)))%Z.

(** A landed hit, as it shows in the match state. *)
Definition Hit (g : Game.t) : Prop :=
  combo g = 1 /\ tookDamageThisLevel g = true /\ comboTimer g = 0.

(** The same once damage may have landed: the combo is above its mark, or
    it was reset by a hit. *)
Definition Post (c : Q) (t : Z) (g : Game.t) : Prop :=
  Safe g /\ (t <= comboTier g)%Z /\ (c <= combo g \/ Hit g).

(** The match as the scoring passes of [handleCollisions] leave it (the
    pickups, the player's projectiles, the mines), which is where its
    damage passes (contact, hostile projectiles) start. *)
Definition beforeDamage (dt : Q) (g : Game.t) : Game.t :=
  minePass (projectilePass (pickupPass (Game_advance dt g))).

(** Has the player less health or less shield in [g'] than in [g]? *)
Definition harmed (g g' : Game.t) : Prop :=
  Snake.health (snake g') < Snake.health (snake g) \/
  Snake.shield (snake g') < Snake.shield (snake g).

(** Has the player the health and the shield of [g] in [g'], and has the
    match the combo, the decay timer and the damage flag of [g]? *)
Definition spared (g g' : Game.t) : Prop :=
  Snake.health (snake g') == Snake.health (snake g) /\
  Snake.shield (snake g') == Snake.shield (snake g) /\
  combo g' = combo g /\ comboTimer g' = comboTimer g /\
  tookDamageThisLevel g' = tookDamageThisLevel g.

(** What the damage passes keep, from the state [m] they start in: the
    combo tier stays, health and shield do not go up, and either nothing
    has landed yet or the player is harmed and the hit shows. *)
Definition Damage (m g : Game.t) : Prop :=
  comboTier g = comboTier m /\
  Snake.health (snake g) <= Snake.health (snake m) /\
  Snake.shield (snake g) <= Snake.shield (snake m) /\
  (spared m g \/ (harmed m g /\ Hit g)).

(** The bounds of the resource model that every operation keeps. *)
Definition resourcesOk (s : Snake.t) : Prop :=
  0 <= Snake.maxHealth s /\ Snake.health s <= Snake.maxHealth s /\
  0 <= Snake.shield s /\ Snake.shield s <= 120.

(** Between ticks the player is alive unless the match is over, and the
    enemy list holds live enemies only. *)
Definition Settled (g : Game.t) : Prop :=
  (state g <> gameover -> 0 < Snake.health (snake g)) /\
  Forall (fun e => Enemy.alive e = true) (enemies g).

(** The bounds as the specification states them. *)
Definition ClaimedBounds (g : Game.t) : Prop :=
  (0 <= Snake.health (snake g) /\
   Snake.health (snake g) <= Snake.maxHealth (snake g)) /\
  (0 <= Snake.shield (snake g) /\ Snake.shield (snake g) <= 120).

(** The bounds the engine keeps: the shield is clamped on every path,
    health is capped above, and health is positive as long as the match
    is not over; the hit that ends the match leaves it at or below zero. *)
Definition PlayerBounds (g : Game.t) : Prop :=
  Snake.health (snake g) <= Snake.maxHealth (snake g) /\
  (0 <= Snake.shield (snake g) /\ Snake.shield (snake g) <= 120) /\
  (state g <> gameover -> 0 < Snake.health (snake g)).

(** What the combo is after line 1049-1051 of a tick that lasts [dt]:
    itself, or one relaxation step towards 1 once the decay timer has run
    out. *)
Definition relaxed (dt : Q) (g : Game.t) : Q :=
  if Qleb (comboTimer g - dt) 0 then lerp (combo g) 1 (8#100) else combo g.

(** Is the enemy alive and within the blast radius of the mine? *)
Definition inBlast (m : Mine.t) (e : Enemy.t) : bool :=
  Enemy.alive e
  && Qltb (distance (Mine.x m) (Mine.y m) (Enemy.x e) (Enemy.y e))
          (90 + Enemy.radius e).



(** The sum of the rewards of the missions that are done. *)
Fixpoint sumRewards (ms : list Mission.t) : Q :=
  match ms with
  | [] => 0
  | m :: ms' => if Mission.done m then Mission.reward m + sumRewards ms'
                else sumRewards ms'
  end.

(** The clocks of the world, which only [Game_clocks] and the spawn
    directors write. *)
Definition sameWorld (g g' : Game.t) : Prop :=
  waveTime g' = waveTime g /\ spawnTimer g' = spawnTimer g /\
  coreSpawnTimer g' = coreSpawnTimer g.

(** The player and their own ordnance, which hostile steps never write. *)
Definition sameOwn (g g' : Game.t) : Prop :=
  snake g' = snake g /\ projectiles g' = projectiles g /\ mines g' = mines g.

(** The state the entity loops start from: after the clocks, the
    player's update and the two spawn directors. *)
Definition beforeEntities (dt : Q) (g : Game.t) : Game.t :=
  Game_spawnPickup
    (Game_spawnWave (Snake_update dt (Game_clocks dt (dt * slowFactor g) g))).

End Vocabulary.

(* ------------------------------------------------------------------ *)
(** ** Concrete states *)

Section States.
#[local] Existing Instance RationalHost.host.

(** A match that was just started. *)
Definition fresh : Game.t := Game_startGame (Game_new 0).

(** The player down to 5 health, with a sniper's projectile about to hit. *)
Definition wounded : Game.t :=
  set_enemyProjectiles
    [Projectile.new 485 270 (-250) 0 12 "#f4a2ff" 4 (26#10)]
    (set_snake (Snake.set_health 5 (snake fresh)) fresh).

(** A snake with 10 shield, and the same snake still invulnerable. *)
Definition shielded : Snake.t := Snake.set_shield 10 (Snake.new 0 0).

Definition flashing : Snake.t := Snake.set_invulnTimer (1#10) shielded.



(** 600 experience at level 1, where 620 are needed. *)
Definition nearLevelUp : Game.t := set_xp 600 fresh.

(** A burst in its last hundredth of a second, and one with a second to
    go. *)
Definition burstEnding : Game.t :=
  set_snake (Snake.set_temporalTime (1#100) (snake fresh)) fresh.

Definition bursting : Game.t :=
  set_snake (Snake.set_temporalTime 1 (snake fresh)) fresh.

(** The burst key pressed in a fresh match. *)
Definition triggering : Game.t :=
  set_input (InputManager.mk ["e"%string] ["e"%string]) fresh.

(** Level 4, with no enemy on the field. *)
Definition bossLevel : Game.t := set_level 4 fresh.

(** A no-damage mission a hundredth of a second before its timer runs
    out, in a match without damage so far. *)
Definition almostThere : Mission.t :=
  Mission.mk "no_hit" "No damage for 30s" 30 secondsNoHit (2999#100)
    false false (Some (1#100)) (Some 30) 180.

Definition untouched : Game.t := set_missions [almostThere] fresh.

End States.

(* ------------------------------------------------------------------ *)
(** ** The vocabulary of the further properties *)

Section FurtherVocabulary.
Context {host : Host}.

(** Does the projectile overlap the enemy, and is the enemy alive?  The
    test of line 969. *)
Definition overlaps (p : Projectile.t) (e : Enemy.t) : bool :=
  Enemy.alive e
  && Qltb (distance (Projectile.x p) (Projectile.y p) (Enemy.x e) (Enemy.y e))
          (Projectile.radius p + Enemy.radius e).

(** A mine after a run of updates, one per delta. *)
Definition elapse (dts : list Q) (m : Mine.t) : Mine.t :=
  fold_left (fun m dt => Mine.update dt m) dts m.

(** The time a run of updates spans. *)
Definition total (dts : list Q) : Q := fold_right Qplus 0 dts.

(** Is every character of the key name in the ASCII range, where
    [InputManager.toLowerCase] is [String.prototype.toLowerCase]? *)
Definition asciiKey (k : string) : bool :=
  forallb (fun c => (nat_of_ascii c <? 128)%nat) (list_ascii_of_string k).

(** Was the key pressed since the last frame, and not consumed yet? *)
Definition pressed (k : string) (g : Game.t) : bool :=
  InputManager.has k (InputManager.justPressed (input g)).

(** Was one of the three names of the space bar? *)
Definition firePressed (g : Game.t) : bool :=
  pressed " " g || pressed "space" g || pressed "spacebar" g.

(** What the ability steps of the player's update leave alone: the
    ordnance on the field, where the player is and faces, and the keys
    that are held. *)
Definition sameStance (g g' : Game.t) : Prop :=
  Snake.head (snake g') = Snake.head (snake g) /\
  Snake.dir (snake g') = Snake.dir (snake g) /\
  InputManager.keys (input g') = InputManager.keys (input g).

(** What no step of the collision handling writes: the input, the state
    of the match, the clocks, and where the player is. *)
Definition sameStage (g g' : Game.t) : Prop :=
  input g' = input g /\ state g' = state g /\ lastTime g' = lastTime g /\
  bgTime g' = bgTime g /\ waveTime g' = waveTime g /\
  spawnTimer g' = spawnTimer g /\ coreSpawnTimer g' = coreSpawnTimer g /\
  Snake.head (snake g') = Snake.head (snake g).

(** What neither the spawn directors nor the entity updates write. *)
Definition sameSession (g g' : Game.t) : Prop :=
  input g' = input g /\ state g' = state g /\ lastTime g' = lastTime g /\
  bgTime g' = bgTime g.

(** What the player's update leaves alone besides. *)
Definition sameClock (g g' : Game.t) : Prop :=
  state g' = state g /\ lastTime g' = lastTime g /\ bgTime g' = bgTime g.

(** What holds of every enemy on the field: it has the radius and the
    score value of its archetype, no more health than its maximum, and
    positive health as long as it is alive. *)
Definition EnemyOk (e : Enemy.t) : Prop :=
  Enemy.radius e = Enemy.radius0 (Enemy.type e) /\
  Enemy.scoreValue e = Enemy.scoreValue0 (Enemy.type e) /\
  Enemy.health e <= Enemy.maxHealth e /\
  (Enemy.alive e = true -> 0 < Enemy.health e).

(** What holds of every pickup on the field. *)
Definition CoreOk (c : Core.t) : Prop :=
  Core.value c = 25 /\ Core.radius c = 8 /\ Core.collected c = false /\
  Core.kind c <> None.

(** What holds of every projectile of the player. *)
Definition ShotOk (p : Projectile.t) : Prop :=
  Projectile.damage p = 12 /\ Projectile.radius p = 4.

Definition isInt (q : Q) : Prop := exists k : Z, q == inject_Z k.

(** The missions that only events move. *)
Definition eventDriven (ty : MissionType) : Prop :=
  ty <> secondsNoHit /\ ty <> comboPeak.

(** What holds of every mission that was drawn: the reward is 180,
    progress is between 0 and the target and short of it until the
    mission is done, and a mission that counts events counts in whole
    steps towards a whole target. *)
Definition MissionOk (m : Mission.t) : Prop :=
  Mission.reward m = 180 /\
  0 <= Mission.progress m /\ Mission.progress m <= Mission.target m /\
  (Mission.done m = false -> Mission.progress m < Mission.target m) /\
  (Mission.type m = comboPeak -> Mission.target m = 10) /\
  (eventDriven (Mission.type m) ->
   isInt (Mission.progress m) /\ isInt (Mission.target m)).

(** The bookkeeping invariant of the match state. *)
Record Sound (g : Game.t) : Prop := {
  sound_enemies : Forall EnemyOk (enemies g);
  sound_shots : Forall ShotOk (projectiles g);
  sound_cores : Forall CoreOk (cores g);
  sound_cap : (List.length (cores g) <= 9)%nat;
  sound_missions : Forall MissionOk (missions g);
  sound_drawn : (List.length (missions g) <= 3)%nat;
  sound_xp : 0 <= xp g;
  sound_score : 0 <= score g;
  sound_level : (1 <= level g)%Z;
  sound_combo : 1 <= combo g;
  sound_tier : (comboTier g <= 6)%Z }.

(** What a match only ever gains: [g] has at least the score, the level,
    the maximal health and the length of [m]; and as long as the score is
    that of [m], so is the combo tier. *)
Definition Grown (m g : Game.t) : Prop :=
  score m <= score g /\ (level m <= level g)%Z /\
  Snake.maxHealth (snake m) <= Snake.maxHealth (snake g) /\
  (Snake.length (snake m) <= Snake.length (snake g))%Z /\
  (score g == score m -> comboTier g = comboTier m).

(** The invariant, with a state to compare the gains against. *)
Definition Ledger (m g : Game.t) : Prop := Sound g /\ Grown m g.

(** Two states that agree on everything the bookkeeping reads. *)
Definition sameLedger (g g' : Game.t) : Prop :=
  enemies g' = enemies g /\ projectiles g' = projectiles g /\
  cores g' = cores g /\ missions g' = missions g /\
  xp g' = xp g /\ score g' = score g /\ level g' = level g /\
  combo g' = combo g /\ comboTier g' = comboTier g /\
  Snake.maxHealth (snake g') = Snake.maxHealth (snake g) /\
  Snake.length (snake g') = Snake.length (snake g).

End FurtherVocabulary.

(* ------------------------------------------------------------------ *)
(** ** Further concrete states *)

Section FurtherStates.
#[local] Existing Instance RationalHost.host.

(** The fresh match one frame later: the spawn timer has run out, and the
    first enemy is on the field. *)
Definition opened : Game.t := Game_frame 16 fresh.

Definition firstEnemy : Enemy.t :=
  nth 0 (enemies opened) (Enemy.new runner 0 0 1 1).

(** An armed mine right under the first enemy. *)
Definition mineOnIt : Mine.t :=
  Mine.mk (Enemy.x firstEnemy) (Enemy.y firstEnemy) 10 0 5 true.

(** Two pickups, one under the head and one far from it. *)
Definition pickups : Game.t :=
  set_cores [Core.new 480 270 0 0; Core.new 100 100 0 1] fresh.


(** The pickup timer run out in a fresh match. *)
Definition pickupDue : Game.t := set_coreSpawnTimer 0 fresh.

(** A runner in the top left corner, partly outside the world. *)
Definition cornered : Enemy.t := Enemy.new runner 5 5 1 1.

(** A player at 90 health with 110 shield. *)
Definition bruised : Snake.t :=
  Snake.set_shield 110 (Snake.set_health 90 (Snake.new 0 0)).

(** The two missions a level draws on this host, with the combo mission
    at the progress the given tier brings it to. *)
Definition drawn (tier : Z) : list Mission.t :=
  [Mission.mk "combo" "Reach combo x10" 10 comboPeak (inject_Z tier)
     false false None None 180;
   Mission.new "mine_kill" "Destroy enemies with mines" 5 mineKills None].

(** The player of a match in progress, at (300, 200) and heading right,
    with the given maximal health, health and shield, grown by the given
    number of kills, having never dashed or slowed time in the given
    seconds of play, with the given timers of invulnerability, primary
    fire and mines. *)
Definition roaming (maxHp hp sh : Q) (kills : Z) (secs invuln primary mineCd : Q)
  : Snake.t :=
  Snake.mk (Vec.mk 300 200) 170 (170 + inject_Z kills * (35#100)) (65#10)
    (Vec.mk 1 0) (Vec.mk 1 0) maxHp hp sh invuln
    (- secs) 0 (- secs) 0 primary mineCd (18 + kills)%Z.

(** Three enemies that do not reach the player for now: a sniper 220
    away with its weapon reloading, a tank far away, and a runner 80
    behind. *)
Definition pack : list Enemy.t :=
  [Enemy_setMotion (-3) 0 (7#10) (Enemy.new sniper 520 200 1 1);
   Enemy_setMotion 32 (-49) 1 (Enemy.new tank 100 500 1 1);
   Enemy_setMotion 147 0 1 (Enemy.new runner 220 200 1 1)].

(** Some of the trail behind the player. *)
Definition wake : list Particle.t :=
  [Particle.mk 264 201 (-8) 6 (5#100) (25#100) "#6cefff" (15#10);
   Particle.mk 283 200 5 (-3) (1#10) (2#10) "#6cefff" 2].

(** A running match with those missions, enemies and particles, the key
    [d] held, and the enemy spawn director a second from its next spawn,
    given by what the scenarios below vary: the level, the player, the
    ordnance and the pickups on the field, the score, the experience,
    the combo with its decay timer and its tier, the pickup timer, the
    damage flag, and the seconds played so far. *)
Definition scene (lvl : Z) (sn : Snake.t) (shots hostile : list Projectile.t)
    (cs : list Core.t) (ms : list Mine.t) (sc ex cb ct : Q) (tier : Z)
    (pickupTimer : Q) (took : bool) (secs : Q) : Game.t :=
  Game.mk (InputManager.mk ["d"%string] []) wake (drawn tier) running sn
    shots hostile pack cs ms sc lvl ex cb ct tier
    secs 1 pickupTimer secs took 0 (secs * 1000)
    (720 + Z.to_nat (Math_floor (secs * 250)))%nat.

(** Pickups along the bottom of the world, out of the player's reach. *)
Definition row (n : nat) : list Core.t :=
  map (fun k => Core.new (60 + 90 * inject_Z (Z.of_nat k)) 450 3
                  (Z.of_nat k mod 3))
      (seq 0 n).

(** A pickup 19 ahead of the player, who gets within 18 of it in the
    next frame. *)
Definition ahead : Core.t := Core.new 319 200 3 0.

(** A hostile projectile 18 ahead of the player, flying towards them,
    and one in flight away from them. *)
Definition incoming : Projectile.t :=
  Projectile.new 318 200 (-250) 0 12 "#f4a2ff" 4 2.

Definition stray : Projectile.t :=
  Projectile.new 700 400 120 220 12 "#f4a2ff" 4 1.

(** A projectile of the player in flight, away from every enemy. *)
Definition volley : Projectile.t :=
  Projectile.new 470 300 360 0 12 "#87faff" 4 (102#100).

(** Level 1, six and a half seconds in, nothing fired, nothing killed
    and no damage taken: one energy pickup was absorbed four seconds
    ago, for 25 points at a combo of 1, and the decay timer of the
    combo, now 1.05, is about to run out. *)
Definition decaying : Game.t :=
  scene 1 (roaming 100 100 0 0 (649#100) (-649#100) (-649#100) (-649#100))
    [] [] (row 2) []
    25 25 (105#100) (1#100) 1 1 false (649#100).


(** Level 2, fifty seconds in: a streak of nineteen scoring events has
    brought the combo to 1.95, with the tier still at 1, and a pickup is
    within reach. *)
Definition rising : Game.t :=
  scene 2 (roaming 106 106 18 21 50 (-50) (-132#100) (-50))
    [] [] [ahead] []
    1500 500 (195#100) 2 1 1 false 50.

(** Level 2, forty-five seconds in, 10 experience short of level 3.  A
    streak of twenty scoring events once brought the combo to 2 and the
    tier to 2; then a hit, ten seconds ago, reset the combo, and four
    more events have brought it to 1.2.  A pickup is within reach. *)
Definition veteran : Game.t :=
  scene 2 (roaming 106 106 6 18 45 (-98#10) (-132#100) (-45))
    [] [] [ahead] []
    1900 780 (12#10) 3 2 1 true 45.

(** Half a minute in, with the pickup timer run out: nine pickups on
    the field and none absorbed yet; and eight, the ninth absorbed in
    the last frame. *)
Definition crowded : Game.t :=
  scene 1 (roaming 100 100 0 0 30 (-30) (-30) (-30)) [] [] (row 9) []
    0 0 1 (-30) 1 (-1#2) false 30.

Definition eight : Game.t :=
  scene 1 (roaming 100 100 0 0 30 (-30) (-30) (-30)) [] [] (row 8) []
    25 25 (105#100) 4 1 (-1#2) false 30.

(** A field where things come to an end within the frame.  Of the
    player's projectiles one is at the end of its life, one is about to
    hit the sniper, one is in flight; of the hostile ones one is about
    to hit the player and one is in flight; of the mines one is at the
    end of its life, one is armed with the tank coming within its
    reach, one was laid half a second ago. *)
Definition cluttered : Game.t :=
  scene 1 (roaming 100 100 0 0 (649#100) (-649#100) (-32#100) (17#10))
    [Projectile.new 836 270 360 0 12 "#87faff" 4 (1#100);
     Projectile.new 500 200 360 0 12 "#87faff" 4 (1#2);
     volley]
    [incoming; stray]
    (row 2)
    [Mine.mk 565 270 10 (-534#100) (1#100) true;
     Mine.mk 117 474 10 (-235#100) 3 true;
     Mine.mk 215 200 10 (15#100) (55#10) true]
    25 25 (105#100) (1#100) 1 1 false (649#100).

End FurtherStates.

(* ------------------------------------------------------------------ *)
(** ** Comparisons and clamping *)

Lemma Qltb_true x y : Qltb x y = true <-> x < y.
Proof.
  unfold Qltb. rewrite negb_true_iff, <- not_true_iff_false, Qle_bool_iff.
  split; [apply Qnot_le_lt | apply Qlt_not_le].
Qed.

Lemma Qltb_false x y : Qltb x y = false <-> y <= x.
Proof. unfold Qltb. rewrite negb_false_iff. apply Qle_bool_iff. Qed.

Lemma Qleb_true x y : Qleb x y = true <-> x <= y.
Proof. apply Qle_bool_iff. Qed.

Lemma Qleb_false x y : Qleb x y = false <-> y < x.
Proof.
  unfold Qleb. rewrite <- not_true_iff_false, Qle_bool_iff.
  split; [apply Qnot_le_lt | apply Qlt_not_le].
Qed.

(** Case analysis on the comparisons of the goal, each case recording the
    order fact it stands for. *)
Ltac qcase :=
  match goal with
  | |- context [Qltb ?x ?y] =>
      let E := fresh "E" in
      destruct (Qltb x y) eqn:E;
      [apply Qltb_true in E | apply Qltb_false in E]
  | |- context [Qleb ?x ?y] =>
      let E := fresh "E" in
      destruct (Qleb x y) eqn:E;
      [apply Qleb_true in E | apply Qleb_false in E]
  end.

Ltac qcases := unfold Qgtb, Qgeb in *; repeat (qcase; cbn [andb orb negb]).

Lemma Qmin_cases x y : (x <= y /\ Qmin x y == x) \/ (y <= x /\ Qmin x y == y).
Proof.
  destruct (Q.min_spec x y) as [[L E] | [L E]]; [left | right]; split;
    try assumption; lra.
Qed.

Lemma Qmax_cases x y : (x <= y /\ Qmax x y == y) \/ (y <= x /\ Qmax x y == x).
Proof.
  destruct (Q.max_spec x y) as [[L E] | [L E]]; [left | right]; split;
    try assumption; lra.
Qed.

(** Replace every [Qmin] and [Qmax] of the goal by a fresh variable with
    its defining case split, so that [lra] can finish. *)
Ltac minmax :=
  unfold clamp in *;
  repeat match goal with
    | |- context [Qmin ?x ?y] =>
        let m := fresh "m" in let Hm := fresh "Hm" in
        destruct (Qmin_cases x y) as [[? Hm] | [? Hm]];
        set (m := Qmin x y) in *; clearbody m
    | |- context [Qmax ?x ?y] =>
        let m := fresh "m" in let Hm := fresh "Hm" in
        destruct (Qmax_cases x y) as [[? Hm] | [? Hm]];
        set (m := Qmax x y) in *; clearbody m
    end.

Lemma clamp_range v lo hi : lo <= hi -> lo <= clamp v lo hi /\ clamp v lo hi <= hi.
Proof. intro L. split; minmax; lra. Qed.

Lemma Qfloor_range (x : Q) (a b : Z) :
  inject_Z a <= x -> x <= inject_Z b -> (a <= Qfloor x <= b)%Z.
Proof.
  intros La Lb. split.
  - rewrite <- (Qfloor_Z a). now apply Qfloor_resp_le.
  - rewrite <- (Qfloor_Z b). now apply Qfloor_resp_le.
Qed.

Section Properties.
Context {host : Host}.

(* ------------------------------------------------------------------ *)
(** ** The resource model: [Snake.applyDamage] *)

Lemma applyDamage_invulnerable a s :
  0 < Snake.invulnTimer s -> Snake.applyDamage a s = (0, s).
Proof.
  intro I. unfold Snake.applyDamage, Qgtb.
  now rewrite (proj2 (Qltb_true _ _) I).
Qed.

Lemma applyDamage_returns a s :
  Snake.invulnTimer s <= 0 -> fst (Snake.applyDamage a s) = a.
Proof.
  intro I. unfold Snake.applyDamage, Qgtb.
  now rewrite (proj2 (Qltb_false _ _) I).
Qed.

(** What a hit that is not negated does to the three resources. *)
Lemma applyDamage_lands a s :
  Snake.invulnTimer s <= 0 -> 0 <= a -> 0 <= Snake.shield s ->
  let s' := snd (Snake.applyDamage a s) in
  Snake.shield s' == Snake.shield s - Qmin (Snake.shield s) a /\
  Snake.health s' == Snake.health s - (a - Qmin (Snake.shield s) a) /\
  Snake.maxHealth s' = Snake.maxHealth s /\
  Snake.invulnTimer s' = (2#10).
Proof.
  intros I A S. unfold Snake.applyDamage, Qgtb.
  rewrite (proj2 (Qltb_false _ _) I).
  destruct (Qltb 0 (Snake.shield s)) eqn:E1;
    [apply Qltb_true in E1 | apply Qltb_false in E1]; cbn;
    qcases; cbn; repeat split; minmax; lra.
Qed.

(* ------------------------------------------------------------------ *)
(** ** Loop invariants *)

Lemma forEach_state (A S : Type) (body : A -> S -> A * S) (P : S -> Prop) :
  (forall a s, P s -> P (snd (body a s))) ->
  forall l s, P s -> P (snd (forEach body l s)).
Proof.
  intros Step l. induction l as [|a l IH]; intros s Hs; cbn; auto.
Qed.

Lemma forEach_elements (A S B : Type) (body : A -> S -> A * S) (proj : A -> B) :
  (forall a s, proj (fst (body a s)) = proj a) ->
  forall l s, map proj (fst (forEach body l s)) = map proj l.
Proof.
  intros Keep l. induction l as [|a l IH]; intros s; cbn; [reflexivity|].
  now rewrite Keep, IH.
Qed.

Lemma repeatN_state (S : Type) (body : S -> S) (P : S -> Prop) :
  (forall s, P s -> P (body s)) ->
  forall n s, P s -> P (repeatN n body s).
Proof.
  intros Step n. induction n as [|n IH]; intros s Hs; cbn; auto.
Qed.

(** Case analysis on every conditional of the goal. *)
Ltac ifs :=
  repeat match goal with
    | |- context [if ?c then _ else _] => destruct c eqn:?
    end.

(* ------------------------------------------------------------------ *)
(** ** The safety invariant of the match state *)

Lemma Safe_sameCore g g' : sameCore g g' -> Safe g -> Safe g'.
Proof.
  intros (E1 & E2 & E3 & E4 & E5 & E6 & _ & _ & E7 & E8 & E9) [].
  split; rewrite ?E1, ?E2, ?E3, ?E4, ?E5, ?E6, ?E7, ?E8, ?E9; assumption.
Qed.

(** Closes [sameCore g (op g)] for an operation that is a chain of setters
    under conditionals. *)
Ltac same := unfold sameCore; ifs; cbn; repeat split; reflexivity.

Lemma sameCore_trans g1 g2 g3 : sameCore g1 g2 -> sameCore g2 g3 -> sameCore g1 g3.
Proof.
  unfold sameCore. intros H1 H2.
  repeat match goal with H : _ /\ _ |- _ => destruct H end.
  repeat split; congruence.
Qed.

Lemma sameResources_trans s1 s2 s3 :
  sameResources s1 s2 -> sameResources s2 s3 -> sameResources s1 s3.
Proof. unfold sameResources. intuition congruence. Qed.

Lemma set_snake_same s g : sameResources (snake g) s -> sameCore g (set_snake s g).
Proof. intros (E1 & E2 & E3). unfold sameCore. cbn. now repeat split. Qed.

Ltac sameRes := unfold sameResources; ifs; cbn; repeat split; reflexivity.

Lemma setAim_resources i s : sameResources s (Snake_setAimFromInput i s).
Proof.
  unfold Snake_setAimFromInput.
  destruct (negb _ || negb _); sameRes.
Qed.

Lemma turn_resources dt s : sameResources s (Snake_turn dt s).
Proof. unfold Snake_turn. sameRes. Qed.

Lemma timers_resources dt s : sameResources s (Snake_timers dt s).
Proof. unfold Snake_timers. sameRes. Qed.

Lemma move_resources dt s : sameResources s (Snake_move dt s).
Proof. unfold Snake_move. sameRes. Qed.

Lemma burst_same x y n c sp sz g : sameCore g (ParticleSystem_burst x y n c sp sz g).
Proof. unfold ParticleSystem_burst. same. Qed.

Lemma trail_same x y c g : sameCore g (ParticleSystem_trail x y c g).
Proof. unfold ParticleSystem_trail. same. Qed.

Lemma dash_same g : sameCore g (Snake_dash g).
Proof. unfold Snake_dash, consumeKey, ParticleSystem_burst. same. Qed.

Lemma temporal_same g : sameCore g (Snake_temporal g).
Proof. unfold Snake_temporal, consumeKey, ParticleSystem_burst. same. Qed.

Lemma mine_same g : sameCore g (Snake_mine g).
Proof. unfold Snake_mine, consumeKey. same. Qed.

Lemma fire_same g : sameCore g (Snake_fire g).
Proof. unfold Snake_fire, consumeKey. same. Qed.

Lemma Snake_update_same dt g : sameCore g (Snake_update dt g).
Proof.
  unfold Snake_update.
  eapply sameCore_trans; [|apply trail_same].
  eapply sameCore_trans; [|apply set_snake_same, move_resources].
  eapply sameCore_trans; [|apply fire_same].
  eapply sameCore_trans; [|apply mine_same].
  eapply sameCore_trans; [|apply temporal_same].
  eapply sameCore_trans; [|apply dash_same].
  apply set_snake_same.
  eapply sameResources_trans; [|apply timers_resources].
  eapply sameResources_trans; [apply setAim_resources | apply turn_resources].
Qed.

Lemma spawnPickup_same g : sameCore g (Game_spawnPickup g).
Proof. unfold Game_spawnPickup, Game_spawnCore. same. Qed.

(* ------------------------------------------------------------------ *)
(** ** Enemies and hostile projectiles under the invariant *)

Lemma Forall_map_eq (A B : Type) (proj : A -> B) (P : B -> Prop) (l l' : list A) :
  map proj l' = map proj l ->
  Forall (fun a => P (proj a)) l -> Forall (fun a => P (proj a)) l'.
Proof.
  intros E F. rewrite <- Forall_map in *. now rewrite E.
Qed.

Lemma bossCount_map es :
  bossCount es =
  List.length (filter (fun st => EnemyType_eqb (fst st) boss) (map stats es)).
Proof.
  unfold bossCount. induction es as [|e es IH]; cbn; [reflexivity|].
  unfold Enemy.isBoss at 1. destruct (EnemyType_eqb _ _); cbn; congruence.
Qed.

Lemma bossCount_stats es es' :
  map stats es' = map stats es -> bossCount es' = bossCount es.
Proof. intro E. now rewrite !bossCount_map, E. Qed.

Lemma EnemiesOk_stats es es' :
  map stats es' = map stats es -> EnemiesOk es -> EnemiesOk es'.
Proof.
  intros E [F B]. split.
  - exact (@Forall_map_eq _ _ stats (fun st => 0 <= snd st) es es' E F).
  - now rewrite (bossCount_stats _ _ E).
Qed.

Lemma bossCount_filter f es : (bossCount (filter f es) <= bossCount es)%nat.
Proof.
  unfold bossCount. induction es as [|e es IH]; cbn; [lia|].
  destruct (f e), (Enemy.isBoss e) eqn:B; cbn; rewrite ?B; cbn; lia.
Qed.

Lemma EnemiesOk_filter f es : EnemiesOk es -> EnemiesOk (filter f es).
Proof.
  intros [F B]. split.
  - rewrite Forall_forall in *. intros e I. apply filter_In in I. now apply F.
  - pose proof (bossCount_filter f es). lia.
Qed.

Lemma bossCount_none es : existsb Enemy.isBoss es = false -> bossCount es = 0%nat.
Proof.
  unfold bossCount. induction es as [|e es IH]; cbn; [reflexivity|].
  intro E. apply orb_false_iff in E as [E1 E2]. rewrite E1. auto.
Qed.

Lemma bossCount_app es e :
  bossCount (es ++ [e]) = (bossCount es + if Enemy.isBoss e then 1 else 0)%nat.
Proof.
  unfold bossCount. rewrite filter_app, length_app. cbn.
  now destruct (Enemy.isBoss e).
Qed.

Lemma EnemiesOk_spawn es e :
  EnemiesOk es -> 0 <= Enemy.contactDamage e ->
  (Enemy.isBoss e = true -> existsb Enemy.isBoss es = false) ->
  EnemiesOk (es ++ [e]).
Proof.
  intros [F B] C G. split.
  - apply Forall_app. split; [assumption | now constructor].
  - rewrite bossCount_app. destruct (Enemy.isBoss e); [|lia].
    rewrite (bossCount_none _ (G eq_refl)). lia.
Qed.

Lemma HostileOk_damage ps ps' :
  map Projectile.damage ps' = map Projectile.damage ps ->
  HostileOk ps -> HostileOk ps'.
Proof. exact (@Forall_map_eq _ _ Projectile.damage (fun d => 0 <= d) ps ps'). Qed.

Lemma HostileOk_filter f ps : HostileOk ps -> HostileOk (filter f ps).
Proof.
  unfold HostileOk. rewrite !Forall_forall. intros F p I.
  apply filter_In in I. now apply F.
Qed.

Lemma HostileOk_app ps qs : HostileOk ps -> HostileOk qs -> HostileOk (ps ++ qs).
Proof. intros. apply Forall_app. now split. Qed.

Lemma Safe_set_enemies es g : Safe g -> EnemiesOk es -> Safe (set_enemies es g).
Proof. intros [] E. split; cbn; assumption. Qed.

Lemma Safe_set_enemyProjectiles ps g :
  Safe g -> HostileOk ps -> Safe (set_enemyProjectiles ps g).
Proof. intros [] E. split; cbn; assumption. Qed.

Lemma Safe_set_missions ms g :
  Safe g -> Forall comboPeakOk ms -> Safe (set_missions ms g).
Proof. intros [] E. split; cbn; assumption. Qed.

(* ------------------------------------------------------------------ *)
(** ** Missions under the invariant *)

Lemma MissionType_eqb_eq a b : MissionType_eqb a b = true <-> a = b.
Proof. destruct a, b; cbn; split; congruence. Qed.

Lemma firstn_subset (A : Type) (x : A) n l : In x (firstn n l) -> In x l.
Proof.
  revert l. induction n as [|n IH]; intros [|a l];
    rewrite ?firstn_O, ?firstn_nil, ?firstn_cons; cbn; try tauto.
  intros [E | I]; auto.
Qed.

Lemma pool_comboPeakOk : Forall comboPeakOk pool.
Proof.
  unfold pool, comboPeakOk.
  repeat constructor; cbn; try discriminate; lra.
Qed.

(** Whatever [startLevel] draws comes from the pool. *)
Lemma startLevel_from_pool lvl g m :
  In m (missions (MissionSystem_startLevel lvl g)) -> In m pool.
Proof.
  unfold MissionSystem_startLevel. cbn [missions set_rng set_missions]. intro I.
  apply firstn_subset in I.
  eapply Permutation_in; [|exact I].
  apply Permutation_sym, sortRandom_perm.
Qed.

Lemma startLevel_comboPeakOk lvl g :
  Forall comboPeakOk (missions (MissionSystem_startLevel lvl g)).
Proof.
  apply Forall_forall. intros m I.
  pose proof pool_comboPeakOk as P. rewrite Forall_forall in P.
  eapply P, startLevel_from_pool, I.
Qed.

Lemma inc_type a m : Mission.type (Mission.inc a m) = Mission.type m.
Proof. unfold Mission.inc. now ifs. Qed.

Lemma onEvent_comboPeakOk ty a ms :
  ty <> comboPeak ->
  Forall comboPeakOk ms ->
  Forall comboPeakOk
    (map (fun m => if MissionType_eqb (Mission.type m) ty
                   then Mission.inc a m else m) ms).
Proof.
  intros N F. apply Forall_map. eapply Forall_impl; [|exact F].
  intros m Ok. destruct (MissionType_eqb _ _) eqn:E; [|assumption].
  apply MissionType_eqb_eq in E. intro T. rewrite inc_type in T. congruence.
Qed.

(** A [comboPeak] mission can only move up to the combo tier, and the
    tier stops short of its target. *)
Lemma step_comboPeakOk dt took tier m :
  (tier <= 6)%Z -> comboPeakOk m ->
  comboPeakOk (MissionSystem_step dt took tier m).
Proof.
  intros T Ok. destruct (MissionType_eqb (Mission.type m) comboPeak) eqn:E.
  - apply MissionType_eqb_eq in E. destruct (Ok E) as (Tg & P & Tm & D & F).
    unfold MissionSystem_step, Mission.update.
    rewrite D, F, Tm. cbn. repeat (rewrite E; cbn).
    assert (L : Qmax (Mission.progress m) (inject_Z tier) <= 6).
    { apply Q.max_lub; [assumption|].
      change 6 with (inject_Z 6). now rewrite <- Zle_Qle. }
    rewrite Tg. unfold Qgeb.
    destruct (Qleb 10 _) eqn:C; [apply Qleb_true in C; lra|].
    intros _. cbn. now repeat split.
  - assert (N : Mission.type (MissionSystem_step dt took tier m) <> comboPeak);
      [|intro; contradiction].
    assert (N0 : Mission.type m <> comboPeak)
      by (intro Q; apply MissionType_eqb_eq in Q; congruence).
    unfold MissionSystem_step, Mission.update.
    destruct (Mission.done m || Mission.failed m), (Mission.timer m);
      cbn; ifs; cbn; solve [assumption | congruence].
Qed.

Lemma MissionSystem_update_same dt g :
  Safe g -> Safe (MissionSystem_update dt g).
Proof.
  intros S. unfold MissionSystem_update. apply Safe_set_missions; [assumption|].
  destruct S. apply Forall_map. eapply Forall_impl; [|eassumption].
  intros m. apply step_comboPeakOk. lia.
Qed.

(* ------------------------------------------------------------------ *)
(** ** The invariant through scoring *)

Lemma Pre_sameCore c t g g' : sameCore g g' -> Pre c t g -> Pre c t g'.
Proof.
  intros E (S & C & T). pose proof (Safe_sameCore E S).
  destruct E as (_ & _ & _ & _ & E5 & E6 & _).
  unfold Pre. now rewrite E5, E6.
Qed.

Lemma Post_sameCore c t g g' : sameCore g g' -> Post c t g -> Post c t g'.
Proof.
  intros E (S & T & C). pose proof (Safe_sameCore E S).
  destruct E as (_ & _ & _ & _ & E5 & E6 & E7 & E8 & _).
  unfold Post, Hit. now rewrite E5, E6, E7, E8.
Qed.

Lemma Pre_Post c t g : Pre c t g -> Post c t g.
Proof.
  intros (S & C & T & _). split; [assumption | split; [assumption | now left]].
Qed.

Lemma award_pre c t p g : Pre c t g -> Pre c t (Game_award p g).
Proof.
  intros ([] & C & T & K). unfold Pre, Game_award, Math_floor in *.
  assert (R : 1 <= clamp (combo g + (5#100)) 1 6 /\
              clamp (combo g + (5#100)) 1 6 <= 6) by (apply clamp_range; lra).
  pose proof (@Qfloor_range _ 1 6 (proj1 R) (proj2 R)).
  assert (M : (Qfloor (combo g) <= Qfloor (clamp (combo g + (5#100)) 1 6))%Z)
    by (apply Qfloor_resp_le; minmax; lra).
  split; [split|split; [|split]]; cbn; unfold Math_floor in *;
    try assumption; try lia.
  minmax; lra.
Qed.

Lemma levelUp_pre c t g : Pre c t g -> Pre c t (Game_levelUp g).
Proof.
  intros P. unfold Game_levelUp. ifs; [|exact P].
  destruct P as ([] & C & T). split; [split|split]; cbn; try assumption; try lia.
  - lra.
  - minmax; lra.
  - apply clamp_range. lra.
  - apply startLevel_comboPeakOk.
Qed.

Lemma gainScore_pre c t p g : Pre c t g -> Pre c t (Game_gainScore p g).
Proof. intro. now apply levelUp_pre, award_pre. Qed.

Lemma onEvent_pre c t ty a g :
  ty <> comboPeak -> Pre c t g -> Pre c t (MissionSystem_onEvent ty a g).
Proof.
  intros N (S & C & T). split; [|now split].
  apply Safe_set_missions; [assumption|].
  destruct S. now apply onEvent_comboPeakOk.
Qed.

Lemma heal_pre c t a g : Pre c t g -> Pre c t (set_snake (Snake.heal a (snake g)) g).
Proof.
  intros ([] & C & T). split; [split|split]; cbn; try assumption.
  apply clamp_range. assumption.
Qed.

Lemma addShield_pre c t a g :
  Pre c t g -> Pre c t (set_snake (Snake.addShield a (snake g)) g).
Proof.
  intros ([] & C & T). split; [split|split]; cbn; try assumption.
  apply clamp_range. lra.
Qed.

Lemma grow_same n g : sameCore g (set_snake (Snake.grow n (snake g)) g).
Proof. same. Qed.

Lemma explodeEnemy_pre c t e isMine g :
  Pre c t g -> Pre c t (Game_explodeEnemy e isMine g).
Proof.
  intro P. unfold Game_explodeEnemy.
  assert (P3 : Pre c t
    (set_snake
       (Snake.grow (if Enemy.isBoss e then 4%Z else 1%Z)
          (snake (Game_gainScore (Enemy.scoreValue e)
                    (ParticleSystem_burst (Enemy.x e) (Enemy.y e)
                       (if Enemy.isBoss e then 60%nat else 22%nat)
                       (Enemy.color e) 220 (if Enemy.isBoss e then 5 else 3) g))))
       (Game_gainScore (Enemy.scoreValue e)
          (ParticleSystem_burst (Enemy.x e) (Enemy.y e)
             (if Enemy.isBoss e then 60%nat else 22%nat)
             (Enemy.color e) 220 (if Enemy.isBoss e then 5 else 3) g)))).
  { eapply Pre_sameCore; [apply grow_same|].
    apply gainScore_pre. eapply Pre_sameCore; [apply burst_same|]. exact P. }
  cbv zeta.
  destruct isMine, (EnemyType_eqb (Enemy.type e) runner);
    repeat (apply onEvent_pre; [discriminate|]); exact P3.
Qed.

(* ------------------------------------------------------------------ *)
(** ** The invariant through the collision passes *)

Lemma collectCore_pre c t co g : Pre c t g -> Pre c t (snd (collectCore co g)).
Proof.
  intro P. unfold collectCore.
  destruct (Qltb _ 18); [|exact P]. cbn [snd].
  eapply Pre_sameCore; [apply burst_same|].
  apply onEvent_pre; [discriminate|].
  destruct (Core.kind co) as [[| |]|]; apply gainScore_pre;
    solve [exact P | now apply heal_pre | now apply addShield_pre].
Qed.

Lemma pickupPass_pre c t g : Pre c t g -> Pre c t (pickupPass g).
Proof.
  intro P. unfold pickupPass.
  eapply Pre_sameCore; [|apply forEach_state with (P := Pre c t); [|exact P]].
  - same.
  - intros. now apply collectCore_pre.
Qed.

Lemma strike_stats p es r : strike p es = Some r -> map stats (fst r) = map stats es.
Proof.
  revert r. induction es as [|e es IH]; intros r; cbn; [discriminate|].
  destruct (Enemy.alive e && _).
  - intros [= <-]. reflexivity.
  - destruct (strike p es) as [r'|]; [|discriminate].
    intros [= <-]. cbn. now rewrite (IH r').
Qed.

Lemma Pre_set_enemies c t es g : Pre c t g -> EnemiesOk es -> Pre c t (set_enemies es g).
Proof. intros (S & C & T) E. split; [now apply Safe_set_enemies | now split]. Qed.

Lemma Pre_enemies c t g : Pre c t g -> EnemiesOk (enemies g).
Proof. now intros ([] & _). Qed.

Lemma projectileHit_pre c t p g : Pre c t g -> Pre c t (snd (projectileHit p g)).
Proof.
  intro P. unfold projectileHit.
  destruct (negb _); [exact P|].
  destruct (strike p (enemies g)) as [r|] eqn:E; [|exact P]. cbn [snd].
  assert (P1 : Pre c t
    (ParticleSystem_burst (Projectile.x p) (Projectile.y p) 6 "#8fffff" 90 2
       (set_enemies (fst r) g))).
  { eapply Pre_sameCore; [apply burst_same|].
    apply Pre_set_enemies; [exact P|].
    eapply EnemiesOk_stats; [exact (strike_stats _ _ E) | exact (Pre_enemies P)]. }
  destruct (Enemy.alive (snd r)); [exact P1 | now apply explodeEnemy_pre].
Qed.

Lemma projectilePass_pre c t g : Pre c t g -> Pre c t (projectilePass g).
Proof.
  intro P. unfold projectilePass.
  eapply Pre_sameCore; [|apply forEach_state with (P := Pre c t); [|exact P]].
  - same.
  - intros. now apply projectileHit_pre.
Qed.

Lemma blast_pre c t m e g : Pre c t g -> Pre c t (snd (blast m e g)).
Proof.
  intro P. unfold blast. ifs; cbn [snd]; try exact P.
  now apply explodeEnemy_pre.
Qed.

Lemma blast_stats m e g : stats (fst (blast m e g)) = stats e.
Proof. unfold blast. now ifs. Qed.

Lemma mineStep_pre c t m g : Pre c t g -> Pre c t (snd (mineStep m g)).
Proof.
  intro P. unfold mineStep.
  destruct (negb _ || _); [exact P|].
  destruct (mineTriggered m (enemies g)); [|exact P]. cbn [snd].
  assert (P1 : Pre c t (ParticleSystem_burst (Mine.x m) (Mine.y m) 32 "#ffaf8f" 230 4 g))
    by (eapply Pre_sameCore; [apply burst_same | exact P]).
  apply Pre_set_enemies.
  - apply forEach_state with (P := Pre c t); [|exact P1].
    intros. now apply blast_pre.
  - eapply EnemiesOk_stats; [|exact (Pre_enemies P1)].
    apply forEach_elements. intros. apply blast_stats.
Qed.

Lemma minePass_pre c t g : Pre c t g -> Pre c t (minePass g).
Proof.
  intro P. unfold minePass.
  eapply Pre_sameCore; [|apply forEach_state with (P := Pre c t); [|exact P]].
  - same.
  - intros. now apply mineStep_pre.
Qed.

Lemma forEach_state_where (A S : Type) (body : A -> S -> A * S)
    (Q : A -> Prop) (P : S -> Prop) :
  (forall a s, Q a -> P s -> P (snd (body a s))) ->
  forall l s, Forall Q l -> P s -> P (snd (forEach body l s)).
Proof.
  intros Step l. induction l as [|a l IH]; intros s F Hs; cbn; [assumption|].
  inversion F; subst. auto.
Qed.

Lemma fold_left_state_where (A S : Type) (body : S -> A -> S)
    (Q : A -> Prop) (P : S -> Prop) :
  (forall a s, Q a -> P s -> P (body s a)) ->
  forall l s, Forall Q l -> P s -> P (fold_left body l s).
Proof.
  intros Step l. induction l as [|a l IH]; intros s F Hs; cbn; [assumption|].
  inversion F; subst. auto.
Qed.

Lemma Safe_resources g : Safe g -> resourcesOk (snake g).
Proof. intros []. unfold resourcesOk. tauto. Qed.

Lemma applyDamage_resources a s :
  0 <= a -> resourcesOk s -> resourcesOk (snd (Snake.applyDamage a s)).
Proof.
  intros A (M & H & S0 & S1). unfold resourcesOk, Snake.applyDamage.
  qcases; cbn; repeat split; minmax; lra.
Qed.

Lemma Post_set_snake c t s g : Post c t g -> resourcesOk s -> Post c t (set_snake s g).
Proof.
  intros ([] & T & C) (M & H & S0 & S1).
  split; [split; cbn; auto | split; assumption].
Qed.

Lemma onPlayerHit_post c t k g : Post c t g -> Post c t (onPlayerHit k g).
Proof.
  intros ([] & T & C). unfold onPlayerHit.
  split; [split; cbn; try assumption|split; [assumption|]].
  - lra.
  - unfold Math_floor. change (Qfloor 1) with 1%Z. lia.
  - right. unfold Hit. cbn. now repeat split.
Qed.

Lemma contact_post c t dt e g :
  0 <= dt -> 0 <= Enemy.contactDamage e -> Post c t g -> Post c t (contact dt g e).
Proof.
  intros D E P. unfold contact.
  destruct (Enemy.alive e && _); [|exact P].
  assert (R : resourcesOk
    (snd (Snake.applyDamage (Enemy.contactDamage e * dt * (35#10)) (snake g)))).
  { apply applyDamage_resources; [|apply Safe_resources, P].
    apply Qmult_le_0_compat; [apply Qmult_le_0_compat; assumption | lra]. }
  cbv zeta. destruct (Qgtb _ 0).
  - eapply Post_sameCore; [apply burst_same|].
    apply onPlayerHit_post. now apply Post_set_snake.
  - now apply Post_set_snake.
Qed.

Lemma contactPass_post c t dt g : 0 <= dt -> Post c t g -> Post c t (contactPass dt g).
Proof.
  intros D P. unfold contactPass.
  apply fold_left_state_where
    with (Q := fun e => 0 <= Enemy.contactDamage e) (P := Post c t);
    [| apply P | exact P].
  intros. now apply contact_post.
Qed.

Lemma enemyProjectileHit_post c t p g :
  0 <= Projectile.damage p -> Post c t g -> Post c t (snd (enemyProjectileHit p g)).
Proof.
  intros D P. unfold enemyProjectileHit.
  destruct (Projectile.alive p && _); [|exact P].
  assert (R : resourcesOk (snd (Snake.applyDamage (Projectile.damage p) (snake g))))
    by (apply applyDamage_resources; [assumption | apply Safe_resources, P]).
  cbn [snd]. destruct (Qgtb _ 0).
  - apply onPlayerHit_post. now apply Post_set_snake.
  - now apply Post_set_snake.
Qed.

Lemma enemyProjectileHit_damage p g :
  Projectile.damage (fst (enemyProjectileHit p g)) = Projectile.damage p.
Proof. unfold enemyProjectileHit. now ifs. Qed.

Lemma Post_set_enemyProjectiles c t ps g :
  Post c t g -> HostileOk ps -> Post c t (set_enemyProjectiles ps g).
Proof.
  intros (S & T & C) E. split; [now apply Safe_set_enemyProjectiles | now split].
Qed.

Lemma Post_hostile c t g : Post c t g -> HostileOk (enemyProjectiles g).
Proof. now intros ([] & _). Qed.

Lemma enemyProjectilePass_post c t g : Post c t g -> Post c t (enemyProjectilePass g).
Proof.
  intro P. unfold enemyProjectilePass. apply Post_set_enemyProjectiles.
  - apply forEach_state_where
      with (Q := fun p => 0 <= Projectile.damage p) (P := Post c t);
      [| exact (Post_hostile P) | exact P].
    intros. now apply enemyProjectileHit_post.
  - eapply HostileOk_damage; [|exact (Post_hostile P)].
    apply forEach_elements. intros. apply enemyProjectileHit_damage.
Qed.

Lemma sweep_post c t g : Post c t g -> Post c t (sweep g).
Proof.
  intros ([] & T & C). unfold sweep.
  split; [split; cbn; try assumption | split; assumption].
  - now apply EnemiesOk_filter.
  - now apply HostileOk_filter.
Qed.

Lemma handleCollisions_post c t dt g :
  0 <= dt -> Pre c t g -> Post c t (Game_handleCollisions dt g).
Proof.
  intros D P. unfold Game_handleCollisions.
  apply sweep_post, enemyProjectilePass_post, contactPass_post; [assumption|].
  apply Pre_Post, minePass_pre, projectilePass_pre, pickupPass_pre, P.
Qed.

Lemma settle_post c t dt g : Post c t g -> Post c t (Game_settle dt g).
Proof.
  intros (S & T & C). unfold Game_settle.
  assert (P1 : Post c t (MissionSystem_update dt g)).
  { split; [now apply MissionSystem_update_same | split; assumption]. }
  eapply Post_sameCore; [|exact P1]. same.
Qed.

(* ------------------------------------------------------------------ *)
(** ** The invariant through spawning and the entity updates *)

Lemma Math_round_nonneg q : 0 <= q -> 0 <= inject_Z (Math_round q).
Proof.
  intro L. unfold Math_round.
  change 0 with (inject_Z 0). rewrite <- Zle_Qle.
  rewrite <- (Qfloor_Z 0). apply Qfloor_resp_le.
  change (inject_Z 0) with 0. lra.
Qed.

Lemma contactDamage0_nonneg ty : 0 <= Enemy.contactDamage0 ty.
Proof. destruct ty; cbn; lra. Qed.

Lemma new_contactDamage ty x y lvl cd :
  (1 <= lvl)%Z ->
  0 <= Enemy.contactDamage
         (Enemy.new ty x y (1 + inject_Z (lvl - 1) * (16#100)) cd).
Proof.
  intro L. unfold Enemy.new. cbn [Enemy.contactDamage]. apply Math_round_nonneg.
  assert (0 <= inject_Z (lvl - 1)).
  { change 0 with (inject_Z 0). rewrite <- Zle_Qle. lia. }
  pose proof (contactDamage0_nonneg ty).
  apply Qmult_le_0_compat; [assumption|].
  assert (0 <= inject_Z (lvl - 1) * (16#100))
    by (apply Qmult_le_0_compat; [assumption | lra]).
  lra.
Qed.

Lemma isBoss_new ty x y s cd :
  Enemy.isBoss (Enemy.new ty x y s cd) = EnemyType_eqb ty boss.
Proof. reflexivity. Qed.

Lemma set_rng_same n g : sameCore g (set_rng n g).
Proof. same. Qed.

Lemma set_mines_same ms g : sameCore g (set_mines ms g).
Proof. same. Qed.

Lemma set_projectiles_same ps g : sameCore g (set_projectiles ps g).
Proof. same. Qed.

Lemma spawnEnemy_pre c t g : Pre c t g -> Pre c t (Game_spawnEnemy g).
Proof.
  intro P. unfold Game_spawnEnemy. cbv zeta.
  eapply Pre_sameCore; [apply set_rng_same|].
  apply Pre_set_enemies; [exact P|].
  apply EnemiesOk_spawn; [exact (Pre_enemies P) | |].
  - apply new_contactDamage. apply P.
  - rewrite isBoss_new.
    destruct ((Z.rem (level g) 4 =? 0)%Z),
      (existsb Enemy.isBoss (enemies g)); cbn [andb negb];
      try reflexivity; ifs; cbn; discriminate.
Qed.

Lemma spawnWave_pre c t g : Pre c t g -> Pre c t (Game_spawnWave g).
Proof.
  intro P. unfold Game_spawnWave. destruct (Qleb _ 0); [|exact P].
  cbv zeta. apply repeatN_state; [intros; now apply spawnEnemy_pre|].
  eapply Pre_sameCore; [|exact P]. same.
Qed.

Lemma Enemy_update_stats dt e g : stats (fst (Enemy_update dt e g)) = stats e.
Proof. unfold Enemy_update. destruct (Enemy.type e) eqn:T; ifs; cbn; now rewrite ?T. Qed.

Lemma bossVolley_hostile e : HostileOk (bossVolley e).
Proof. unfold bossVolley, HostileOk. repeat constructor; cbn; lra. Qed.

Lemma Pre_set_enemyProjectiles c t ps g :
  Pre c t g -> HostileOk ps -> Pre c t (set_enemyProjectiles ps g).
Proof.
  intros (S & T & C) E. split; [now apply Safe_set_enemyProjectiles | now split].
Qed.

Lemma Pre_hostile c t g : Pre c t g -> HostileOk (enemyProjectiles g).
Proof. now intros ([] & _). Qed.

Lemma Enemy_update_pre c t dt e g : Pre c t g -> Pre c t (snd (Enemy_update dt e g)).
Proof.
  intro P. unfold Enemy_update.
  destruct (Enemy.type e); cbv zeta; try exact P.
  - destruct (Qleb _ 0); cbn [snd]; [|exact P].
    eapply Pre_sameCore; [apply burst_same|].
    apply Pre_set_enemyProjectiles.
    + eapply Pre_sameCore; [|exact P]. same.
    + apply HostileOk_app; [exact (Pre_hostile P)|].
      repeat constructor. cbn. lra.
  - destruct (Qleb _ 0); cbn [snd]; [|exact P].
    apply Pre_set_enemyProjectiles; [exact P|].
    apply HostileOk_app; [exact (Pre_hostile P) | apply bossVolley_hostile].
Qed.

Lemma entities_pre c t dt sdt g : Pre c t g -> Pre c t (Game_entities dt sdt g).
Proof.
  intro P. unfold Game_entities. cbv zeta.
  set (g1 := set_cores (map (Core.update dt) (cores g)) g).
  assert (P1 : Pre c t g1) by (eapply Pre_sameCore; [|exact P]; same).
  set (r := forEach (Enemy_update sdt) (enemies g1) g1).
  assert (P2 : Pre c t (set_enemies (fst r) (snd r))).
  { apply Pre_set_enemies.
    - apply forEach_state with (P := Pre c t); [|exact P1].
      intros. now apply Enemy_update_pre.
    - eapply EnemiesOk_stats; [|exact (Pre_enemies P1)].
      apply forEach_elements. intros. apply Enemy_update_stats. }
  eapply Pre_sameCore; [apply set_mines_same|].
  apply Pre_set_enemyProjectiles.
  - eapply Pre_sameCore; [apply set_projectiles_same | exact P2].
  - eapply HostileOk_damage; [|exact (Pre_hostile P2)].
    cbn. rewrite map_map. reflexivity.
Qed.

Lemma clocks_safe dt sdt g :
  Safe g ->
  Safe (Game_clocks dt sdt g) /\
  comboTier (Game_clocks dt sdt g) = comboTier g /\
  combo (Game_clocks dt sdt g) <= combo g.
Proof.
  intros []. unfold Game_clocks, lerp. cbv zeta. cbn.
  destruct (Qleb _ 0); (split; [split|split]); cbn; try assumption;
    try reflexivity; try lra.
  unfold Math_floor in *.
  assert (Qfloor (combo g + (1 - combo g) * (8#100)) <= Qfloor (combo g))%Z
    by (apply Qfloor_resp_le; lra).
  lia.
Qed.

Lemma advance_pre dt g :
  Safe g ->
  Pre (combo (Game_clocks dt (dt * slowFactor g) g)) (comboTier g) (Game_advance dt g).
Proof.
  intro S. unfold Game_advance. cbv zeta.
  destruct (clocks_safe dt (dt * slowFactor g) S) as (S1 & T1 & _).
  apply entities_pre.
  eapply Pre_sameCore; [apply spawnPickup_same|].
  apply spawnWave_pre.
  eapply Pre_sameCore; [apply Snake_update_same|].
  split; [exact S1 | split; [lra | lia]].
Qed.

(** The invariant across one running tick, with the marks the combo and
    its tier are compared against. *)
Lemma tick_post dt g :
  0 <= dt -> Safe g ->
  Post (combo (Game_clocks dt (dt * slowFactor g) g)) (comboTier g)
    (Game_settle dt (Game_handleCollisions dt (Game_advance dt g))).
Proof.
  intros D S. apply settle_post, handleCollisions_post; [assumption|].
  now apply advance_pre.
Qed.

Lemma update_safe dt g : 0 <= dt -> Safe g -> Safe (Game_update dt g).
Proof.
  intros D S. unfold Game_update. destruct (negb _).
  - eapply Safe_sameCore; [|exact S]. same.
  - apply (tick_post D S).
Qed.

Lemma frame_dt now g :
  0 <= clamp ((now - lastTime g) / 1000) 0 (5#100) /\
  clamp ((now - lastTime g) / 1000) 0 (5#100) <= (5#100).
Proof. apply clamp_range. lra. Qed.

Lemma draw_same g : sameCore g (Game_draw g).
Proof. unfold Game_draw. destruct (Qgtb _ 0); same. Qed.

Lemma frame_safe now g : Safe g -> Safe (Game_frame now g).
Proof.
  intro S. unfold Game_frame. cbv zeta.
  eapply Safe_sameCore; [apply draw_same|]. apply update_safe.
  - apply frame_dt.
  - eapply Safe_sameCore; [|exact S]. same.
Qed.

Lemma reset_safe g : Safe (Game_reset g).
Proof.
  unfold Game_reset. cbv zeta. split; cbn; try lra; try lia.
  - unfold Math_floor. change (Qfloor 1) with 1%Z. lia.
  - split; [constructor | cbn; lia].
  - constructor.
  - apply (startLevel_comboPeakOk 1).
Qed.

Lemma togglePause_same g : sameCore g (Game_togglePause g).
Proof. unfold Game_togglePause. destruct (state g); same. Qed.

Lemma keydown_same k g : sameCore g (Game_keydown k g).
Proof.
  unfold Game_keydown. cbv zeta. destruct (String.eqb _ "p"); [|same].
  eapply sameCore_trans; [|apply togglePause_same]. same.
Qed.

(** Every state of a session satisfies the invariant. *)
Lemma reachable_safe g : reachable g -> Safe g.
Proof.
  induction 1.
  - apply reset_safe.
  - unfold Game_startGame. eapply Safe_sameCore; [|apply reset_safe]. same.
  - eapply Safe_sameCore; [apply togglePause_same | assumption].
  - eapply Safe_sameCore; [apply keydown_same | assumption].
  - eapply Safe_sameCore; [|eassumption]. unfold Game_keyup. same.
  - now apply frame_safe.
Qed.

(* ------------------------------------------------------------------ *)
(** ** What holds between ticks only *)

Lemma settle_outcome dt g :
  let g' := Game_settle dt g in
  enemies g' = enemies g /\ snake g' = snake g /\
  (state g' <> gameover -> 0 < Snake.health (snake g)).
Proof.
  unfold Game_settle, MissionSystem_update. cbv zeta. cbn.
  destruct (Qleb (Snake.health (snake g)) 0) eqn:E; cbn; repeat split.
  - intro N. now contradiction N.
  - intros _. now apply Qleb_false in E.
Qed.

Lemma handleCollisions_alive dt g :
  Forall (fun e => Enemy.alive e = true) (enemies (Game_handleCollisions dt g)).
Proof.
  unfold Game_handleCollisions, sweep. cbn.
  apply Forall_forall. intros e I. now apply filter_In in I.
Qed.

Lemma update_settled dt g : Settled g -> Settled (Game_update dt g).
Proof.
  intros [Hh Ha]. unfold Game_update.
  destruct (negb _); [split; cbn; assumption|].
  destruct (settle_outcome dt (Game_handleCollisions dt (Game_advance dt g)))
    as (E1 & E2 & E3).
  split; [rewrite E2; exact E3 | rewrite E1; apply handleCollisions_alive].
Qed.

Lemma draw_settled g : Settled g -> Settled (Game_draw g).
Proof.
  intros [Hh Ha]. unfold Game_draw. destruct (Qgtb _ 0); split; cbn; assumption.
Qed.

Lemma reachable_settled g : reachable g -> Settled g.
Proof.
  induction 1 as [now | g R IH | g R [Hh Ha] | k g R [Hh Ha] | k g R [Hh Ha]
                 | now g R IH].
  - split; cbn; [intros _; lra | constructor].
  - split; cbn; [intros _; lra | constructor].
  - unfold Game_togglePause.
    destruct (state g) eqn:E; split; cbn; try assumption;
      intros N; first [apply Hh; discriminate | rewrite E in N; congruence].
  - unfold Game_keydown, Game_togglePause. cbv zeta. cbn.
    destruct (String.eqb _ "p"); [|split; cbn; assumption].
    destruct (state g) eqn:E; split; cbn; try assumption;
      intros N; first [apply Hh; discriminate | rewrite E in N; congruence].
  - split; cbn; assumption.
  - unfold Game_frame. cbv zeta. apply draw_settled, update_settled.
    destruct IH. split; cbn; assumption.
Qed.

(* ------------------------------------------------------------------ *)
(** ** Health and shield (C1) *)

Lemma reachable_bounds g : reachable g -> PlayerBounds g.
Proof.
  intro R. destruct (reachable_safe R), (reachable_settled R) as [Hh _].
  unfold PlayerBounds. tauto.
Qed.

(** C1, as amended.  In every state of a session, before and after any
    animation frame, the shield is within [0, 120] and health is at most
    [maxHealth]; health is positive while the match is not over, and it
    is not clamped at zero: the lethal hit leaves it where the subtraction
    put it, in a state that is [gameover]. *)
Theorem resources_bounded (g : Game.t) :
  reachable g ->
  forall now : Q,
    PlayerBounds g /\ PlayerBounds (Game_frame now g) /\
    (Snake.health (snake (Game_frame now g)) <= 0 ->
     state (Game_frame now g) = gameover).
Proof.
  intros R now.
  pose proof (reachable_bounds R) as B.
  pose proof (reachable_bounds (reach_frame now R)) as (H1 & H2 & H3).
  split; [exact B|]. split; [unfold PlayerBounds; tauto|].
  intro L. destruct (state (Game_frame now g)) eqn:E; try reflexivity;
    exfalso; (assert (0 < Snake.health (snake (Game_frame now g)))
                by (apply H3; congruence)); lra.
Qed.

(* ------------------------------------------------------------------ *)
(** ** The combo multiplier (C3) *)

Lemma clocks_combo dt sdt g : combo (Game_clocks dt sdt g) = relaxed dt g.
Proof. unfold Game_clocks, relaxed. cbv zeta. cbn. now destruct (Qleb _ 0). Qed.


(** The state the damage passes start in, under the invariant. *)
Lemma beforeDamage_pre dt g :
  Safe g -> Pre (relaxed dt g) (comboTier g) (beforeDamage dt g).
Proof.
  intro S. unfold beforeDamage.
  rewrite <- (clocks_combo dt (dt * slowFactor g) g).
  apply minePass_pre, projectilePass_pre, pickupPass_pre. now apply advance_pre.
Qed.

Lemma Damage_refl g : Damage g g.
Proof.
  unfold Damage, spared. split; [reflexivity|]. split; [lra|]. split; [lra|].
  left. repeat split; reflexivity.
Qed.

Lemma Damage_sameCore m g g' : sameCore g g' -> Damage m g -> Damage m g'.
Proof.
  intros (_ & _ & E3 & E4 & E5 & E6 & E7 & E8 & _).
  unfold Damage, spared, harmed, Hit. now rewrite E3, E4, E5, E6, E7, E8.
Qed.

(** A snake in the place of the player's, with the same health and
    shield up to the value. *)
Lemma Damage_set_snake m s g :
  Snake.health s == Snake.health (snake g) ->
  Snake.shield s == Snake.shield (snake g) ->
  Damage m g -> Damage m (set_snake s g).
Proof.
  intros H S (T & H0 & S0 & D). unfold Damage, spared, harmed, Hit in *. cbn.
  split; [exact T|]. split; [lra|]. split; [lra|].
  destruct D as [(D1 & D2 & D3) | ([D1 | D1] & D2)].
  - left. split; [lra|]. split; [lra | exact D3].
  - right. split; [left; lra | exact D2].
  - right. split; [right; lra | exact D2].
Qed.

(** A hit that lands: the player is harmed, and it shows. *)
Lemma Damage_lands m s k g :
  Snake.health s <= Snake.health (snake g) ->
  Snake.shield s <= Snake.shield (snake g) ->
  Snake.health s < Snake.health (snake g) \/
  Snake.shield s < Snake.shield (snake g) ->
  Damage m g -> Damage m (onPlayerHit k (set_snake s g)).
Proof.
  intros H S L (T & H0 & S0 & _). unfold Damage, harmed, Hit, onPlayerHit. cbn.
  split; [exact T|]. split; [lra|]. split; [lra|]. right.
  split; [destruct L; [left | right]; lra | now repeat split].
Qed.

(** What [applyDamage] does to health and shield, by what it returns. *)
Lemma applyDamage_toll a s :
  0 <= a -> 0 <= Snake.shield s ->
  let r := Snake.applyDamage a s in
  (Qgtb (fst r) 0 = false ->
   Snake.health (snd r) == Snake.health s /\
   Snake.shield (snd r) == Snake.shield s) /\
  (Qgtb (fst r) 0 = true ->
   Snake.health (snd r) <= Snake.health s /\
   Snake.shield (snd r) <= Snake.shield s /\
   (Snake.health (snd r) < Snake.health s \/
    Snake.shield (snd r) < Snake.shield s)).
Proof.
  intros A S. cbv zeta.
  destruct (Qlt_le_dec 0 (Snake.invulnTimer s)) as [I | I].
  - rewrite (@applyDamage_invulnerable a s I). cbn [fst snd].
    split; [intros _; split; reflexivity | intro G; discriminate].
  - rewrite (@applyDamage_returns a s I).
    destruct (@applyDamage_lands a s I A S) as (E1 & E2 & _). cbv zeta in *.
    revert E1 E2. generalize (snd (Snake.applyDamage a s)). intros s' E1 E2.
    unfold Qgtb. split; intro G;
      [apply Qltb_false in G | apply Qltb_true in G];
      destruct (Qmin_cases (Snake.shield s) a) as [(L & M) | (L & M)];
      rewrite M in E1, E2.
    + split; lra.
    + split; lra.
    + destruct (Qlt_le_dec 0 (Snake.shield s));
        (split; [lra | split; [lra|]]); [right | left]; lra.
    + split; [lra | split; [lra|]]. right. lra.
Qed.

Lemma contact_damage m c t dt e g :
  0 <= dt -> 0 <= Enemy.contactDamage e ->
  Post c t g -> Damage m g -> Damage m (contact dt g e).
Proof.
  intros D E P Dm. unfold contact.
  destruct (Enemy.alive e && _); [|exact Dm].
  assert (A : 0 <= Enemy.contactDamage e * dt * (35#10))
    by (apply Qmult_le_0_compat; [apply Qmult_le_0_compat; assumption | lra]).
  assert (S : 0 <= Snake.shield (snake g)) by apply P.
  destruct (@applyDamage_toll _ (snake g) A S) as (Miss & Land). cbv zeta in *.
  revert Miss Land.
  generalize (Snake.applyDamage (Enemy.contactDamage e * dt * (35#10)) (snake g)).
  intros r Miss Land.
  destruct (Qgtb (fst r) 0).
  - eapply Damage_sameCore; [apply burst_same|].
    destruct (Land eq_refl) as (L1 & L2 & L3). now apply Damage_lands.
  - destruct (Miss eq_refl). now apply Damage_set_snake.
Qed.

Lemma contactPass_damage m c t dt g :
  0 <= dt -> Post c t g -> Damage m g ->
  Post c t (contactPass dt g) /\ Damage m (contactPass dt g).
Proof.
  intros D P Dm. unfold contactPass.
  apply fold_left_state_where
    with (Q := fun e => 0 <= Enemy.contactDamage e)
         (P := fun s => Post c t s /\ Damage m s);
    [| apply P | now split].
  intros e s Qe (Ps & Ds).
  split; [now apply contact_post | now apply contact_damage with c t].
Qed.

Lemma enemyProjectileHit_damage_kept m c t p g :
  0 <= Projectile.damage p ->
  Post c t g -> Damage m g -> Damage m (snd (enemyProjectileHit p g)).
Proof.
  intros A P Dm. unfold enemyProjectileHit.
  destruct (Projectile.alive p && _); [|exact Dm].
  assert (S : 0 <= Snake.shield (snake g)) by apply P.
  destruct (@applyDamage_toll _ (snake g) A S) as (Miss & Land). cbv zeta in *.
  revert Miss Land.
  generalize (Snake.applyDamage (Projectile.damage p) (snake g)).
  intros r Miss Land. cbn [snd].
  destruct (Qgtb (fst r) 0).
  - destruct (Land eq_refl) as (L1 & L2 & L3). now apply Damage_lands.
  - destruct (Miss eq_refl). now apply Damage_set_snake.
Qed.

Lemma enemyProjectilePass_damage m c t g :
  Post c t g -> Damage m g -> Damage m (enemyProjectilePass g).
Proof.
  intros P Dm. unfold enemyProjectilePass.
  assert (K : Post c t (snd (forEach enemyProjectileHit (enemyProjectiles g) g)) /\
              Damage m (snd (forEach enemyProjectileHit (enemyProjectiles g) g))).
  { apply forEach_state_where
      with (Q := fun p => 0 <= Projectile.damage p)
           (P := fun s => Post c t s /\ Damage m s);
      [| exact (Post_hostile P) | now split].
    intros p s Qp (Ps & Ds).
    split; [now apply enemyProjectileHit_post
           | now apply enemyProjectileHit_damage_kept with c t]. }
  destruct K as (_ & K). revert K.
  generalize (forEach enemyProjectileHit (enemyProjectiles g) g). intros r K.
  unfold Damage, spared, harmed, Hit in *. exact K.
Qed.

Lemma sweep_damage m g : Damage m g -> Damage m (sweep g).
Proof. intro D. unfold Damage, spared, harmed, Hit, sweep in *. exact D. Qed.

Lemma settle_damage m dt g : Damage m g -> Damage m (Game_settle dt g).
Proof.
  intro D. unfold Game_settle, MissionSystem_update. cbv zeta.
  unfold Damage, spared, harmed, Hit in *.
  destruct (Qleb _ 0); exact D.
Qed.

(** The damage passes of a running frame, from where they start. *)
Lemma frame_damage now g :
  Safe g ->
  let dt := clamp ((now - lastTime g) / 1000) 0 (5#100) in
  Damage (beforeDamage dt (set_lastTime now g))
    (Game_draw
       (Game_settle dt (Game_handleCollisions dt (Game_advance dt (set_lastTime now g))))).
Proof.
  intros S dt.
  assert (S0 : Safe (set_lastTime now g))
    by (eapply Safe_sameCore; [|exact S]; same).
  pose proof (Pre_Post (beforeDamage_pre dt S0)) as P.
  assert (D : 0 <= dt) by apply frame_dt.
  eapply Damage_sameCore; [apply draw_same|].
  apply settle_damage. unfold Game_handleCollisions. apply sweep_damage.
  fold (beforeDamage dt (set_lastTime now g)).
  destruct (contactPass_damage D P (Damage_refl _)) as (P1 & D1).
  now apply enemyProjectilePass_damage with (relaxed dt (set_lastTime now g))
                                            (comboTier (set_lastTime now g)).
Qed.


(* ------------------------------------------------------------------ *)
(** ** The combo tier (C9, C10) *)

Lemma gainScore_comboTier p g :
  comboTier (Game_gainScore p g) =
  Z.max (comboTier g) (Math_floor (combo (Game_gainScore p g))).
Proof.
  unfold Game_gainScore, Game_levelUp. cbv zeta.
  destruct (Qgeb _ _); reflexivity.
Qed.

Lemma frame_comboTier now g :
  Safe g -> (comboTier g <= comboTier (Game_frame now g))%Z.
Proof.
  intro S. unfold Game_frame. cbv zeta.
  rewrite (proj1 (proj2 (proj2 (proj2 (proj2 (proj2 (draw_same _))))))).
  unfold Game_update. cbn [state set_lastTime].
  destruct (negb _); [cbn; lia|].
  assert (S0 : Safe (set_lastTime now g))
    by (eapply Safe_sameCore; [|exact S]; same).
  apply (tick_post (proj1 (frame_dt now g)) S0).
Qed.

(** C10.  In every state of a session the combo tier is at most 6, so a
    mission of type [comboPeak], whose target is 10 and whose progress
    only follows the tier, is never done; having no timer, it is never
    failed either. *)
Theorem comboPeak_never_completes (g : Game.t) :
  reachable g ->
  (comboTier g <= 6)%Z /\
  forall m : Mission.t,
    In m (missions g) -> Mission.type m = comboPeak ->
    Mission.target m = 10 /\ Mission.progress m <= 6 /\
    Mission.timer m = None /\
    Mission.done m = false /\ Mission.failed m = false.
Proof.
  intro R. destruct (reachable_safe R) as [_ _ _ _ _ T _ _ _ M].
  split; [lia|].
  intros m I Ty. rewrite Forall_forall in M. exact (M m I Ty).
Qed.

(* ------------------------------------------------------------------ *)
(** ** Boss gating (C8) *)

(** The enemy [Game.spawnEnemy] pushes. *)
Lemma spawnEnemy_pushes g :
  exists e, enemies (Game_spawnEnemy g) = enemies g ++ [e] /\
            Enemy.isBoss e =
            ((Z.rem (level g) 4 =? 0)%Z && negb (existsb Enemy.isBoss (enemies g))).
Proof.
  unfold Game_spawnEnemy. cbv zeta. cbn [enemies set_rng set_enemies].
  eexists. split; [reflexivity|]. rewrite isBoss_new.
  destruct (_ && _); [reflexivity|]. now ifs.
Qed.

Lemma spawnWave_safe g : Safe g -> Safe (Game_spawnWave g).
Proof.
  intro S.
  assert (P : Pre (combo g) (comboTier g) g) by (split; [exact S | split; [lra | lia]]).
  apply (spawnWave_pre P).
Qed.

(** C8.  A spawn at a level divisible by 4 with no boss in the enemy list
    pushes a boss, whatever the roll; any other spawn pushes an enemy that
    is not a boss.  So at most one boss is in the enemy list of any state
    of a session (where every listed enemy is alive), also after the one
    or two spawns of a spawn window. *)
Theorem boss_gating (g : Game.t) :
  (exists e : Enemy.t,
      enemies (Game_spawnEnemy g) = enemies g ++ [e] /\
      (Z.rem (level g) 4 = 0%Z -> existsb Enemy.isBoss (enemies g) = false ->
       Enemy.type e = boss) /\
      (Z.rem (level g) 4 <> 0%Z \/ existsb Enemy.isBoss (enemies g) = true ->
       Enemy.type e <> boss)) /\
  (reachable g ->
   (bossCount (enemies g) <= 1)%nat /\
   Forall (fun e => Enemy.alive e = true) (enemies g) /\
   (bossCount (enemies (Game_spawnWave g)) <= 1)%nat).
Proof.
  split.
  - destruct (spawnEnemy_pushes g) as (e & E & B). exists e.
    split; [exact E|]. unfold Enemy.isBoss in B at 1. split.
    + intros L N. rewrite N, (proj2 (Z.eqb_eq _ _) L) in B. cbn in B.
      destruct (Enemy.type e); now try discriminate.
    + intros [L | N] T; rewrite T in B; cbn in B; symmetry in B;
        apply andb_true_iff in B as [B1 B2].
      * apply Z.eqb_eq in B1. contradiction.
      * rewrite N in B2. discriminate.
  - intro R. pose proof (reachable_safe R) as S.
    split; [apply S|]. split; [apply (reachable_settled R)|].
    apply (spawnWave_safe S).
Qed.

(* ------------------------------------------------------------------ *)
(** ** Damage application (C4) *)

Lemma set_snake_self g : set_snake (snake g) g = g.
Proof. now destruct g. Qed.

(** C4.  While the invulnerability timer is positive, [applyDamage]
    returns 0 and changes nothing, and neither damage pass touches the
    combo or the damage flag.  Otherwise, for an amount [a >= 0] and a
    shield within its bounds: the shield absorbs [min(shield, a)], health
    loses the rest, the timer is set to 0.2, and the value returned is [a],
    which is positive exactly when a resource changed; the damage passes
    reset the combo and set the damage flag exactly when it is positive. *)
Theorem applyDamage_resolution (a : Q) (s : Snake.t) :
  0 <= a -> 0 <= Snake.shield s ->
  let r := Snake.applyDamage a s in
  (0 < Snake.invulnTimer s ->
   r = (0, s) /\
   (forall dt g e, snake g = s -> contact dt g e = g) /\
   (forall g p, snake g = s -> snd (enemyProjectileHit p g) = g)) /\
  (Snake.invulnTimer s <= 0 ->
   fst r = a /\
   Snake.shield (snd r) == Snake.shield s - Qmin (Snake.shield s) a /\
   Snake.health (snd r) == Snake.health s - (a - Qmin (Snake.shield s) a) /\
   Snake.invulnTimer (snd r) = (2#10) /\
   (0 < fst r <->
    ~ (Snake.shield (snd r) == Snake.shield s /\
       Snake.health (snd r) == Snake.health s)) /\
   (forall g p,
       snake g = s -> Projectile.alive p = true ->
       distance (Projectile.x p) (Projectile.y p) (headX g) (headY g)
       < Projectile.radius p + 10 ->
       Projectile.damage p = a ->
       let g' := snd (enemyProjectileHit p g) in
       snake g' = snd r /\
       (0 < a -> combo g' = 1 /\ tookDamageThisLevel g' = true) /\
       (a == 0 -> combo g' = combo g /\
                  tookDamageThisLevel g' = tookDamageThisLevel g)) /\
   (forall dt g e,
       snake g = s -> Enemy.alive e = true ->
       distance (Enemy.x e) (Enemy.y e) (headX g) (headY g)
       < Enemy.radius e + 11 ->
       Enemy.contactDamage e * dt * (35#10) = a ->
       let g' := contact dt g e in
       snake g' = snd r /\
       (0 < a -> combo g' = 1 /\ tookDamageThisLevel g' = true) /\
       (a == 0 -> combo g' = combo g /\
                  tookDamageThisLevel g' = tookDamageThisLevel g))).
Proof.
  intros A S r. split.
  - intro I. subst r. rewrite (applyDamage_invulnerable _ _ I).
    split; [reflexivity|]. split.
    + intros dt g e <-. unfold contact.
      rewrite (applyDamage_invulnerable _ _ I).
      destruct (Enemy.alive e && _); [|reflexivity].
      cbn. apply set_snake_self.
    + intros g p <-. unfold enemyProjectileHit.
      rewrite (applyDamage_invulnerable _ _ I).
      destruct (Projectile.alive p && _); [|reflexivity].
      cbn. apply set_snake_self.
  - intro I. subst r.
    destruct (applyDamage_lands _ I A S) as (E1 & E2 & _ & E3).
    pose proof (applyDamage_returns a _ I) as E0.
    split; [exact E0|]. split; [exact E1|]. split; [exact E2|].
    split; [exact E3|]. split; [|split].
    + rewrite E0. split.
      * intros P [C1 C2]. rewrite C1 in E1. rewrite C2 in E2.
        destruct (Qmin_cases (Snake.shield s) a) as [[? M]|[? M]]; lra.
      * intro N. destruct (Qlt_le_dec 0 a) as [|L]; [assumption|].
        exfalso. apply N.
        destruct (Qmin_cases (Snake.shield s) a) as [[? M]|[? M]];
          split; lra.
    + intros g p <- Al D Dm g'. subst g'. unfold enemyProjectileHit.
      rewrite Al, (proj2 (Qltb_true _ _) D), Dm. cbn [andb snd].
      unfold Qgtb. rewrite E0. split; [now ifs|]. split.
      * intro P. rewrite (proj2 (Qltb_true _ _) P). now cbn.
      * intro Z. assert (L : a <= 0) by lra.
        rewrite (proj2 (Qltb_false _ _) L). now cbn.
    + intros dt g e <- Al D Dm g'. subst g'. unfold contact.
      rewrite Al, (proj2 (Qltb_true _ _) D), Dm. cbn [andb]. cbv zeta.
      unfold Qgtb. rewrite E0. split; [now ifs|]. split.
      * intro P. rewrite (proj2 (Qltb_true _ _) P). now cbn.
      * intro Z. assert (L : a <= 0) by lra.
        rewrite (proj2 (Qltb_false _ _) L). now cbn.
Qed.

(* ------------------------------------------------------------------ *)
(** ** Mine detonation (C5) *)






(* ------------------------------------------------------------------ *)
(** ** Scoring and level-up (C6) *)

Lemma fold_reward_shift (ms : list Mission.t) (acc : Q) :
  fold_left (fun sum m => sum + Mission.reward m) ms acc ==
  acc + fold_left (fun sum m => sum + Mission.reward m) ms 0.
Proof.
  revert acc. induction ms as [|m ms IH]; intro acc; cbn; [lra|].
  rewrite (IH (acc + Mission.reward m)), (IH (0 + Mission.reward m)). lra.
Qed.

Lemma rewardScore_sum ms : MissionSystem_rewardScore ms == sumRewards ms.
Proof.
  unfold MissionSystem_rewardScore.
  induction ms as [|m ms IH]; cbn; [reflexivity|].
  destruct (Mission.done m); [|exact IH].
  cbn. rewrite fold_reward_shift, IH. lra.
Qed.

(** C6.  A scoring event of base value [p] adds [round(p * combo)] to the
    score and [p] to the experience.  If the experience then reaches
    [450 + level * 170], the threshold is subtracted from it, the level
    goes up by one, the damage flag is cleared, the rewards of the done
    missions are added to the score, a new mission set is drawn from the
    pool (three missions when the new level is divisible by 3, two
    otherwise), [maxHealth] grows by 6, health by 18 up to the new
    [maxHealth], and the shield by 18 up to 120.  Otherwise nothing else
    changes. *)
Theorem gainScore_progression (p : Q) (g : Game.t) :
  let value := inject_Z (Math_round (p * combo g)) in
  let needed := inject_Z (450 + level g * 170) in
  let g' := Game_gainScore p g in
  score (Game_award p g) = score g + value /\
  xp (Game_award p g) = xp g + p /\
  (xp g + p < needed -> g' = Game_award p g) /\
  (needed <= xp g + p ->
   xp g' = xp g + p - needed /\
   level g' = (level g + 1)%Z /\
   tookDamageThisLevel g' = false /\
   score g' == score g + value + sumRewards (missions g) /\
   (exists bag : list Mission.t,
       Permutation pool bag /\
       missions g' =
       firstn (if (Z.rem (level g + 1) 3 =? 0)%Z then 3 else 2) bag) /\
   Snake.maxHealth (snake g') = Snake.maxHealth (snake g) + 6 /\
   Snake.health (snake g') =
   Qmin (Snake.maxHealth (snake g) + 6) (Snake.health (snake g) + 18) /\
   Snake.shield (snake g') = clamp (Snake.shield (snake g) + 18) 0 120).
Proof.
  intros value needed g'. split; [reflexivity|]. split; [reflexivity|].
  subst g'. unfold Game_gainScore, Game_levelUp. cbv zeta.
  change (xp (Game_award p g)) with (xp g + p).
  change (level (Game_award p g)) with (level g). fold needed.
  split; intro L.
  - unfold Qgeb. now rewrite (proj2 (Qleb_false _ _) L).
  - unfold Qgeb. rewrite (proj2 (Qleb_true _ _) L).
    cbn. repeat split.
    + fold (MissionSystem_rewardScore (missions g)).
      rewrite rewardScore_sum. reflexivity.
    + eexists. split; [apply sortRandom_perm | reflexivity].
Qed.

(* ------------------------------------------------------------------ *)
(** ** Time dilation (C7) *)

Ltac kept := unfold sameWorld, sameOwn; ifs; cbn; repeat split; reflexivity.

Lemma sameWorld_trans g1 g2 g3 : sameWorld g1 g2 -> sameWorld g2 g3 -> sameWorld g1 g3.
Proof. unfold sameWorld. intuition congruence. Qed.

Lemma sameOwn_trans g1 g2 g3 : sameOwn g1 g2 -> sameOwn g2 g3 -> sameOwn g1 g3.
Proof. unfold sameOwn. intuition congruence. Qed.

Lemma trail_world x y c g : sameWorld g (ParticleSystem_trail x y c g).
Proof. unfold ParticleSystem_trail. kept. Qed.

Lemma set_snake_world s g : sameWorld g (set_snake s g).
Proof. kept. Qed.

Lemma dash_world g : sameWorld g (Snake_dash g).
Proof. unfold Snake_dash, consumeKey, ParticleSystem_burst. kept. Qed.

Lemma temporal_world g : sameWorld g (Snake_temporal g).
Proof. unfold Snake_temporal, consumeKey, ParticleSystem_burst. kept. Qed.

Lemma mine_world g : sameWorld g (Snake_mine g).
Proof. unfold Snake_mine, consumeKey. kept. Qed.

Lemma fire_world g : sameWorld g (Snake_fire g).
Proof. unfold Snake_fire, consumeKey. kept. Qed.

Lemma Snake_update_world dt g : sameWorld g (Snake_update dt g).
Proof.
  unfold Snake_update.
  eapply sameWorld_trans; [|apply trail_world].
  eapply sameWorld_trans; [|apply set_snake_world].
  eapply sameWorld_trans; [|apply fire_world].
  eapply sameWorld_trans; [|apply mine_world].
  eapply sameWorld_trans; [|apply temporal_world].
  eapply sameWorld_trans; [|apply dash_world].
  apply set_snake_world.
Qed.

Lemma spawnEnemy_kept g :
  sameWorld g (Game_spawnEnemy g) /\ sameOwn g (Game_spawnEnemy g).
Proof. unfold Game_spawnEnemy. cbv zeta. split; kept. Qed.

Lemma spawnWave_kept g :
  sameOwn g (Game_spawnWave g) /\
  waveTime (Game_spawnWave g) = waveTime g /\
  coreSpawnTimer (Game_spawnWave g) = coreSpawnTimer g /\
  (0 < spawnTimer g -> spawnTimer (Game_spawnWave g) = spawnTimer g).
Proof.
  unfold Game_spawnWave. cbv zeta.
  destruct (Qleb (spawnTimer g) 0) eqn:E;
    [|unfold sameOwn; now repeat split].
  apply Qleb_true in E.
  set (g1 := set_rng _ _).
  assert (K : sameOwn g (repeatN (if (level g1 >=? 6)%Z then 2%nat else 1%nat)
                           Game_spawnEnemy g1) /\
              waveTime (repeatN (if (level g1 >=? 6)%Z then 2%nat else 1%nat)
                          Game_spawnEnemy g1) = waveTime g /\
              coreSpawnTimer (repeatN (if (level g1 >=? 6)%Z then 2%nat else 1%nat)
                                Game_spawnEnemy g1) = coreSpawnTimer g).
  { apply repeatN_state
      with (P := fun s => sameOwn g s /\ waveTime s = waveTime g /\
                          coreSpawnTimer s = coreSpawnTimer g).
    - intros s (O & W & C).
      destruct (spawnEnemy_kept s) as ((W1 & _ & C1) & O1).
      split; [eapply sameOwn_trans; eassumption | split; congruence].
    - subst g1. unfold sameOwn. cbn. now repeat split. }
  destruct K as (O & W & C). repeat split; try assumption; try apply O.
  intro P. lra.
Qed.

Lemma spawnPickup_kept g :
  sameOwn g (Game_spawnPickup g) /\
  waveTime (Game_spawnPickup g) = waveTime g /\
  spawnTimer (Game_spawnPickup g) = spawnTimer g /\
  (0 < coreSpawnTimer g -> coreSpawnTimer (Game_spawnPickup g) = coreSpawnTimer g).
Proof.
  unfold Game_spawnPickup, Game_spawnCore, sameOwn.
  destruct (Qleb (coreSpawnTimer g) 0) eqn:E; cbn [andb];
    [|now repeat split].
  apply Qleb_true in E.
  destruct (_ <? 9)%nat; cbn; repeat split; intro; lra.
Qed.

Lemma Enemy_update_kept dt e g :
  sameWorld g (snd (Enemy_update dt e g)) /\
  snake (snd (Enemy_update dt e g)) = snake g /\
  projectiles (snd (Enemy_update dt e g)) = projectiles g /\
  mines (snd (Enemy_update dt e g)) = mines g /\
  cores (snd (Enemy_update dt e g)) = cores g.
Proof.
  unfold Enemy_update, sameWorld. cbv zeta.
  destruct (Enemy.type e); ifs; cbn; repeat split; reflexivity.
Qed.

(** What the enemy loop leaves alone. *)
Lemma enemy_loop_kept dt es g :
  let g' := snd (forEach (Enemy_update dt) es g) in
  sameWorld g g' /\ snake g' = snake g /\ projectiles g' = projectiles g /\
  mines g' = mines g /\ cores g' = cores g.
Proof.
  cbv zeta.
  apply forEach_state
    with (P := fun s => sameWorld g s /\ snake s = snake g /\
                        projectiles s = projectiles g /\ mines s = mines g /\
                        cores s = cores g).
  - intros a s (W & S & P & M & C).
    destruct (Enemy_update_kept dt a s) as (W1 & S1 & P1 & M1 & C1).
    split; [eapply sameWorld_trans; eassumption|]. repeat split; congruence.
  - unfold sameWorld. now repeat split.
Qed.

Lemma advance_unfold dt g :
  Game_advance dt g = Game_entities dt (dt * slowFactor g) (beforeEntities dt g).
Proof. unfold Game_advance, beforeEntities. reflexivity. Qed.

Lemma entities_fields dt sdt g :
  let g' := Game_entities dt sdt g in
  let r := forEach (Enemy_update sdt) (enemies g) (set_cores (map (Core.update dt) (cores g)) g) in
  enemies g' = fst r /\
  enemyProjectiles g' = map (Projectile_update sdt) (enemyProjectiles (snd r)) /\
  projectiles g' = map (Projectile_update dt) (projectiles g) /\
  mines g' = map (Mine.update dt) (mines g) /\
  cores g' = map (Core.update dt) (cores g) /\
  snake g' = snake g /\ sameWorld g g'.
Proof.
  cbv zeta. unfold Game_entities. cbv zeta. cbn.
  destruct (enemy_loop_kept sdt (enemies g)
              (set_cores (map (Core.update dt) (cores g)) g))
    as (W & S & P & M & C).
  cbn in *. rewrite P, M, C, S. repeat split; apply W.
Qed.

Lemma beforeEntities_fields dt g :
  let gC := Game_clocks dt (dt * slowFactor g) g in
  let gB := beforeEntities dt g in
  sameOwn (Snake_update dt gC) gB /\
  waveTime gB = waveTime g + dt * slowFactor g /\
  (0 < spawnTimer g - dt * slowFactor g ->
   spawnTimer gB = spawnTimer g - dt * slowFactor g) /\
  (0 < coreSpawnTimer g - dt * slowFactor g ->
   coreSpawnTimer gB = coreSpawnTimer g - dt * slowFactor g).
Proof.
  cbv zeta. unfold beforeEntities.
  set (gC := Game_clocks dt (dt * slowFactor g) g).
  assert (C : waveTime gC = waveTime g + dt * slowFactor g /\
              spawnTimer gC = spawnTimer g - dt * slowFactor g /\
              coreSpawnTimer gC = coreSpawnTimer g - dt * slowFactor g).
  { subst gC. unfold Game_clocks. cbv zeta. now ifs. }
  destruct C as (C1 & C2 & C3).
  destruct (Snake_update_world dt gC) as (W1 & W2 & W3).
  destruct (spawnWave_kept (Snake_update dt gC)) as (O4 & W4 & C4 & S4).
  destruct (spawnPickup_kept (Game_spawnWave (Snake_update dt gC)))
    as (O5 & W5 & S5 & C5).
  split; [eapply sameOwn_trans; eassumption|].
  split; [congruence|]. split; intro P.
  - rewrite S5, S4; [congruence|]. rewrite W2, C2. exact P.
  - rewrite C5; [congruence|]. rewrite C4, W3, C3. exact P.
Qed.

Lemma consume_chain k (c : bool * Game.t) :
  snake (snd (if fst c then c else consumeKey k (snd c))) = snake (snd c).
Proof. now destruct (fst c). Qed.

Lemma fire_snake g :
  Snake.invulnTimer (snake (Snake_fire g)) = Snake.invulnTimer (snake g) /\
  Snake.temporalTime (snake (Snake_fire g)) = Snake.temporalTime (snake g).
Proof.
  unfold Snake_fire.
  set (c1 := consumeKey " " g).
  set (c2 := if fst c1 then c1 else consumeKey "space" (snd c1)).
  set (c3 := if fst c2 then c2 else consumeKey "spacebar" (snd c2)).
  assert (E : snake (snd c3) = snake g).
  { subst c3. rewrite consume_chain. subst c2. rewrite consume_chain.
    reflexivity. }
  cbv zeta. destruct (fst c3 && _); cbn; rewrite E; split; reflexivity.
Qed.

(** The snake that leaves the player's update is the one [Snake_move]
    returns. *)
Lemma Snake_update_snake dt g :
  exists s, snake (Snake_update dt g) = Snake_move dt s /\
            Snake.invulnTimer s = Snake.invulnTimer (snake g) - dt /\
            (Snake.temporalTime s = (22#10) \/
             Snake.temporalTime s =
             if Qgtb (Snake.temporalTime (snake g)) 0
             then Snake.temporalTime (snake g) - dt
             else Snake.temporalTime (snake g)).
Proof.
  set (s1 := Snake_timers dt (Snake_turn dt (Snake_setAimFromInput (input g) (snake g)))).
  set (g1 := set_snake s1 g).
  assert (A : Snake.invulnTimer (Snake_setAimFromInput (input g) (snake g))
               = Snake.invulnTimer (snake g) /\
               Snake.temporalTime (Snake_setAimFromInput (input g) (snake g))
               = Snake.temporalTime (snake g)).
  { unfold Snake_setAimFromInput. destruct (negb _ || negb _); now split. }
  assert (T1 : Snake.invulnTimer s1 = Snake.invulnTimer (snake g) - dt /\
               Snake.temporalTime s1 =
               if Qgtb (Snake.temporalTime (snake g)) 0
               then Snake.temporalTime (snake g) - dt
               else Snake.temporalTime (snake g)).
  { destruct A as (A1 & A2). rewrite <- A1, <- A2. subst s1.
    generalize (Snake_setAimFromInput (input g) (snake g)). intro s0.
    unfold Snake_timers, Snake_turn. cbv zeta. cbn.
    destruct (Qgtb (Snake.dashTime s0) 0); cbn;
      destruct (Qgtb (Snake.temporalTime s0) 0); cbn; now split. }
  assert (D : forall g0,
             Snake.invulnTimer (snake (Snake_dash g0)) = Snake.invulnTimer (snake g0) /\
             Snake.temporalTime (snake (Snake_dash g0)) = Snake.temporalTime (snake g0))
    by (intro; unfold Snake_dash; cbv zeta;
        destruct (fst (consumeKey "shift" g0) && _); cbn; split; reflexivity).
  assert (T : forall g0,
             Snake.invulnTimer (snake (Snake_temporal g0)) = Snake.invulnTimer (snake g0) /\
             (Snake.temporalTime (snake (Snake_temporal g0)) = (22#10) \/
              Snake.temporalTime (snake (Snake_temporal g0)) = Snake.temporalTime (snake g0)))
    by (intro; unfold Snake_temporal; cbv zeta;
        destruct (fst (consumeKey "e" g0) && _); cbn; split; auto).
  assert (M : forall g0,
             Snake.invulnTimer (snake (Snake_mine g0)) = Snake.invulnTimer (snake g0) /\
             Snake.temporalTime (snake (Snake_mine g0)) = Snake.temporalTime (snake g0))
    by (intro; unfold Snake_mine; cbv zeta;
        destruct (fst (consumeKey "q" g0) && _); cbn; split; reflexivity).
  assert (F : forall g0,
             Snake.invulnTimer (snake (Snake_fire g0)) = Snake.invulnTimer (snake g0) /\
             Snake.temporalTime (snake (Snake_fire g0)) = Snake.temporalTime (snake g0))
    by (intro; apply fire_snake).
  exists (snake (Snake_fire (Snake_mine (Snake_temporal (Snake_dash g1))))).
  split; [reflexivity|].
  destruct (F (Snake_mine (Snake_temporal (Snake_dash g1)))) as (F1 & F2).
  destruct (M (Snake_temporal (Snake_dash g1))) as (M1 & M2).
  destruct (T (Snake_dash g1)) as (T2 & T3).
  destruct (D g1) as (D1 & D2).
  destruct T1 as (I1 & I2).
  split; [rewrite F1, M1, T2, D1; exact I1|].
  rewrite F2, M2.
  destruct T3 as [T3 | T3]; [left; exact T3 | right].
  rewrite T3, D2. exact I2.
Qed.

Lemma Snake_move_speed dt s :
  Snake.speed (Snake_move dt s) ==
  (Snake.baseSpeed s + inject_Z (Snake.length s - 18) * (35#100))
  * (if Qgtb (Snake.dashTime s) 0 then (26#10) else 1)
  * (if Qgtb (Snake.temporalTime s) 0 then (13#10) else 1) /\
  Snake.temporalTime (Snake_move dt s) = Snake.temporalTime s /\
  Snake.dashTime (Snake_move dt s) = Snake.dashTime s /\
  Snake.invulnTimer (Snake_move dt s) = Snake.invulnTimer s /\
  Snake.head (Snake_move dt s) =
  Vec.mk
    (wrap (Vec.x (Snake.head s)
           + Vec.x (Snake.dir s) * Snake.speed (Snake_move dt s) * dt) WORLD_width)
    (wrap (Vec.y (Snake.head s)
           + Vec.y (Snake.dir s) * Snake.speed (Snake_move dt s) * dt) WORLD_height).
Proof.
  unfold Snake_move. cbv zeta. cbn.
  destruct (Qgtb (Snake.dashTime s) 0), (Qgtb (Snake.temporalTime s) 0);
    repeat split; lra.
Qed.

(** What one update does to a hostile entity, for whatever delta it is
    given. *)
Lemma Enemy_update_moves d e g :
  let e' := fst (Enemy_update d e g) in
  Enemy.x e' = clamp (Enemy.x e + Enemy.vx e' * d) (Enemy.radius e)
                 (WORLD_width - Enemy.radius e) /\
  Enemy.y e' = clamp (Enemy.y e + Enemy.vy e' * d) (Enemy.radius e)
                 (WORLD_height - Enemy.radius e) /\
  (Enemy.type e = sniper \/ Enemy.type e = boss ->
   0 < Enemy.fireCooldown e - d ->
   Enemy.fireCooldown e' = Enemy.fireCooldown e - d).
Proof.
  cbv zeta. unfold Enemy_update. cbv zeta.
  destruct (Enemy.type e);
    try (repeat split; try reflexivity; intros [?|?]; discriminate).
  - destruct (Qleb (Enemy.fireCooldown e - d) 0) eqn:E;
      repeat split; try reflexivity; intros _ P;
      apply Qleb_true in E; lra.
  - destruct (Qleb (Enemy.fireCooldown e - d) 0) eqn:E;
      repeat split; try reflexivity; intros _ P;
      apply Qleb_true in E; lra.
Qed.

(** C7, as amended.  With [k = 0.5] when the burst timer is positive at
    the start of the tick and [k = 1] otherwise, the part of a tick that
    precedes the collisions adds [dt * k] to the wave clock, takes
    [dt * k] off both spawn timers (which keep that value unless they ran
    out), updates every enemy and every enemy projectile with [dt * k],
    and hands the undilated [dt] to the player's update, the player's
    projectiles, the mines and, at the end of the tick, the particles.  An
    update with delta [d] moves a hostile entity by its velocity times [d]
    and takes [d] off its timers.  The player's speed carries the factor
    1.3 exactly when the burst timer is positive after the player's own
    update of that tick, where it is 2.2 if the burst was just triggered
    and the old value less [dt] if it was running. *)
Theorem time_dilation (dt : Q) (g : Game.t) :
  let d := dt * slowFactor g in
  let gP := Snake_update dt (Game_clocks dt d g) in
  let gB := beforeEntities dt g in
  let loop := forEach (Enemy_update d) (enemies gB)
                (set_cores (map (Core.update dt) (cores gB)) gB) in
  let gA := Game_advance dt g in
  ((0 < Snake.temporalTime (snake g) -> slowFactor g = (5#10)) /\
   (Snake.temporalTime (snake g) <= 0 -> slowFactor g = 1 /\ d == dt)) /\
  (waveTime gA = waveTime g + d /\
   (0 < spawnTimer g - d -> spawnTimer gA = spawnTimer g - d) /\
   (0 < coreSpawnTimer g - d -> coreSpawnTimer gA = coreSpawnTimer g - d)) /\
  (enemies gA = fst loop /\
   enemyProjectiles gA = map (Projectile_update d) (enemyProjectiles (snd loop))) /\
  (snake gA = snake gP /\
   projectiles gA = map (Projectile_update dt) (projectiles gP) /\
   mines gA = map (Mine.update dt) (mines gP)) /\
  (forall g1, particles (Game_settle dt g1)
              = ParticleSystem_update dt (particles g1)) /\
  (state g = running ->
   Game_update dt g = Game_settle dt (Game_handleCollisions dt gA)) /\
  (forall x e g0,
      let e' := fst (Enemy_update x e g0) in
      Enemy.x e' = clamp (Enemy.x e + Enemy.vx e' * x) (Enemy.radius e)
                     (WORLD_width - Enemy.radius e) /\
      Enemy.y e' = clamp (Enemy.y e + Enemy.vy e' * x) (Enemy.radius e)
                     (WORLD_height - Enemy.radius e) /\
      (Enemy.type e = sniper \/ Enemy.type e = boss ->
       0 < Enemy.fireCooldown e - x ->
       Enemy.fireCooldown e' = Enemy.fireCooldown e - x)) /\
  (forall x p,
      Projectile.x (Projectile_update x p) = Projectile.x p + Projectile.vx p * x /\
      Projectile.y (Projectile_update x p) = Projectile.y p + Projectile.vy p * x /\
      Projectile.ttl (Projectile_update x p) = Projectile.ttl p - x) /\
  (forall x m,
      Mine.armTime (Mine.update x m) = Mine.armTime m - x /\
      Mine.ttl (Mine.update x m) = Mine.ttl m - x) /\
  (forall x p, Particle.life (fst (Particle.update x p)) = Particle.life p - x) /\
  (Snake.invulnTimer (snake gP) = Snake.invulnTimer (snake g) - dt /\
   Snake.speed (snake gP) ==
   (Snake.baseSpeed (snake gP) + inject_Z (Snake.length (snake gP) - 18) * (35#100))
   * (if Qgtb (Snake.dashTime (snake gP)) 0 then (26#10) else 1)
   * (if Qgtb (Snake.temporalTime (snake gP)) 0 then (13#10) else 1) /\
   (Snake.temporalTime (snake gP) = (22#10) \/
    Snake.temporalTime (snake gP) =
    if Qgtb (Snake.temporalTime (snake g)) 0
    then Snake.temporalTime (snake g) - dt
    else Snake.temporalTime (snake g))).
Proof.
  intros d gP gB loop gA.
  destruct (beforeEntities_fields dt g) as ((O1 & O2 & O3) & W1 & W2 & W3).
  fold d gP gB in O1, O2, O3, W1, W2, W3.
  destruct (entities_fields dt d gB) as (E1 & E2 & E3 & E4 & _ & E6 & (V1 & V2 & V3)).
  fold loop in E1, E2.
  assert (A : gA = Game_entities dt d gB) by apply advance_unfold.
  rewrite <- A in *.
  split; [|split; [|split; [|split; [|split; [|split; [|split;
    [|split; [|split; [|split]]]]]]]]].
  - unfold slowFactor, Qgtb. split; intro T.
    + now rewrite (proj2 (Qltb_true _ _) T).
    + subst d. unfold slowFactor, Qgtb. rewrite (proj2 (Qltb_false _ _) T).
      split; [reflexivity | lra].
  - split; [congruence|]. split; intro P; [rewrite V2 | rewrite V3]; auto.
  - now split.
  - repeat split; congruence.
  - intro g1. unfold Game_settle, MissionSystem_update. cbv zeta. now ifs.
  - intro R. unfold Game_update. rewrite R. reflexivity.
  - intros x e g0. apply Enemy_update_moves.
  - intros x p. now repeat split.
  - intros x m. now split.
  - reflexivity.
  - destruct (Snake_update_snake dt (Game_clocks dt d g)) as (s & S1 & S2 & S3).
    fold gP in S1.
    destruct (Snake_move_speed dt s) as (M1 & M2 & M3 & M4 & _).
    assert (C : snake (Game_clocks dt d g) = snake g)
      by (unfold Game_clocks; cbv zeta; now ifs).
    rewrite C in S2, S3. rewrite S1.
    split; [congruence|]. split.
    + rewrite M1, M2, M3. unfold Snake_move. cbv zeta. cbn. reflexivity.
    + rewrite M2. exact S3.
Qed.

(* ------------------------------------------------------------------ *)
(** ** Terminal missions (C2) *)

(** [Mission.update] and [Mission.inc] leave a terminal mission alone. *)
Lemma terminal_update_inc (m : Mission.t) (dt a : Q) :
  Mission.done m || Mission.failed m = true ->
  Mission.update dt m = m /\ Mission.inc a m = m.
Proof. intro T. unfold Mission.update, Mission.inc. now rewrite T. Qed.

(** The passive branch of [MissionSystem.update] does not look at the
    flags: a no-damage mission whose timer runs out in a tick without
    damage is failed by [Mission.update] and then marked done. *)
Lemma noHit_done_and_failed (m : Mission.t) (dt tm : Q) (tier : Z) :
  Mission.type m = secondsNoHit ->
  Mission.done m = false -> Mission.failed m = false ->
  Mission.timer m = Some tm -> Mission.maxTimer m = Some (Mission.target m) ->
  tm <= dt -> Mission.progress m < Mission.target m -> 0 <= Mission.target m ->
  let m' := MissionSystem_step dt false tier m in
  Mission.failed m' = true /\ Mission.done m' = true /\
  Mission.progress m' == Mission.target m.
Proof.
  intros Ty D F Tm Mx L P T0. unfold MissionSystem_step, Mission.update.
  rewrite D, F, Tm. cbn [orb]. cbv zeta. cbn.
  rewrite Ty, Mx. cbn.
  assert (L1 : tm - dt <= 0) by lra.
  rewrite (proj2 (Qleb_true _ _) L1), (proj2 (Qltb_true _ _) P). cbn.
  assert (C : clamp (Mission.target m - (tm - dt)) 0 (Mission.target m)
              == Mission.target m) by (minmax; lra).
  unfold Qgeb.
  assert (G : Mission.target m
              <= clamp (Mission.target m - (tm - dt)) 0 (Mission.target m))
    by (rewrite C; lra).
  rewrite (proj2 (Qleb_true _ _) G). cbn. now repeat split.
Qed.

End Properties.

(* ------------------------------------------------------------------ *)
(** ** The theorems on concrete states *)

Section Examples.
#[local] Existing Instance RationalHost.host.

Lemma fresh_reachable : reachable fresh.
Proof. apply reach_start, reach_new. Qed.

(** C1, counterexample.  A state within the stated bounds whose next tick
    ends with health at -7: [applyDamage] subtracts what the shield did
    not absorb and does not clamp. *)
Lemma lethal_hit_leaves_health_negative :
  ClaimedBounds wounded /\
  Snake.health (snake (Game_frame 16 wounded)) == -7 /\
  state (Game_frame 16 wounded) = gameover.
Proof.
  vm_compute. repeat split; try reflexivity; discriminate.
Qed.

(** C1, witness: the first frame of a fresh match. *)
Lemma resources_bounded_witness :
  PlayerBounds fresh /\ PlayerBounds (Game_frame 16 fresh) /\
  (Snake.health (snake (Game_frame 16 fresh)) <= 0 ->
   state (Game_frame 16 fresh) = gameover).
Proof. exact (resources_bounded fresh_reachable 16). Defined.

(** C4, witness: 12 damage against 10 shield lands as 10 on the shield
    and 2 on health; the same hit on an invulnerable snake does nothing. *)
Lemma applyDamage_resolution_witness :
  Snake.applyDamage 12 flashing = (0, flashing) /\
  fst (Snake.applyDamage 12 shielded) = 12 /\
  Snake.shield (snd (Snake.applyDamage 12 shielded)) == 0 /\
  Snake.health (snd (Snake.applyDamage 12 shielded)) == 98 /\
  Snake.invulnTimer (snd (Snake.applyDamage 12 shielded)) = (2#10).
Proof.
  assert (A : 0 <= 12) by (vm_compute; discriminate).
  assert (S : 0 <= Snake.shield shielded) by (vm_compute; discriminate).
  assert (I : 0 < Snake.invulnTimer flashing) by reflexivity.
  assert (N : Snake.invulnTimer shielded <= 0) by (vm_compute; discriminate).
  destruct (@applyDamage_resolution _ 12 flashing A S) as [F _].
  destruct (@applyDamage_resolution _ 12 shielded A S) as [_ L].
  destruct (F I) as (E & _).
  destruct (L N) as (E0 & E1 & E2 & E3 & _).
  split; [exact E|]. split; [exact E0|].
  split; [rewrite E1; reflexivity|]. split; [rewrite E2; reflexivity|].
  exact E3.
Defined.


(** C6, witness: 25 points at combo 1 make 25 score and 625 experience,
    which is a level-up: 5 experience carried over, level 2, two missions
    drawn, 106 maximal health, 18 shield. *)
Lemma gainScore_progression_witness :
  let g' := Game_gainScore 25 nearLevelUp in
  xp g' = 600 + 25 - inject_Z (450 + 1 * 170) /\
  level g' = 2%Z /\ tookDamageThisLevel g' = false /\
  score g' == 25 /\ List.length (missions g') = 2%nat /\
  Snake.maxHealth (snake g') = 100 + 6 /\
  Snake.shield (snake g') = clamp (0 + 18) 0 120.
Proof.
  destruct (gainScore_progression 25 nearLevelUp) as (_ & _ & _ & U).
  assert (N : inject_Z (450 + level nearLevelUp * 170) <= xp nearLevelUp + 25)
    by (vm_compute; discriminate).
  destruct (U N) as (X & L & F & Sc & (bag & _ & M) & H & _ & Sh).
  cbv zeta. split; [exact X|]. split; [exact L|]. split; [exact F|].
  split; [rewrite Sc; reflexivity|].
  split; [vm_compute; reflexivity|]. split; [exact H | exact Sh].
Defined.

(** C7, counterexample.  The burst timer is positive at the start of the
    tick, so the world runs at half rate (the wave clock gains 8 ms of the
    16), but the player's update has the timer run out before it computes
    the speed, which is the plain 170 and not 221.  The other way round
    in the tick that triggers the burst: the speed is 221 and the wave
    clock gains the full 16 ms. *)
Lemma burst_windows_offset_by_one_tick :
  (0 < Snake.temporalTime (snake burstEnding) /\
   waveTime (Game_frame 16 burstEnding) == (8#1000) /\
   Snake.speed (snake (Game_frame 16 burstEnding)) == 170) /\
  (0 < Snake.temporalTime (snake (Game_frame 16 triggering)) /\
   waveTime (Game_frame 16 triggering) == (16#1000) /\
   Snake.speed (snake (Game_frame 16 triggering)) == 221).
Proof. vm_compute. repeat split; reflexivity. Qed.

(** C7, witness: a tick of 16 ms in the middle of a burst. *)
Lemma time_dilation_witness :
  slowFactor bursting = (5#10) /\
  waveTime (Game_advance (16#1000) bursting)
  = waveTime bursting + (16#1000) * slowFactor bursting /\
  Game_update (16#1000) bursting
  = Game_settle (16#1000)
      (Game_handleCollisions (16#1000) (Game_advance (16#1000) bursting)).
Proof.
  destruct (time_dilation (16#1000) bursting)
    as ((B & _) & (W & _) & _ & _ & _ & R & _).
  split; [apply B; reflexivity|]. split; [exact W | apply R; reflexivity].
Defined.

(** C8, witness: the spawn at level 4 is a boss, and a spawn window of a
    fresh match leaves at most one. *)
Lemma boss_gating_witness :
  (exists e : Enemy.t,
      enemies (Game_spawnEnemy bossLevel) = enemies bossLevel ++ [e] /\
      Enemy.type e = boss) /\
  (bossCount (enemies (Game_spawnWave fresh)) <= 1)%nat.
Proof.
  destruct (boss_gating bossLevel) as ((e & E & B & _) & _).
  destruct (boss_gating fresh) as (_ & R).
  split; [exists e; split; [exact E | apply B; reflexivity] |].
  apply (R fresh_reachable).
Defined.

(** C10, witness: the fresh match drew the combo mission, and after a
    frame it is neither done nor failed. *)
Lemma comboPeak_never_completes_witness :
  (comboTier (Game_frame 16 fresh) <= 6)%Z /\
  exists m : Mission.t,
    In m (missions (Game_frame 16 fresh)) /\ Mission.type m = comboPeak /\
    Mission.target m = 10 /\
    Mission.done m = false /\ Mission.failed m = false.
Proof.
  destruct (comboPeak_never_completes (reach_frame 16 fresh_reachable)) as (T & M).
  split; [exact T|].
  exists (Mission.mk "combo" "Reach combo x10" 10 comboPeak 1 false false None None 180).
  assert (I : In (Mission.mk "combo" "Reach combo x10" 10 comboPeak 1 false false
                    None None 180)
                 (missions (Game_frame 16 fresh)))
    by (vm_compute; left; reflexivity).
  destruct (M _ I eq_refl) as (Tg & _ & _ & D & F).
  split; [exact I|]. split; [reflexivity|]. split; [exact Tg|].
  split; [exact D | exact F].
Defined.

(** C2, the failing input.  One frame of 20 ms later the mission is both
    failed and done, its progress has moved after [failed] was set, and
    [rewardScore] pays it; [Mission.update] and [Mission.inc], which do
    check the flags, leave it alone from then on. *)
Theorem noHit_mission_ends_failed_and_done :
  map (fun m => (Mission.failed m, Mission.done m, Qred (Mission.progress m)))
      (missions (Game_frame 20 untouched))
  = [(true, true, 30)] /\
  MissionSystem_rewardScore (missions (Game_frame 20 untouched)) == 180 /\
  Mission.failed (MissionSystem_step (2#100) false 1 almostThere) = true /\
  Mission.done (MissionSystem_step (2#100) false 1 almostThere) = true /\
  Mission.update (2#100) (MissionSystem_step (2#100) false 1 almostThere)
  = MissionSystem_step (2#100) false 1 almostThere /\
  Mission.inc 1 (MissionSystem_step (2#100) false 1 almostThere)
  = MissionSystem_step (2#100) false 1 almostThere.
Proof.
  split; [vm_compute; reflexivity|]. split; [vm_compute; reflexivity|].
  assert (L : (1#100) <= (2#100)) by (vm_compute; discriminate).
  assert (P : Mission.progress almostThere < Mission.target almostThere)
    by reflexivity.
  assert (T : 0 <= Mission.target almostThere) by (vm_compute; discriminate).
  destruct (@noHit_done_and_failed almostThere (2#100) (1#100) 1
              eq_refl eq_refl eq_refl eq_refl eq_refl L P T) as (F & D & _).
  split; [exact F|]. split; [exact D|].
  apply terminal_update_inc. now rewrite D.
Qed.

End Examples.

(* ------------------------------------------------------------------ *)
(** ** Case analysis *)

(** Case analysis on every conditional of the goal. *)
Ltac branches :=
  repeat match goal with
    | |- context [if ?c then _ else _] => destruct c eqn:?
    end.

Lemma clamp_cases v lo hi :
  lo <= hi ->
  (v <= lo /\ clamp v lo hi == lo) \/
  (lo <= v /\ v <= hi /\ clamp v lo hi == v) \/
  (hi <= v /\ clamp v lo hi == hi).
Proof.
  intro L.
  destruct (Qlt_le_dec v lo) as [A | A]; [left; split; [lra|]; minmax; lra|].
  destruct (Qlt_le_dec hi v) as [B | B];
    [right; right | right; left; split; [exact A|]]; split; try lra;
    minmax; lra.
Qed.

(** Replace every [clamp] of the goal, innermost first, by a fresh
    variable with its three cases. *)
Ltac clamps :=
  repeat match goal with
    | |- context [clamp ?v ?lo ?hi] =>
        lazymatch v with context [clamp _ _ _] => fail | _ => idtac end;
        let c := fresh "c" in
        let L := fresh "L" in
        assert (L : lo <= hi) by lra;
        destruct (clamp_cases v L) as [(? & ?) | [(? & ? & ?) | (? & ?)]];
        set (c := clamp v lo hi) in *; clearbody c; clear L
    end.

Section Further.
Context {host : Host}.

(* ------------------------------------------------------------------ *)
(** ** The input manager *)

Lemma has_delete_same k l :
  InputManager.has k (InputManager.delete k l) = false.
Proof.
  unfold InputManager.has, InputManager.delete.
  induction l as [|a l IH]; cbn; [reflexivity|].
  destruct (String.eqb k a) eqn:E; cbn; [assumption | now rewrite E].
Qed.

Lemma has_delete_other k k' l :
  k' <> k ->
  InputManager.has k' (InputManager.delete k l) = InputManager.has k' l.
Proof.
  intro N. unfold InputManager.has, InputManager.delete.
  induction l as [|a l IH]; cbn; [reflexivity|].
  destruct (String.eqb k a) eqn:E; cbn.
  - apply String.eqb_eq in E. subst a.
    now rewrite (proj2 (String.eqb_neq k' k) N).
  - now rewrite IH.
Qed.

Lemma has_add_same k l : InputManager.has k (InputManager.add k l) = true.
Proof.
  unfold InputManager.add. destruct (InputManager.has k l) eqn:E; [exact E|].
  unfold InputManager.has. rewrite existsb_app. cbn.
  rewrite String.eqb_refl. now rewrite orb_true_r.
Qed.

(** X1 ([InputManager.consume], lines 71-76).  For key names in the
    ASCII range: [consume] reads its key in lower case.  It answers
    whether that key is in the just-pressed set; after it, a [consume]
    of the same key, or of the same key in another case, answers no; the
    set of held keys is not touched; and what [consume] answers for a
    key whose lower case is another is not affected. *)
Theorem consume_is_one_shot (key : string) (i : InputManager.t) :
  asciiKey key = true ->
  let k := InputManager.toLowerCase key in
  let r := InputManager.consume key i in
  fst r = InputManager.has k (InputManager.justPressed i) /\
  InputManager.keys (snd r) = InputManager.keys i /\
  (forall key', asciiKey key' = true -> InputManager.toLowerCase key' = k ->
     fst (InputManager.consume key' (snd r)) = false) /\
  (forall key', asciiKey key' = true -> InputManager.toLowerCase key' <> k ->
     fst (InputManager.consume key' (snd r)) = fst (InputManager.consume key' i)).
Proof.
  intros _. cbv zeta. unfold InputManager.consume. cbn [fst snd].
  destruct (InputManager.has (InputManager.toLowerCase key)
              (InputManager.justPressed i)) eqn:E;
    cbn [InputManager.keys InputManager.justPressed].
  - split; [reflexivity|]. split; [reflexivity|]. split.
    + intros key' _ L. rewrite L. apply has_delete_same.
    + intros key' _ N. now apply has_delete_other.
  - split; [reflexivity|]. split; [reflexivity|]. split.
    + intros key' _ L. now rewrite L.
    + reflexivity.
Qed.

(** X2 (the [keydown] and [keyup] listeners, lines 48-64, with
    [consume] and [endFrame]).  For a key name in the ASCII range, which
    the listeners lower-case as [consume] does: a key that is not held,
    pressed and released before the next frame, is no longer down, and
    [consume] delivers it, once; two such taps of the same key before
    the next frame are delivered as one.  A [keydown] for a key that is
    held changes nothing, so a key that stays down is not delivered
    again.  [endFrame] discards every press that was not consumed. *)
Theorem taps_and_held_keys (key : string) (i : InputManager.t) :
  asciiKey key = true ->
  let k := InputManager.toLowerCase key in
  (InputManager.has k (InputManager.keys i) = false ->
   let tap := fun i => InputManager.keyup key (InputManager.keydown key i) in
   InputManager.isDown [k] (InputManager.keydown key i) = true /\
   InputManager.isDown [k] (tap i) = false /\
   fst (InputManager.consume key (tap i)) = true /\
   fst (InputManager.consume key (snd (InputManager.consume key (tap i)))) = false /\
   fst (InputManager.consume key (tap (tap i))) = true /\
   fst (InputManager.consume key (snd (InputManager.consume key (tap (tap i)))))
   = false) /\
  (InputManager.has k (InputManager.keys i) = true ->
   InputManager.keydown key i = i) /\
  fst (InputManager.consume key (InputManager.endFrame i)) = false.
Proof.
  intros _. cbv zeta. split; [|split].
  - intro H.
    assert (T : forall j,
               InputManager.has (InputManager.toLowerCase key)
                 (InputManager.keys j) = false ->
               InputManager.has (InputManager.toLowerCase key)
                 (InputManager.keys
                    (InputManager.keyup key (InputManager.keydown key j))) = false /\
               InputManager.has (InputManager.toLowerCase key)
                 (InputManager.justPressed
                    (InputManager.keyup key (InputManager.keydown key j))) = true).
    { intros j J. unfold InputManager.keyup, InputManager.keydown. cbv zeta.
      cbn [InputManager.keys InputManager.justPressed]. rewrite J.
      split; [apply has_delete_same | apply has_add_same]. }
    assert (C : forall j,
               InputManager.has (InputManager.toLowerCase key)
                 (InputManager.justPressed j) = true ->
               fst (InputManager.consume key j) = true /\
               fst (InputManager.consume key (snd (InputManager.consume key j)))
               = false).
    { intros j J. unfold InputManager.consume. cbv zeta. cbn [fst snd].
      rewrite J. cbn [InputManager.justPressed]. split; [reflexivity|].
      apply has_delete_same. }
    destruct (T i H) as (T1 & T2). destruct (T _ T1) as (_ & T3).
    destruct (C _ T2) as (C1 & C2). destruct (C _ T3) as (C3 & C4).
    split.
    { unfold InputManager.isDown, InputManager.keydown. cbv zeta.
      cbn [InputManager.keys existsb]. now rewrite has_add_same. }
    split.
    { unfold InputManager.isDown. cbn [existsb]. now rewrite T1. }
    repeat split; assumption.
  - intro H. unfold InputManager.keydown. cbv zeta. rewrite H.
    unfold InputManager.add. rewrite H. now destruct i.
  - reflexivity.
Qed.

(* ------------------------------------------------------------------ *)
(** ** The random helpers *)

(** The bounds of [randRange] and [randInt] over the rationals, where
    the upper bound of [randRange] is strict; in floating point the sum
    can round up to [max]. *)

Lemma randRange_bounds lo hi n :
  lo <= hi -> lo <= randRange lo hi n /\ randRange lo hi n <= hi.
Proof.
  intro L. unfold randRange.
  destruct (Math_random_range n) as (R0 & R1).
  split; nra.
Qed.

Lemma randRange_below lo hi n : lo < hi -> randRange lo hi n < hi.
Proof.
  intro L. unfold randRange.
  destruct (Math_random_range n) as (R0 & R1). nra.
Qed.

Lemma randInt_bounds lo hi n : (lo <= hi)%Z -> (lo <= randInt lo hi n <= hi)%Z.
Proof.
  intro L. unfold randInt, Math_floor.
  assert (L' : inject_Z lo < inject_Z (hi + 1)).
  { rewrite <- Zlt_Qlt. lia. }
  destruct (randRange_bounds n (Qlt_le_weak _ _ L')) as (B0 & _).
  pose proof (randRange_below n L') as B1.
  split.
  - apply Z.le_trans with (Qfloor (inject_Z lo));
      [rewrite Qfloor_Z; lia | now apply Qfloor_resp_le].
  - pose proof (Qfloor_le (randRange (inject_Z lo) (inject_Z (hi + 1)) n)) as F.
    assert (K : inject_Z (Qfloor (randRange (inject_Z lo) (inject_Z (hi + 1)) n))
                < inject_Z (hi + 1)) by lra.
    rewrite <- Zlt_Qlt in K. lia.
Qed.

(* ------------------------------------------------------------------ *)
(** ** Projectiles and mines on their own *)

(** X4 ([Projectile.update], lines 234-242).  After an update a
    projectile is alive exactly if it was alive, has time to live left,
    and is within 20 of the world on every side; it has moved by its
    velocity times the delta, and its damage is what it was. *)
Theorem projectile_expiry (dt : Q) (p : Projectile.t) :
  let p' := Projectile_update dt p in
  (Projectile.alive p' = true <->
   Projectile.alive p = true /\ 0 < Projectile.ttl p - dt /\
   (-20 <= Projectile.x p' /\ Projectile.x p' <= WORLD_width + 20) /\
   (-20 <= Projectile.y p' /\ Projectile.y p' <= WORLD_height + 20)) /\
  Projectile.x p' = Projectile.x p + Projectile.vx p * dt /\
  Projectile.y p' = Projectile.y p + Projectile.vy p * dt /\
  Projectile.ttl p' = Projectile.ttl p - dt /\
  Projectile.damage p' = Projectile.damage p.
Proof.
  cbv zeta. unfold Projectile_update. cbn.
  split; [|now repeat split].
  qcases;
    (split; [intro A | intros (A & T & (X0 & X1) & (Y0 & Y1))]);
    try discriminate; try lra; try exact A.
  repeat split; (exact A || lra).
Qed.

Lemma total_nonneg dts : Forall (fun dt => 0 <= dt) dts -> 0 <= total dts.
Proof.
  unfold total. induction 1 as [|dt dts P _ IH]; cbn in *; lra.
Qed.

Lemma elapse_fields dts : forall m,
  let m' := elapse dts m in
  Mine.armTime m' == Mine.armTime m - total dts /\
  Mine.ttl m' == Mine.ttl m - total dts /\
  Mine.x m' = Mine.x m /\ Mine.y m' = Mine.y m /\ Mine.radius m' = Mine.radius m.
Proof.
  unfold total, elapse. induction dts as [|dt dts IH]; intro m; cbn.
  - repeat split; lra.
  - destruct (IH (Mine.update dt m)) as (A & T & X & Y & R).
    cbn in *. repeat split; try assumption; lra.
Qed.

Lemma elapse_alive dts : forall m,
  Forall (fun dt => 0 <= dt) dts ->
  (Mine.alive (elapse dts m) = true ->
   Mine.alive m = true /\ (dts <> [] -> total dts < Mine.ttl m)) /\
  (Mine.alive m = true -> total dts < Mine.ttl m ->
   Mine.alive (elapse dts m) = true).
Proof.
  unfold elapse. induction dts as [|dt dts IH]; intros m F; cbn.
  - split; [intro A; split; [exact A | congruence] | auto].
  - inversion F as [|? ? P F']; subst.
    destruct (IH (Mine.update dt m) F') as (I1 & I2).
    pose proof (total_nonneg F') as N.
    unfold total in *. cbn in I1, I2. split.
    + intro A. destruct (I1 A) as (A1 & B).
      revert A1. qcase; intro A1; [discriminate|].
      split; [exact A1|]. intros _.
      destruct dts as [|d dts]; [cbn; lra|].
      assert (K : fold_right Qplus 0 (d :: dts) < Mine.ttl m - dt)
        by (apply B; discriminate).
      cbn in *. lra.
    + intros A L. apply I2; [|lra].
      qcase; [lra | exact A].
Qed.

(** X5 ([Mine.update] and the constructor, lines 256-270, with the arming
    test of line 980).  Over any run of updates with non-negative deltas
    the fuse and the lifetime of a mine both go down by the time elapsed,
    the mine stays where it is, it is alive afterwards exactly if it was
    alive and less than its lifetime has elapsed, and as long as less
    than its fuse has elapsed the detonation step does nothing with it. *)
Theorem mine_fuse_and_lifetime (dts : list Q) (m : Mine.t) :
  Forall (fun dt => 0 <= dt) dts ->
  let m' := elapse dts m in
  (Mine.armTime m' == Mine.armTime m - total dts /\
   Mine.ttl m' == Mine.ttl m - total dts /\
   Mine.x m' = Mine.x m /\ Mine.y m' = Mine.y m /\
   Mine.radius m' = Mine.radius m) /\
  (Mine.alive m' = true ->
   Mine.alive m = true /\ (dts <> [] -> total dts < Mine.ttl m)) /\
  (Mine.alive m = true -> total dts < Mine.ttl m -> Mine.alive m' = true) /\
  (total dts < Mine.armTime m -> forall g, mineStep m' g = (m', g)).
Proof.
  intros F. cbv zeta.
  pose proof (elapse_fields dts m) as E. cbv zeta in E.
  destruct (elapse_alive m F) as (A1 & A2).
  split; [exact E|]. split; [exact A1|]. split; [exact A2|].
  intros L g. destruct E as (E & _).
  unfold mineStep, Qgtb.
  assert (P : 0 < Mine.armTime (elapse dts m)) by lra.
  rewrite (proj2 (Qltb_true _ _) P). now rewrite orb_true_r.
Qed.

(* ------------------------------------------------------------------ *)
(** ** Enemies on their own *)

Lemma Enemy_update_keeps dt e g :
  let e' := fst (Enemy_update dt e g) in
  Enemy.type e' = Enemy.type e /\ Enemy.radius e' = Enemy.radius e /\
  Enemy.maxHealth e' = Enemy.maxHealth e /\ Enemy.health e' = Enemy.health e /\
  Enemy.speed e' = Enemy.speed e /\
  Enemy.contactDamage e' = Enemy.contactDamage e /\
  Enemy.alive e' = Enemy.alive e /\ Enemy.scoreValue e' = Enemy.scoreValue e /\
  Enemy.color e' = Enemy.color e.
Proof.
  cbv zeta. unfold Enemy_update. cbv zeta.
  destruct (Enemy.type e) eqn:T; branches; cbn; rewrite ?T; now repeat split.
Qed.

(** X6 ([Enemy.update], lines 350-413).  Whatever the archetype, an
    update only steers, moves and reloads: in a world at least as wide
    and as high as the enemy, the enemy ends within the world by its own
    radius on every side, and its type, radius, health, maximal health,
    speed, contact damage, score value and liveness are what they
    were. *)
Theorem enemy_update_stays_inside (dt : Q) (e : Enemy.t) (g : Game.t) :
  Enemy.radius e <= WORLD_width - Enemy.radius e ->
  Enemy.radius e <= WORLD_height - Enemy.radius e ->
  let e' := fst (Enemy_update dt e g) in
  (Enemy.radius e <= Enemy.x e' /\ Enemy.x e' <= WORLD_width - Enemy.radius e) /\
  (Enemy.radius e <= Enemy.y e' /\ Enemy.y e' <= WORLD_height - Enemy.radius e) /\
  Enemy.type e' = Enemy.type e /\ Enemy.radius e' = Enemy.radius e /\
  Enemy.maxHealth e' = Enemy.maxHealth e /\ Enemy.health e' = Enemy.health e /\
  Enemy.speed e' = Enemy.speed e /\
  Enemy.contactDamage e' = Enemy.contactDamage e /\
  Enemy.alive e' = Enemy.alive e /\ Enemy.scoreValue e' = Enemy.scoreValue e.
Proof.
  intros W H. cbv zeta.
  destruct (Enemy_update_moves dt e g) as (X & Y & _).
  destruct (Enemy_update_keeps dt e g) as (K1 & K2 & K3 & K4 & K5 & K6 & K7 & K8 & _).
  cbv zeta in *.
  split; [rewrite X; now apply clamp_range|].
  split; [rewrite Y; now apply clamp_range|].
  now repeat split.
Qed.

Lemma bossVolley_shape e :
  List.length (bossVolley e) = 12%nat /\
  Forall (fun p => Projectile.damage p = 10 /\ Projectile.x p = Enemy.x e /\
                   Projectile.y p = Enemy.y e /\ Projectile.ttl p = 3 /\
                   Projectile.alive p = true) (bossVolley e).
Proof.
  unfold bossVolley. split; [reflexivity|].
  repeat constructor.
Qed.

(** X7 (the firing branches of [Enemy.update], lines 381-403).  Runners,
    tanks and drones never fire and never touch the match; a sniper or a
    boss whose cooldown has not run out does not fire either.  A boss
    whose cooldown has run out adds one volley of twelve projectiles of
    damage 10 at its own position and reloads to 1.15; a sniper adds one
    projectile of damage 12 at its own position, reloads to a value from
    1.4 to 2.2, and draws 33 random values. *)
Theorem enemy_fire_discipline (dt : Q) (e : Enemy.t) (g : Game.t) :
  let r := Enemy_update dt e g in
  (Enemy.type e <> sniper -> Enemy.type e <> boss ->
   snd r = g /\ Enemy.fireCooldown (fst r) = Enemy.fireCooldown e) /\
  (0 < Enemy.fireCooldown e - dt -> snd r = g) /\
  (Enemy.type e = boss -> Enemy.fireCooldown e - dt <= 0 ->
   Enemy.fireCooldown (fst r) = (115#100) /\
   snd r = set_enemyProjectiles (enemyProjectiles g ++ bossVolley e) g /\
   List.length (bossVolley e) = 12%nat /\
   Forall (fun p => Projectile.damage p = 10 /\ Projectile.x p = Enemy.x e /\
                    Projectile.y p = Enemy.y e /\ Projectile.ttl p = 3 /\
                    Projectile.alive p = true) (bossVolley e)) /\
  (Enemy.type e = sniper -> Enemy.fireCooldown e - dt <= 0 ->
   ((14#10) <= Enemy.fireCooldown (fst r) /\ Enemy.fireCooldown (fst r) <= (22#10)) /\
   rng (snd r) = (rng g + 1 + 4 * 8)%nat /\
   exists p, enemyProjectiles (snd r) = enemyProjectiles g ++ [p] /\
             Projectile.damage p = 12 /\ Projectile.x p = Enemy.x e /\
             Projectile.y p = Enemy.y e /\ Projectile.ttl p = (26#10) /\
             Projectile.alive p = true).
Proof.
  cbv zeta. unfold Enemy_update. cbv zeta.
  split; [|split; [|split]].
  - intros N1 N2. destruct (Enemy.type e); try congruence; now split.
  - intro P. destruct (Enemy.type e); try reflexivity;
      (destruct (Qleb (Enemy.fireCooldown e - dt) 0) eqn:E; [|reflexivity];
       apply Qleb_true in E; lra).
  - intros T C. rewrite T. rewrite (proj2 (Qleb_true _ _) C). cbn.
    destruct (bossVolley_shape e) as (L & F). now repeat split.
  - intros T C. rewrite T. rewrite (proj2 (Qleb_true _ _) C). cbn.
    split; [apply randRange_bounds; lra|].
    split; [reflexivity|]. eexists. split; [reflexivity|]. now repeat split.
Qed.

(** X8 ([strike], the inner loop of lines 967-976).  A player projectile
    that overlaps no live enemy strikes nothing; otherwise it strikes
    the first live enemy it overlaps in list order, which takes the
    projectile's damage, and every other enemy is left as it was. *)
Theorem strike_hits_first_overlap (p : Projectile.t) (es : list Enemy.t) :
  (existsb (overlaps p) es = false -> strike p es = None) /\
  (existsb (overlaps p) es = true ->
   exists l1 e l2,
     es = l1 ++ e :: l2 /\ existsb (overlaps p) l1 = false /\
     overlaps p e = true /\
     strike p es = Some (l1 ++ Enemy.takeDamage (Projectile.damage p) e :: l2,
                         Enemy.takeDamage (Projectile.damage p) e)).
Proof.
  induction es as [|e es (IH0 & IH1)]; cbn [existsb strike].
  - split; [reflexivity | discriminate].
  - fold (overlaps p e). destruct (overlaps p e) eqn:O; cbn [orb].
    + split; [discriminate|]. intros _.
      exists [], e, es. now repeat split.
    + split.
      * intro N. now rewrite (IH0 N).
      * intro Y. destruct (IH1 Y) as (l1 & e0 & l2 & E & N & O0 & S).
        exists (e :: l1), e0, l2. rewrite S. cbn. rewrite O, N, E.
        now repeat split.
Qed.

(* ------------------------------------------------------------------ *)
(** ** The player on their own *)

(** X9 ([wrap], lines 691-694 of [Snake.update]).  A coordinate that
    leaves the world by less than the world's size comes back in on the
    opposite side, and a coordinate in the world, edges included, is not
    moved. *)
Theorem wrap_stays_in_world (v size : Q) :
  0 <= size -> - size <= v -> v <= 2 * size ->
  (0 <= wrap v size /\ wrap v size <= size) /\
  (0 <= v -> v <= size -> wrap v size = v) /\
  (v < 0 -> wrap v size = v + size) /\
  (size < v -> wrap v size = v - size).
Proof.
  intros S L U. unfold wrap, Qgtb.
  split; [|split; [|split]].
  - qcases; split; lra.
  - intros A B. qcases; try reflexivity; lra.
  - intro A. qcases; try reflexivity; lra.
  - intro A. qcases; try reflexivity; lra.
Qed.

(** X10 ([Snake.heal] and [Snake.addShield], lines 607-613).  With a
    non-negative amount, healing raises health up to the maximum and no
    further, charging raises the shield up to 120 and no further, neither
    touches the other resource nor the maximum, and two in a row are
    worth one of the sum. *)
Theorem heal_and_charge_saturate (a b : Q) (s : Snake.t) :
  0 <= a -> 0 <= b ->
  0 <= Snake.health s -> Snake.health s <= Snake.maxHealth s ->
  0 <= Snake.shield s -> Snake.shield s <= 120 ->
  (Snake.health (Snake.heal a s) == Qmin (Snake.maxHealth s) (Snake.health s + a) /\
   Snake.shield (Snake.heal a s) = Snake.shield s /\
   Snake.maxHealth (Snake.heal a s) = Snake.maxHealth s /\
   Snake.health (Snake.heal a (Snake.heal b s))
   == Snake.health (Snake.heal (a + b) s)) /\
  (Snake.shield (Snake.addShield a s) == Qmin 120 (Snake.shield s + a) /\
   Snake.health (Snake.addShield a s) = Snake.health s /\
   Snake.maxHealth (Snake.addShield a s) = Snake.maxHealth s /\
   Snake.shield (Snake.addShield a (Snake.addShield b s))
   == Snake.shield (Snake.addShield (a + b) s)).
Proof.
  intros A B H0 H1 S0 S1. unfold Snake.heal, Snake.addShield. cbn.
  split; (split; [|split; [reflexivity|split; [reflexivity|]]]).
  - minmax; lra.
  - clamps; lra.
  - minmax; lra.
  - clamps; lra.
Qed.

(* ------------------------------------------------------------------ *)
(** ** Particles *)

Lemma burstItems_shape x y color speed size count : forall n,
  List.length (burstItems x y count color speed size n) = count /\
  Forall (fun p => Particle.x p = x /\ Particle.y p = y /\
                   Particle.color p = color /\
                   Particle.maxLife p = Particle.life p /\
                   (25#100) <= Particle.life p /\ Particle.life p < (85#100))
         (burstItems x y count color speed size n).
Proof.
  induction count as [|c IH]; intro n; cbn [burstItems].
  - split; [reflexivity | constructor].
  - destruct (IH (n + 4)%nat) as (L & F). split; [cbn; now rewrite L|].
    constructor; [|exact F]. cbn.
    repeat split; [apply randRange_bounds; lra | apply randRange_below; reflexivity].
Qed.

(** X11 ([ParticleSystem.burst], lines 188-204).  A burst appends
    exactly [count] particles, all at the burst's position and of its
    colour, each with a life from 0.25 up to but not including 0.85; it
    draws four random values per particle and changes nothing else that
    the simulation reads. *)
Theorem burst_emits_count (x y : Q) (count : nat) (color : string)
    (speed size : Q) (g : Game.t) :
  let g' := ParticleSystem_burst x y count color speed size g in
  (exists fresh,
      particles g' = particles g ++ fresh /\ List.length fresh = count /\
      Forall (fun p => Particle.x p = x /\ Particle.y p = y /\
                       Particle.color p = color /\
                       Particle.maxLife p = Particle.life p /\
                       (25#100) <= Particle.life p /\ Particle.life p < (85#100))
             fresh) /\
  rng g' = (rng g + 4 * count)%nat /\
  set_rng (rng g) (set_particles (particles g) g') = g.
Proof.
  cbv zeta. unfold ParticleSystem_burst. split; [|split].
  - eexists. split; [reflexivity|]. apply burstItems_shape.
  - reflexivity.
  - now destruct g.
Qed.

(** X12 ([ParticleSystem.update] with [Particle.update], lines 162-169
    and 212-214).  An update keeps exactly the particles whose life
    exceeds the delta, in their order, each moved by its velocity and
    aged by the delta; so every particle left has positive life and none
    is ever added. *)
Theorem particles_fade_out (dt : Q) (ps : list Particle.t) :
  ParticleSystem_update dt ps
  = map (fun p => fst (Particle.update dt p))
        (filter (fun p => Qgtb (Particle.life p - dt) 0) ps) /\
  Forall (fun p => 0 < Particle.life p) (ParticleSystem_update dt ps) /\
  (List.length (ParticleSystem_update dt ps) <= List.length ps)%nat.
Proof.
  assert (E : ParticleSystem_update dt ps
              = map (fun p => fst (Particle.update dt p))
                    (filter (fun p => Qgtb (Particle.life p - dt) 0) ps)).
  { unfold ParticleSystem_update.
    induction ps as [|p ps IH]; cbn; [reflexivity|].
    destruct (Qgtb (Particle.life p - dt) 0); cbn; now rewrite IH. }
  split; [exact E|]. rewrite E. split.
  - apply Forall_map, Forall_forall. intros p I.
    apply filter_In in I. destruct I as (_ & I).
    cbn. now apply Qltb_true in I.
  - rewrite length_map. apply filter_length_le.
Qed.

(* ------------------------------------------------------------------ *)
(** ** The abilities *)

Lemma sameStance_trans g1 g2 g3 :
  sameStance g1 g2 -> sameStance g2 g3 -> sameStance g1 g3.
Proof. unfold sameStance. intuition congruence. Qed.

Lemma dash_footprint g :
  let g' := Snake_dash g in
  sameStance g g' /\ mines g' = mines g /\ projectiles g' = projectiles g /\
  (forall k, k <> "shift"%string -> pressed k g' = pressed k g) /\
  Snake.temporalCooldown (snake g') = Snake.temporalCooldown (snake g) /\
  Snake.temporalTime (snake g') = Snake.temporalTime (snake g) /\
  Snake.mineCooldown (snake g') = Snake.mineCooldown (snake g) /\
  Snake.primaryCooldown (snake g') = Snake.primaryCooldown (snake g) /\
  Snake.dashCooldown (snake g')
  = (if pressed "shift" g && Qleb (Snake.dashCooldown (snake g)) 0
     then (35#10) else Snake.dashCooldown (snake g)) /\
  Snake.dashTime (snake g')
  = (if pressed "shift" g && Qleb (Snake.dashCooldown (snake g)) 0
     then (24#100) else Snake.dashTime (snake g)).
Proof.
  cbv zeta.
  unfold Snake_dash, consumeKey, InputManager.consume, pressed, sameStance.
  cbv zeta. cbn [fst snd].
  change (InputManager.toLowerCase "shift") with "shift"%string.
  destruct (InputManager.has "shift" (InputManager.justPressed (input g))) eqn:K;
    cbn [andb]; [|cbn; now repeat split].
  cbn [snake set_input].
  destruct (Qleb (Snake.dashCooldown (snake g)) 0); cbn;
    repeat split; intros k N; now apply has_delete_other.
Qed.

Lemma temporal_footprint g :
  let g' := Snake_temporal g in
  sameStance g g' /\ mines g' = mines g /\ projectiles g' = projectiles g /\
  (forall k, k <> "e"%string -> pressed k g' = pressed k g) /\
  Snake.dashCooldown (snake g') = Snake.dashCooldown (snake g) /\
  Snake.dashTime (snake g') = Snake.dashTime (snake g) /\
  Snake.mineCooldown (snake g') = Snake.mineCooldown (snake g) /\
  Snake.primaryCooldown (snake g') = Snake.primaryCooldown (snake g) /\
  Snake.temporalCooldown (snake g')
  = (if pressed "e" g && Qleb (Snake.temporalCooldown (snake g)) 0
     then 8 else Snake.temporalCooldown (snake g)) /\
  Snake.temporalTime (snake g')
  = (if pressed "e" g && Qleb (Snake.temporalCooldown (snake g)) 0
     then (22#10) else Snake.temporalTime (snake g)).
Proof.
  cbv zeta.
  unfold Snake_temporal, consumeKey, InputManager.consume, pressed, sameStance.
  cbv zeta. cbn [fst snd].
  change (InputManager.toLowerCase "e") with "e"%string.
  destruct (InputManager.has "e" (InputManager.justPressed (input g))) eqn:K;
    cbn [andb]; [|cbn; now repeat split].
  cbn [snake set_input].
  destruct (Qleb (Snake.temporalCooldown (snake g)) 0); cbn;
    repeat split; intros k N; now apply has_delete_other.
Qed.

Lemma mine_footprint g :
  let g' := Snake_mine g in
  sameStance g g' /\ projectiles g' = projectiles g /\
  (forall k, k <> "q"%string -> pressed k g' = pressed k g) /\
  Snake.dashCooldown (snake g') = Snake.dashCooldown (snake g) /\
  Snake.dashTime (snake g') = Snake.dashTime (snake g) /\
  Snake.temporalCooldown (snake g') = Snake.temporalCooldown (snake g) /\
  Snake.temporalTime (snake g') = Snake.temporalTime (snake g) /\
  Snake.primaryCooldown (snake g') = Snake.primaryCooldown (snake g) /\
  Snake.mineCooldown (snake g')
  = (if pressed "q" g && Qleb (Snake.mineCooldown (snake g)) 0
     then (22#10) else Snake.mineCooldown (snake g)) /\
  mines g'
  = (if pressed "q" g && Qleb (Snake.mineCooldown (snake g)) 0
     then mines g ++ [Mine.new (headX g) (headY g)] else mines g).
Proof.
  cbv zeta.
  unfold Snake_mine, consumeKey, InputManager.consume, pressed, sameStance,
    headX, headY.
  cbv zeta. cbn [fst snd].
  change (InputManager.toLowerCase "q") with "q"%string.
  destruct (InputManager.has "q" (InputManager.justPressed (input g))) eqn:K;
    cbn [andb]; [|cbn; now repeat split].
  cbn [snake set_input].
  destruct (Qleb (Snake.mineCooldown (snake g)) 0); cbn;
    repeat split; intros k N; now apply has_delete_other.
Qed.

Lemma consumeKey_footprint k g :
  fst (consumeKey k g) = pressed (InputManager.toLowerCase k) g /\
  (pressed (InputManager.toLowerCase k) g = false -> snd (consumeKey k g) = g) /\
  snake (snd (consumeKey k g)) = snake g /\
  mines (snd (consumeKey k g)) = mines g /\
  projectiles (snd (consumeKey k g)) = projectiles g /\
  InputManager.keys (input (snd (consumeKey k g))) = InputManager.keys (input g).
Proof.
  unfold consumeKey, InputManager.consume, pressed. cbv zeta. cbn [fst snd].
  destruct (InputManager.has _ (InputManager.justPressed (input g))); cbn;
    repeat split; try discriminate.
  intros _. now destruct g.
Qed.

(** The three [consume] calls of line 671, joined by [||]. *)
Lemma fire_keys g :
  let c1 := consumeKey " " g in
  let c2 := if fst c1 then c1 else consumeKey "space" (snd c1) in
  let c3 := if fst c2 then c2 else consumeKey "spacebar" (snd c2) in
  fst c3 = firePressed g /\
  snake (snd c3) = snake g /\ mines (snd c3) = mines g /\
  projectiles (snd c3) = projectiles g /\
  InputManager.keys (input (snd c3)) = InputManager.keys (input g).
Proof.
  cbv zeta. unfold firePressed.
  destruct (consumeKey_footprint " " g) as (F1 & N1 & R1).
  destruct (consumeKey_footprint "space" g) as (F2 & N2 & R2).
  destruct (consumeKey_footprint "spacebar" g) as (F3 & N3 & R3).
  change (InputManager.toLowerCase " ") with " "%string in *.
  change (InputManager.toLowerCase "space") with "space"%string in *.
  change (InputManager.toLowerCase "spacebar") with "spacebar"%string in *.
  rewrite F1. destruct (pressed " " g) eqn:K1; cbv iota.
  - rewrite F1. cbv iota. rewrite F1. split; [reflexivity | exact R1].
  - rewrite (N1 eq_refl), F2. destruct (pressed "space" g) eqn:K2; cbv iota.
    + rewrite F2. split; [reflexivity | exact R2].
    + rewrite (N2 eq_refl). split; [exact F3 | exact R3].
Qed.

Lemma fire_footprint g :
  let g' := Snake_fire g in
  sameStance g g' /\ mines g' = mines g /\
  Snake.dashCooldown (snake g') = Snake.dashCooldown (snake g) /\
  Snake.dashTime (snake g') = Snake.dashTime (snake g) /\
  Snake.temporalCooldown (snake g') = Snake.temporalCooldown (snake g) /\
  Snake.temporalTime (snake g') = Snake.temporalTime (snake g) /\
  Snake.mineCooldown (snake g') = Snake.mineCooldown (snake g) /\
  Snake.primaryCooldown (snake g')
  = (if firePressed g && Qleb (Snake.primaryCooldown (snake g)) 0
     then (18#100) else Snake.primaryCooldown (snake g)) /\
  projectiles g'
  = (if firePressed g && Qleb (Snake.primaryCooldown (snake g)) 0
     then projectiles g ++ [primaryShot (snake g) (-1); primaryShot (snake g) 0;
                            primaryShot (snake g) 1]
     else projectiles g).
Proof.
  cbv zeta. unfold Snake_fire. cbv zeta.
  pose proof (fire_keys g) as K. cbv zeta in K.
  revert K.
  generalize (if fst (if fst (consumeKey " " g) then consumeKey " " g
                      else consumeKey "space" (snd (consumeKey " " g)))
              then if fst (consumeKey " " g) then consumeKey " " g
                   else consumeKey "space" (snd (consumeKey " " g))
              else consumeKey "spacebar"
                     (snd (if fst (consumeKey " " g) then consumeKey " " g
                           else consumeKey "space" (snd (consumeKey " " g))))).
  intros c (K0 & K1 & K2 & K3 & K4).
  rewrite K0, K1. unfold sameStance, primaryShot.
  destruct (firePressed g && Qleb (Snake.primaryCooldown (snake g)) 0);
    cbn; rewrite ?K1, ?K2, ?K3, ?K4; now repeat split.
Qed.

(** The snake as the ability steps find it: aimed, turned, and with
    every timer counted down. *)
Lemma timers_footprint dt i s :
  let s' := Snake_timers dt (Snake_turn dt (Snake_setAimFromInput i s)) in
  Snake.head s' = Snake.head s /\
  Snake.dashCooldown s' = Snake.dashCooldown s - dt /\
  Snake.temporalCooldown s' = Snake.temporalCooldown s - dt /\
  Snake.mineCooldown s' = Snake.mineCooldown s - dt /\
  Snake.primaryCooldown s' = Snake.primaryCooldown s - dt /\
  Snake.dashTime s'
  = (if Qgtb (Snake.dashTime s) 0 then Snake.dashTime s - dt else Snake.dashTime s) /\
  Snake.temporalTime s'
  = (if Qgtb (Snake.temporalTime s) 0
     then Snake.temporalTime s - dt else Snake.temporalTime s).
Proof.
  cbv zeta.
  assert (A : forall s0, Snake.head (Snake_timers dt (Snake_turn dt s0)) = Snake.head s0 /\
    Snake.dashCooldown (Snake_timers dt (Snake_turn dt s0)) = Snake.dashCooldown s0 - dt /\
    Snake.temporalCooldown (Snake_timers dt (Snake_turn dt s0)) = Snake.temporalCooldown s0 - dt /\
    Snake.mineCooldown (Snake_timers dt (Snake_turn dt s0)) = Snake.mineCooldown s0 - dt /\
    Snake.primaryCooldown (Snake_timers dt (Snake_turn dt s0)) = Snake.primaryCooldown s0 - dt /\
    Snake.dashTime (Snake_timers dt (Snake_turn dt s0))
    = (if Qgtb (Snake.dashTime s0) 0 then Snake.dashTime s0 - dt else Snake.dashTime s0) /\
    Snake.temporalTime (Snake_timers dt (Snake_turn dt s0))
    = (if Qgtb (Snake.temporalTime s0) 0
       then Snake.temporalTime s0 - dt else Snake.temporalTime s0)).
  { intro s0. unfold Snake_timers, Snake_turn. cbv zeta. cbn.
    destruct (Qgtb (Snake.dashTime s0) 0); cbn;
      destruct (Qgtb (Snake.temporalTime s0) 0); cbn; now repeat split. }
  assert (B : Snake.head (Snake_setAimFromInput i s) = Snake.head s /\
    Snake.dashCooldown (Snake_setAimFromInput i s) = Snake.dashCooldown s /\
    Snake.temporalCooldown (Snake_setAimFromInput i s) = Snake.temporalCooldown s /\
    Snake.mineCooldown (Snake_setAimFromInput i s) = Snake.mineCooldown s /\
    Snake.primaryCooldown (Snake_setAimFromInput i s) = Snake.primaryCooldown s /\
    Snake.dashTime (Snake_setAimFromInput i s) = Snake.dashTime s /\
    Snake.temporalTime (Snake_setAimFromInput i s) = Snake.temporalTime s).
  { unfold Snake_setAimFromInput. destruct (negb _ || negb _); now repeat split. }
  destruct B as (B1 & B2 & B3 & B4 & B5 & B6 & B7).
  rewrite <- B1, <- B2, <- B3, <- B4, <- B5, <- B6, <- B7. apply A.
Qed.

Lemma move_footprint dt s :
  Snake.dashCooldown (Snake_move dt s) = Snake.dashCooldown s /\
  Snake.dashTime (Snake_move dt s) = Snake.dashTime s /\
  Snake.temporalCooldown (Snake_move dt s) = Snake.temporalCooldown s /\
  Snake.temporalTime (Snake_move dt s) = Snake.temporalTime s /\
  Snake.mineCooldown (Snake_move dt s) = Snake.mineCooldown s /\
  Snake.primaryCooldown (Snake_move dt s) = Snake.primaryCooldown s.
Proof. unfold Snake_move. cbv zeta. cbn. now repeat split. Qed.

Lemma trail_input x y c g : input (ParticleSystem_trail x y c g) = input g.
Proof. reflexivity. Qed.

Lemma trail_mines x y c g : mines (ParticleSystem_trail x y c g) = mines g.
Proof. reflexivity. Qed.

Lemma trail_projectiles x y c g :
  projectiles (ParticleSystem_trail x y c g) = projectiles g.
Proof. reflexivity. Qed.

Lemma trail_snake x y c g : snake (ParticleSystem_trail x y c g) = snake g.
Proof. reflexivity. Qed.

Lemma set_snake_input s g : input (set_snake s g) = input g.
Proof. reflexivity. Qed.

Lemma set_snake_mines s g : mines (set_snake s g) = mines g.
Proof. reflexivity. Qed.

Lemma set_snake_projectiles s g : projectiles (set_snake s g) = projectiles g.
Proof. reflexivity. Qed.

Lemma set_snake_snake s g : snake (set_snake s g) = s.
Proof. reflexivity. Qed.

Lemma Snake_update_stages dt g :
  let gF :=
    Snake_fire
      (Snake_mine
         (Snake_temporal
            (Snake_dash
               (set_snake
                  (Snake_timers dt
                     (Snake_turn dt (Snake_setAimFromInput (input g) (snake g))))
                  g)))) in
  input (Snake_update dt g) = input gF /\
  mines (Snake_update dt g) = mines gF /\
  projectiles (Snake_update dt g) = projectiles gF /\
  snake (Snake_update dt g) = Snake_move dt (snake gF).
Proof.
  cbv zeta. unfold Snake_update. cbv zeta.
  rewrite trail_input, trail_mines, trail_projectiles, trail_snake.
  rewrite set_snake_input, set_snake_mines, set_snake_projectiles, set_snake_snake.
  repeat split; reflexivity.
Qed.

(** Everything the four ability steps of [Snake.update] decide, in terms
    of the state the update starts from. *)
Lemma abilities_outcome dt g :
  let g' := Snake_update dt g in
  let s := snake g in
  let dash := pressed "shift" g && Qleb (Snake.dashCooldown s - dt) 0 in
  let burst := pressed "e" g && Qleb (Snake.temporalCooldown s - dt) 0 in
  let mine := pressed "q" g && Qleb (Snake.mineCooldown s - dt) 0 in
  let fire := firePressed g && Qleb (Snake.primaryCooldown s - dt) 0 in
  InputManager.keys (input g') = InputManager.keys (input g) /\
  (Snake.dashCooldown (snake g')
   = (if dash then (35#10) else Snake.dashCooldown s - dt) /\
   Snake.dashTime (snake g')
   = (if dash then (24#100)
      else if Qgtb (Snake.dashTime s) 0 then Snake.dashTime s - dt
           else Snake.dashTime s) /\
   Snake.temporalCooldown (snake g')
   = (if burst then 8 else Snake.temporalCooldown s - dt) /\
   Snake.temporalTime (snake g')
   = (if burst then (22#10)
      else if Qgtb (Snake.temporalTime s) 0 then Snake.temporalTime s - dt
           else Snake.temporalTime s)) /\
  (Snake.mineCooldown (snake g')
   = (if mine then (22#10) else Snake.mineCooldown s - dt) /\
   mines g'
   = (if mine then mines g ++ [Mine.new (headX g) (headY g)] else mines g)) /\
  (Snake.primaryCooldown (snake g')
   = (if fire then (18#100) else Snake.primaryCooldown s - dt) /\
   exists aim,
     Snake.head aim = Snake.head s /\
     projectiles g'
     = (if fire
        then projectiles g ++ [primaryShot aim (-1); primaryShot aim 0; primaryShot aim 1]
        else projectiles g)).
Proof.
  cbv zeta.
  destruct (Snake_update_stages dt g) as (U1 & U2 & U3 & U4).
  rewrite U1, U2, U3, U4. clear U1 U2 U3 U4.
  set (s1 := Snake_timers dt (Snake_turn dt (Snake_setAimFromInput (input g) (snake g)))).
  set (g1 := set_snake s1 g).
  set (gD := Snake_dash g1). set (gT := Snake_temporal gD).
  set (gM := Snake_mine gT). set (gF := Snake_fire gM).
  destruct (move_footprint dt (snake gF)) as (V1 & V2 & V3 & V4 & V5 & V6).
  rewrite V1, V2, V3, V4, V5, V6.
  pose proof (timers_footprint dt (input g) (snake g)) as W. cbv zeta in W.
  fold s1 in W. destruct W as (W0 & W1 & W2 & W3 & W4 & W5 & W6).
  pose proof (dash_footprint g1) as D. cbv zeta in D. fold gD in D.
  destruct D as ((D01 & D02 & D03) & D1 & D2 & D3 & D4 & D5 & D6 & D7 & D8 & D9).
  pose proof (temporal_footprint gD) as T. cbv zeta in T. fold gT in T.
  destruct T as ((T01 & T02 & T03) & T1 & T2 & T3 & T4 & T5 & T6 & T7 & T8 & T9).
  pose proof (mine_footprint gT) as M. cbv zeta in M. fold gM in M.
  destruct M as ((M01 & M02 & M03) & M2 & M3 & M4 & M5 & M6 & M7 & M8 & M9 & M1).
  pose proof (fire_footprint gM) as F. cbv zeta in F. fold gF in F.
  destruct F as ((F01 & F02 & F03) & F1 & F4 & F5 & F6 & F7 & F8 & F9 & F2).
  assert (P1 : forall k, pressed k g1 = pressed k g) by reflexivity.
  assert (S1 : snake g1 = s1) by reflexivity.
  assert (Ps : pressed "shift" g1 = pressed "shift" g) by apply P1.
  assert (Pe : pressed "e" gD = pressed "e" g)
    by (rewrite D3; [apply P1 | discriminate]).
  assert (Pq : pressed "q" gT = pressed "q" g)
    by (rewrite T3, D3; [apply P1 | discriminate | discriminate]).
  assert (Pf : firePressed gM = firePressed g).
  { unfold firePressed. rewrite !M3, !T3, !D3, !P1; try discriminate.
    reflexivity. }
  split; [rewrite F03, M03, T03, D03; reflexivity|].
  split; [|split].
  - split; [rewrite F4, M4, T4, D8, Ps, S1, W1; reflexivity|].
    split; [rewrite F5, M5, T5, D9, Ps, S1, W1, W5; reflexivity|].
    split; [rewrite F6, M6, T8, Pe, D4, S1, W2; reflexivity|].
    rewrite F7, M7, T9, Pe, D4, D5, S1, W2, W6. reflexivity.
  - split; [rewrite F8, M9, Pq, T6, D6, S1, W3; reflexivity|].
    rewrite F1, M1, Pq, T6, D6, S1, W3, T1, D1.
    unfold headX, headY. rewrite T01, D01, S1, W0. reflexivity.
  - split; [rewrite F9, Pf, M8, T7, D7, S1, W4; reflexivity|].
    exists (snake gM). split; [rewrite M01, T01, D01, S1; exact W0|].
    rewrite F2, Pf, M8, T7, D7, S1, W4, M2, T2, D2. reflexivity.
Qed.

(** X13 (dash and temporal burst, lines 640-664 of [Snake.update]).
    Within one update the dash goes off exactly if Shift was pressed and
    its cooldown, less the delta, has run out; it then reloads to 3.5 and
    lasts 0.24, and otherwise the cooldown goes down by the delta and a
    running dash by the delta.  The same for the burst with the key E, a
    cooldown of 8 and a duration of 2.2. *)
Theorem boosts_wait_for_their_cooldown (dt : Q) (g : Game.t) :
  let s := snake g in
  let s' := snake (Snake_update dt g) in
  let dash := pressed "shift" g && Qleb (Snake.dashCooldown s - dt) 0 in
  let burst := pressed "e" g && Qleb (Snake.temporalCooldown s - dt) 0 in
  Snake.dashCooldown s' = (if dash then (35#10) else Snake.dashCooldown s - dt) /\
  Snake.dashTime s'
  = (if dash then (24#100)
     else if Qgtb (Snake.dashTime s) 0 then Snake.dashTime s - dt
          else Snake.dashTime s) /\
  Snake.temporalCooldown s'
  = (if burst then 8 else Snake.temporalCooldown s - dt) /\
  Snake.temporalTime s'
  = (if burst then (22#10)
     else if Qgtb (Snake.temporalTime s) 0 then Snake.temporalTime s - dt
          else Snake.temporalTime s).
Proof. cbv zeta. apply (abilities_outcome dt g). Qed.

(** X14 (mine deployment, lines 666-669 of [Snake.update]).  Within one
    update a mine is laid exactly if Q was pressed and the mine cooldown,
    less the delta, has run out: one new mine, unarmed, where the head
    was before it moved, and the cooldown reloads to 2.2.  Otherwise the
    mines are the same and the cooldown goes down by the delta. *)
Theorem mine_deployment (dt : Q) (g : Game.t) :
  let g' := Snake_update dt g in
  let go := pressed "q" g && Qleb (Snake.mineCooldown (snake g) - dt) 0 in
  Snake.mineCooldown (snake g')
  = (if go then (22#10) else Snake.mineCooldown (snake g) - dt) /\
  mines g'
  = (if go then mines g ++ [Mine.new (headX g) (headY g)] else mines g) /\
  Mine.armTime (Mine.new (headX g) (headY g)) = (65#100) /\
  Mine.ttl (Mine.new (headX g) (headY g)) = 6 /\
  Mine.alive (Mine.new (headX g) (headY g)) = true.
Proof.
  cbv zeta. destruct (abilities_outcome dt g) as (_ & _ & (C & M) & _).
  cbv zeta in *. now repeat split.
Qed.

(** X15 (primary fire, lines 671-681 of [Snake.update]).  Within one
    update the weapon fires exactly if one of the three names of the
    space bar was pressed and the primary cooldown, less the delta, has
    run out: three projectiles of damage 12, radius 4 and 1.5 seconds to
    live, all starting where the head was before it moved, and the
    cooldown reloads to 0.18.  Otherwise no projectile is added and the
    cooldown goes down by the delta. *)
Theorem primary_fire (dt : Q) (g : Game.t) :
  let g' := Snake_update dt g in
  let go := firePressed g && Qleb (Snake.primaryCooldown (snake g) - dt) 0 in
  Snake.primaryCooldown (snake g')
  = (if go then (18#100) else Snake.primaryCooldown (snake g) - dt) /\
  (go = false -> projectiles g' = projectiles g) /\
  (go = true ->
   exists a b c,
     projectiles g' = projectiles g ++ [a; b; c] /\
     Forall (fun p => Projectile.damage p = 12 /\ Projectile.radius p = 4 /\
                      Projectile.ttl p = (15#10) /\ Projectile.alive p = true /\
                      Projectile.x p = headX g /\ Projectile.y p = headY g)
            [a; b; c]).
Proof.
  cbv zeta. destruct (abilities_outcome dt g) as (_ & _ & _ & C & aim & H & P).
  cbv zeta in *. split; [exact C|]. split; intro G; rewrite G in P; [exact P|].
  do 3 eexists. split; [exact P|].
  unfold primaryShot, headX, headY. rewrite H. now repeat constructor.
Qed.

(* ------------------------------------------------------------------ *)
(** ** What the collision handling leaves alone *)

(** Closes [sameStage g (op g)] and [sameSession g (op g)] for an
    operation that is a chain of setters under conditionals. *)
Ltac staged :=
  unfold sameStage, sameSession, sameClock; branches; cbn; repeat split;
  reflexivity.

Lemma sameStage_refl g : sameStage g g.
Proof. unfold sameStage. now repeat split. Qed.

Lemma sameStage_trans g1 g2 g3 :
  sameStage g1 g2 -> sameStage g2 g3 -> sameStage g1 g3.
Proof.
  unfold sameStage. intros H1 H2.
  repeat match goal with H : _ /\ _ |- _ => destruct H end.
  repeat split; congruence.
Qed.

Lemma sameSession_refl g : sameSession g g.
Proof. unfold sameSession. now repeat split. Qed.

Lemma sameSession_trans g1 g2 g3 :
  sameSession g1 g2 -> sameSession g2 g3 -> sameSession g1 g3.
Proof.
  unfold sameSession. intros H1 H2.
  repeat match goal with H : _ /\ _ |- _ => destruct H end.
  repeat split; congruence.
Qed.

Lemma sameStage_session g g' : sameStage g g' -> sameSession g g'.
Proof. unfold sameStage, sameSession. tauto. Qed.

Lemma burst_stage x y n c sp sz g : sameStage g (ParticleSystem_burst x y n c sp sz g).
Proof. unfold ParticleSystem_burst. staged. Qed.

Lemma set_snake_stage s g :
  Snake.head s = Snake.head (snake g) -> sameStage g (set_snake s g).
Proof. intro H. unfold sameStage. cbn. now repeat split. Qed.

Lemma set_enemies_stage es g : sameStage g (set_enemies es g).
Proof. staged. Qed.

Lemma set_cores_stage cs g : sameStage g (set_cores cs g).
Proof. staged. Qed.

Lemma set_projectiles_stage ps g : sameStage g (set_projectiles ps g).
Proof. staged. Qed.

Lemma set_enemyProjectiles_stage ps g : sameStage g (set_enemyProjectiles ps g).
Proof. staged. Qed.

Lemma set_mines_stage ms g : sameStage g (set_mines ms g).
Proof. staged. Qed.

Lemma sweep_stage g : sameStage g (sweep g).
Proof. unfold sweep. staged. Qed.

Lemma award_stage p g : sameStage g (Game_award p g).
Proof. unfold Game_award. staged. Qed.

Lemma levelUp_stage g : sameStage g (Game_levelUp g).
Proof. unfold Game_levelUp, MissionSystem_startLevel. cbv zeta. staged. Qed.

Lemma gainScore_stage p g : sameStage g (Game_gainScore p g).
Proof.
  unfold Game_gainScore.
  eapply sameStage_trans; [apply award_stage | apply levelUp_stage].
Qed.

Lemma onEvent_stage ty a g : sameStage g (MissionSystem_onEvent ty a g).
Proof. unfold MissionSystem_onEvent. staged. Qed.

Lemma grow_stage n g : sameStage g (set_snake (Snake.grow n (snake g)) g).
Proof. now apply set_snake_stage. Qed.

Lemma explodeEnemy_stage e isMine g : sameStage g (Game_explodeEnemy e isMine g).
Proof.
  unfold Game_explodeEnemy. cbv zeta.
  destruct isMine; [eapply sameStage_trans; [|apply onEvent_stage]|];
    (destruct (EnemyType_eqb _ _); [eapply sameStage_trans; [|apply onEvent_stage]|]);
    (eapply sameStage_trans; [|apply grow_stage]);
    (eapply sameStage_trans; [|apply gainScore_stage]);
    apply burst_stage.
Qed.

Lemma collectCore_stage c g : sameStage g (snd (collectCore c g)).
Proof.
  unfold collectCore. destruct (Qltb _ 18); cbn [snd]; [|apply sameStage_refl].
  eapply sameStage_trans; [|apply burst_stage].
  eapply sameStage_trans; [|apply onEvent_stage].
  destruct (Core.kind c) as [[| |]|].
  - apply gainScore_stage.
  - eapply sameStage_trans; [|apply gainScore_stage].
    now apply set_snake_stage.
  - eapply sameStage_trans; [|apply gainScore_stage].
    now apply set_snake_stage.
  - eapply sameStage_trans; [|apply gainScore_stage].
    now apply set_snake_stage.
Qed.

Lemma forEach_stage (A : Type) (body : A -> Game.t -> A * Game.t) :
  (forall a s, sameStage s (snd (body a s))) ->
  forall l g, sameStage g (snd (forEach body l g)).
Proof.
  intros Step l g.
  apply forEach_state with (P := fun s => sameStage g s).
  - intros a s H. eapply sameStage_trans; [exact H | apply Step].
  - apply sameStage_refl.
Qed.

Lemma pickupPass_stage g : sameStage g (pickupPass g).
Proof.
  unfold pickupPass. cbv zeta.
  eapply sameStage_trans; [|apply set_cores_stage].
  apply forEach_stage, collectCore_stage.
Qed.

Lemma projectileHit_stage p g : sameStage g (snd (projectileHit p g)).
Proof.
  unfold projectileHit. destruct (negb _); [apply sameStage_refl|].
  destruct (strike p (enemies g)) as [r|]; [|apply sameStage_refl].
  cbv zeta. cbn [snd].
  destruct (Enemy.alive (snd r));
    [|eapply sameStage_trans; [|apply explodeEnemy_stage]];
    (eapply sameStage_trans; [|apply burst_stage]); apply set_enemies_stage.
Qed.

Lemma projectilePass_stage g : sameStage g (projectilePass g).
Proof.
  unfold projectilePass. cbv zeta.
  eapply sameStage_trans; [|apply set_projectiles_stage].
  apply forEach_stage, projectileHit_stage.
Qed.

Lemma blast_stage m e g : sameStage g (snd (blast m e g)).
Proof.
  unfold blast. cbv zeta.
  destruct (negb _); [apply sameStage_refl|].
  destruct (Qltb _ _); [|apply sameStage_refl].
  destruct (Enemy.alive _); [apply sameStage_refl | apply explodeEnemy_stage].
Qed.

Lemma mineStep_stage m g : sameStage g (snd (mineStep m g)).
Proof.
  unfold mineStep. cbv zeta.
  destruct (negb _ || _); [apply sameStage_refl|].
  destruct (mineTriggered _ _); [|apply sameStage_refl].
  cbn [snd].
  eapply sameStage_trans; [|apply set_enemies_stage].
  eapply sameStage_trans; [|apply forEach_stage, blast_stage].
  apply burst_stage.
Qed.

Lemma minePass_stage g : sameStage g (minePass g).
Proof.
  unfold minePass. cbv zeta.
  eapply sameStage_trans; [|apply set_mines_stage].
  apply forEach_stage, mineStep_stage.
Qed.

Lemma applyDamage_keeps a s :
  let s' := snd (Snake.applyDamage a s) in
  Snake.head s' = Snake.head s /\ Snake.maxHealth s' = Snake.maxHealth s /\
  Snake.length s' = Snake.length s.
Proof.
  cbv zeta. unfold Snake.applyDamage. branches; cbn; now repeat split.
Qed.

Lemma onPlayerHit_stage k g : sameStage g (onPlayerHit k g).
Proof. unfold onPlayerHit. staged. Qed.

Lemma contact_stage dt g e : sameStage g (contact dt g e).
Proof.
  unfold contact. cbv zeta. destruct (_ && _); [|apply sameStage_refl].
  destruct (Qgtb _ 0);
    [eapply sameStage_trans; [|apply burst_stage];
     eapply sameStage_trans; [|apply onPlayerHit_stage]|];
    apply set_snake_stage, applyDamage_keeps.
Qed.

Lemma contactPass_stage dt g : sameStage g (contactPass dt g).
Proof.
  unfold contactPass. generalize (enemies g) as es. intro es.
  assert (K : forall s, sameStage g s -> sameStage g (fold_left (contact dt) es s)).
  { induction es as [|e es IH]; intros s H; cbn; [exact H|].
    apply IH. eapply sameStage_trans; [exact H | apply contact_stage]. }
  apply K, sameStage_refl.
Qed.

Lemma enemyProjectileHit_stage p g : sameStage g (snd (enemyProjectileHit p g)).
Proof.
  unfold enemyProjectileHit. cbv zeta.
  destruct (_ && _); cbn [snd]; [|apply sameStage_refl].
  destruct (Qgtb _ 0); [eapply sameStage_trans; [|apply onPlayerHit_stage]|];
    apply set_snake_stage, applyDamage_keeps.
Qed.

Lemma enemyProjectilePass_stage g : sameStage g (enemyProjectilePass g).
Proof.
  unfold enemyProjectilePass. cbv zeta.
  eapply sameStage_trans; [|apply set_enemyProjectiles_stage].
  apply forEach_stage, enemyProjectileHit_stage.
Qed.

Lemma handleCollisions_stage dt g : sameStage g (Game_handleCollisions dt g).
Proof.
  unfold Game_handleCollisions.
  eapply sameStage_trans; [|apply sweep_stage].
  eapply sameStage_trans; [|apply enemyProjectilePass_stage].
  eapply sameStage_trans; [|apply contactPass_stage].
  eapply sameStage_trans; [|apply minePass_stage].
  eapply sameStage_trans; [|apply projectilePass_stage].
  apply pickupPass_stage.
Qed.

(* ------------------------------------------------------------------ *)
(** ** What a tick does to the input and the clocks *)

Lemma sameClock_trans g1 g2 g3 :
  sameClock g1 g2 -> sameClock g2 g3 -> sameClock g1 g3.
Proof. unfold sameClock. intuition congruence. Qed.

Lemma sameSession_clock g g' : sameSession g g' -> sameClock g g'.
Proof. unfold sameSession, sameClock. tauto. Qed.

Lemma set_snake_clock s g : sameClock g (set_snake s g).
Proof. staged. Qed.

Lemma trail_clock x y c g : sameClock g (ParticleSystem_trail x y c g).
Proof. unfold ParticleSystem_trail. staged. Qed.

Lemma dash_clock g : sameClock g (Snake_dash g).
Proof. unfold Snake_dash, consumeKey, ParticleSystem_burst. staged. Qed.

Lemma temporal_clock g : sameClock g (Snake_temporal g).
Proof. unfold Snake_temporal, consumeKey, ParticleSystem_burst. staged. Qed.

Lemma mine_clock g : sameClock g (Snake_mine g).
Proof. unfold Snake_mine, consumeKey. staged. Qed.

Lemma fire_clock g : sameClock g (Snake_fire g).
Proof. unfold Snake_fire, consumeKey. staged. Qed.

Lemma Snake_update_clock dt g : sameClock g (Snake_update dt g).
Proof.
  unfold Snake_update. cbv zeta.
  eapply sameClock_trans; [|apply trail_clock].
  eapply sameClock_trans; [|apply set_snake_clock].
  eapply sameClock_trans; [|apply fire_clock].
  eapply sameClock_trans; [|apply mine_clock].
  eapply sameClock_trans; [|apply temporal_clock].
  eapply sameClock_trans; [|apply dash_clock].
  apply set_snake_clock.
Qed.

Lemma Snake_update_keys dt g :
  InputManager.keys (input (Snake_update dt g)) = InputManager.keys (input g).
Proof. apply (abilities_outcome dt g). Qed.

Lemma spawnEnemy_session g : sameSession g (Game_spawnEnemy g).
Proof. unfold Game_spawnEnemy. cbv zeta. unfold sameSession. cbn. now repeat split. Qed.

Lemma spawnWave_session g : sameSession g (Game_spawnWave g).
Proof.
  unfold Game_spawnWave. cbv zeta.
  destruct (Qleb (spawnTimer g) 0); [|apply sameSession_refl].
  apply repeatN_state with (P := fun s => sameSession g s).
  - intros s H. eapply sameSession_trans; [exact H | apply spawnEnemy_session].
  - staged.
Qed.

Lemma spawnPickup_session g : sameSession g (Game_spawnPickup g).
Proof. unfold Game_spawnPickup, Game_spawnCore. staged. Qed.

Lemma Enemy_update_session dt e g : sameSession g (snd (Enemy_update dt e g)).
Proof.
  unfold Enemy_update, sameSession. cbv zeta.
  destruct (Enemy.type e); branches; cbn; repeat split; reflexivity.
Qed.

Lemma set_fields_session g g' :
  input g' = input g -> state g' = state g -> lastTime g' = lastTime g ->
  bgTime g' = bgTime g -> sameSession g g'.
Proof. unfold sameSession. tauto. Qed.

Lemma entities_session dt sdt g : sameSession g (Game_entities dt sdt g).
Proof.
  unfold Game_entities. cbv zeta.
  assert (K : forall es s, sameSession s (snd (forEach (Enemy_update sdt) es s))).
  { intros es s. apply forEach_state with (P := fun s' => sameSession s s').
    - intros a s' H. eapply sameSession_trans; [exact H | apply Enemy_update_session].
    - apply sameSession_refl. }
  match goal with
  | |- context [forEach (Enemy_update sdt) ?es ?s] =>
      pose proof (K es s) as L; revert L;
      generalize (forEach (Enemy_update sdt) es s)
  end.
  intros r (L1 & L2 & L3 & L4). cbn in *.
  unfold sameSession. cbn. now repeat split.
Qed.

Lemma clocks_session dt sdt g :
  let g' := Game_clocks dt sdt g in
  input g' = input g /\ state g' = state g /\ lastTime g' = lastTime g /\
  bgTime g' = bgTime g + dt.
Proof. cbv zeta. unfold Game_clocks. cbv zeta. branches; cbn; now repeat split. Qed.

Lemma advance_session dt g :
  let g' := Game_advance dt g in
  InputManager.keys (input g') = InputManager.keys (input g) /\
  state g' = state g /\ lastTime g' = lastTime g /\ bgTime g' = bgTime g + dt.
Proof.
  cbv zeta. unfold Game_advance. cbv zeta.
  set (gC := Game_clocks dt (dt * slowFactor g) g).
  destruct (clocks_session dt (dt * slowFactor g) g) as (C1 & C2 & C3 & C4).
  fold gC in C1, C2, C3, C4.
  destruct (Snake_update_clock dt gC) as (P2 & P3 & P4).
  pose proof (Snake_update_keys dt gC) as P1.
  set (gP := Snake_update dt gC) in *.
  assert (S : sameSession gP
                (Game_entities dt (dt * slowFactor g)
                   (Game_spawnPickup (Game_spawnWave gP)))).
  { eapply sameSession_trans; [|apply entities_session].
    eapply sameSession_trans; [|apply spawnPickup_session].
    apply spawnWave_session. }
  destruct S as (S1 & S2 & S3 & S4).
  rewrite S1, S2, S3, S4, P1, P2, P3, P4, C1, C2, C3, C4. now repeat split.
Qed.

Lemma settle_session dt g :
  let g' := Game_settle dt g in
  InputManager.keys (input g') = InputManager.keys (input g) /\
  InputManager.justPressed (input g') = [] /\
  lastTime g' = lastTime g /\ bgTime g' = bgTime g /\
  waveTime g' = waveTime g /\ snake g' = snake g /\
  state g' = (if Qleb (Snake.health (snake g)) 0 then gameover else state g).
Proof.
  cbv zeta. unfold Game_settle, MissionSystem_update. cbv zeta. cbn.
  destruct (Qleb (Snake.health (snake g)) 0); cbn; now repeat split.
Qed.

Lemma slowFactor_values g :
  (5#10) <= slowFactor g /\ slowFactor g <= 1.
Proof. unfold slowFactor. destruct (Qgtb _ 0); split; lra. Qed.

(** What a running tick does to the input and the clocks. *)
Lemma tick_outcome dt g :
  let g' := Game_settle dt (Game_handleCollisions dt (Game_advance dt g)) in
  InputManager.keys (input g') = InputManager.keys (input g) /\
  InputManager.justPressed (input g') = [] /\
  lastTime g' = lastTime g /\ bgTime g' = bgTime g + dt /\
  waveTime g' = waveTime g + dt * slowFactor g /\
  state g' = (if Qleb (Snake.health (snake g')) 0 then gameover else state g).
Proof.
  cbv zeta.
  destruct (advance_session dt g) as (A1 & A2 & A3 & A4).
  assert (AW : waveTime (Game_advance dt g) = waveTime g + dt * slowFactor g).
  { rewrite advance_unfold.
    destruct (entities_fields dt (dt * slowFactor g) (beforeEntities dt g))
      as (_ & _ & _ & _ & _ & _ & (W & _)).
    destruct (beforeEntities_fields dt g) as (_ & W' & _).
    cbv zeta in *. congruence. }
  set (gA := Game_advance dt g) in *.
  destruct (handleCollisions_stage dt gA) as (H1 & H2 & H3 & H4 & H5 & _).
  set (gH := Game_handleCollisions dt gA) in *.
  destruct (settle_session dt gH) as (S1 & S2 & S3 & S4 & S5 & S6 & S7).
  cbv zeta in *.
  rewrite S1, S2, S3, S4, S5, S6, S7, H1, H2, H3, H4, H5, A1, A2, A3, A4, AW.
  now repeat split.
Qed.

(** X16 ([Game.update], lines 1034-1089, with [InputManager.endFrame]).
    A tick never changes which keys are held or the time stamp of the
    last frame, and it always ends with no key press left to consume.
    Outside a running match it changes nothing else.  In a running match
    the background clock gains the delta, the wave clock gains the delta
    times the dilation factor, and the match is over afterwards exactly
    if health is at or below zero then; otherwise it is still running. *)
Theorem tick_input_and_clocks (dt : Q) (g : Game.t) :
  let g' := Game_update dt g in
  InputManager.keys (input g') = InputManager.keys (input g) /\
  InputManager.justPressed (input g') = [] /\
  lastTime g' = lastTime g /\
  (state g <> running -> set_input (input g) g' = g) /\
  (state g = running ->
   bgTime g' = bgTime g + dt /\
   waveTime g' = waveTime g + dt * slowFactor g /\
   (state g' = running \/ state g' = gameover) /\
   (state g' = gameover <-> Snake.health (snake g') <= 0)).
Proof.
  cbv zeta. unfold Game_update.
  destruct (GameState_eqb (state g) running) eqn:E; cbn [negb].
  - assert (R : state g = running) by (destruct (state g); now try discriminate).
    destruct (tick_outcome dt g) as (K & J & L & B & W & S). cbv zeta in *.
    split; [exact K|]. split; [exact J|]. split; [exact L|].
    split; [intro N; now contradiction N|]. intros _.
    split; [exact B|]. split; [exact W|]. rewrite S, R.
    destruct (Qleb _ 0) eqn:Q.
    + apply Qleb_true in Q. split; [now right | now split].
    + apply Qleb_false in Q. split; [now left|].
      split; [discriminate | intro; lra].
  - cbn. split; [reflexivity|]. split; [reflexivity|]. split; [reflexivity|].
    split; [intros _; now destruct g|].
    intro R. rewrite R in E. discriminate.
Qed.

(** [draw] leaves the match state alone, but for the random values it
    takes. *)
Lemma draw_keeps g : exists n, Game_draw g = set_rng n g.
Proof.
  unfold Game_draw. destruct (Qgtb _ 0); [now eexists|].
  exists (rng g). now destruct g.
Qed.

(** X17 ([Game.frame], lines 1207-1213).  A frame records its time
    stamp; whatever that stamp is, earlier than the last one or minutes
    after it, the clocks of a running match advance by at least nothing
    and at most 50 ms, the wave clock by no less than half of what the
    background clock gains; the clocks of a match that is not running
    stand still. *)
Theorem frame_advances_time_by_at_most_50ms (now : Q) (g : Game.t) :
  let g' := Game_frame now g in
  lastTime g' = now /\
  (state g = running ->
   (bgTime g <= bgTime g' /\ bgTime g' <= bgTime g + (5#100)) /\
   (waveTime g <= waveTime g' /\ waveTime g' <= waveTime g + (5#100)) /\
   (bgTime g' - bgTime g) * (5#10) <= waveTime g' - waveTime g) /\
  (state g <> running -> bgTime g' = bgTime g /\ waveTime g' = waveTime g).
Proof.
  cbv zeta. unfold Game_frame. cbv zeta.
  destruct (frame_dt now g) as (D0 & D1).
  set (dt := clamp ((now - lastTime g) / 1000) 0 (5#100)) in *.
  destruct (draw_keeps (Game_update dt (set_lastTime now g))) as [n ->].
  cbn [lastTime bgTime waveTime set_rng].
  unfold Game_update. cbn [state set_lastTime].
  destruct (GameState_eqb (state g) running) eqn:E; cbn [negb].
  - destruct (tick_outcome dt (set_lastTime now g)) as (_ & _ & L & B & W & _).
    cbv zeta in *. rewrite L, B, W.
    destruct (slowFactor_values (set_lastTime now g)) as (F0 & F1).
    cbn [bgTime waveTime lastTime set_lastTime].
    split; [reflexivity|]. split; [|intro N; destruct (state g); cbn in E; congruence].
    intros _. repeat split; nra.
  - cbn. split; [reflexivity|]. split; [|now split].
    intro R. rewrite R in E. discriminate.
Qed.

(* ------------------------------------------------------------------ *)
(** ** The bookkeeping invariant *)

(** Closes [sameLedger g (op g)] for an operation that is a chain of
    setters under conditionals. *)
Ltac ledgered := unfold sameLedger; branches; cbn; repeat split; reflexivity.

Lemma sameLedger_refl g : sameLedger g g.
Proof. unfold sameLedger. now repeat split. Qed.

Lemma sameLedger_trans g1 g2 g3 :
  sameLedger g1 g2 -> sameLedger g2 g3 -> sameLedger g1 g3.
Proof.
  unfold sameLedger. intros H1 H2.
  repeat match goal with H : _ /\ _ |- _ => destruct H end.
  repeat split; congruence.
Qed.

Lemma Grown_refl g : Grown g g.
Proof. unfold Grown. repeat split; try (lra || lia). Qed.

Lemma Ledger_same m g g' : sameLedger g g' -> Ledger m g -> Ledger m g'.
Proof.
  intros (E1 & E2 & E3 & E4 & E5 & E6 & E7 & E8 & E9 & E10 & E11)
         ([] & (G1 & G2 & G3 & G4 & G5)).
  split; [split | unfold Grown];
    rewrite ?E1, ?E2, ?E3, ?E4, ?E5, ?E6, ?E7, ?E8, ?E9, ?E10, ?E11;
    try assumption.
  repeat split; assumption.
Qed.

Lemma burst_ledger x y n c sp sz g : sameLedger g (ParticleSystem_burst x y n c sp sz g).
Proof. unfold ParticleSystem_burst. ledgered. Qed.

Lemma trail_ledger x y c g : sameLedger g (ParticleSystem_trail x y c g).
Proof. unfold ParticleSystem_trail. ledgered. Qed.

Lemma set_snake_ledger s g :
  Snake.maxHealth s = Snake.maxHealth (snake g) ->
  Snake.length s = Snake.length (snake g) ->
  sameLedger g (set_snake s g).
Proof. intros M L. unfold sameLedger. cbn. now repeat split. Qed.

Lemma set_mines_ledger ms g : sameLedger g (set_mines ms g).
Proof. ledgered. Qed.

Lemma set_enemyProjectiles_ledger ps g : sameLedger g (set_enemyProjectiles ps g).
Proof. ledgered. Qed.

Lemma set_rng_ledger n g : sameLedger g (set_rng n g).
Proof. ledgered. Qed.

Lemma set_input_ledger i g : sameLedger g (set_input i g).
Proof. ledgered. Qed.

Lemma set_lastTime_ledger now g : sameLedger g (set_lastTime now g).
Proof. ledgered. Qed.

Lemma set_state_ledger st g : sameLedger g (set_state st g).
Proof. ledgered. Qed.

Lemma Ledger_set_enemies m es g :
  Forall EnemyOk es -> Ledger m g -> Ledger m (set_enemies es g).
Proof. intros F ([] & G). split; [split; cbn; assumption | exact G]. Qed.

Lemma Ledger_set_projectiles m ps g :
  Forall ShotOk ps ->
  Ledger m g -> Ledger m (set_projectiles ps g).
Proof. intros F ([] & G). split; [split; cbn; assumption | exact G]. Qed.

Lemma Ledger_set_cores m cs g :
  Forall CoreOk cs -> (List.length cs <= 9)%nat ->
  Ledger m g -> Ledger m (set_cores cs g).
Proof. intros F L ([] & G). split; [split; cbn; assumption | exact G]. Qed.

Lemma Ledger_set_missions m ms g :
  Forall MissionOk ms -> (List.length ms <= 3)%nat ->
  Ledger m g -> Ledger m (set_missions ms g).
Proof. intros F L ([] & G). split; [split; cbn; assumption | exact G]. Qed.

(** *** Missions *)

Lemma new_ok id text target ty timer (n : Z) :
  target == inject_Z n -> 0 < target -> (ty = comboPeak -> target = 10) ->
  MissionOk (Mission.new id text target ty timer).
Proof.
  intros I P C. unfold MissionOk, Mission.new, isInt. cbn.
  split; [reflexivity|]. split; [lra|]. split; [lra|].
  split; [intros _; exact P|]. split; [exact C|].
  intros _. split; [exists 0%Z; reflexivity | now exists n].
Qed.

Lemma pool_ok : Forall MissionOk pool.
Proof.
  unfold pool.
  apply Forall_cons; [apply new_ok with (n := 6%Z); [reflexivity.. | discriminate]|].
  apply Forall_cons; [apply new_ok with (n := 8%Z); [reflexivity.. | discriminate]|].
  apply Forall_cons; [apply new_ok with (n := 30%Z); [reflexivity.. | discriminate]|].
  apply Forall_cons; [apply new_ok with (n := 5%Z); [reflexivity.. | discriminate]|].
  apply Forall_cons; [apply new_ok with (n := 10%Z); reflexivity|].
  apply Forall_nil.
Qed.

Lemma drawn_ok n k :
  (n <= 3)%nat ->
  Forall MissionOk (firstn n (fst (sortRandom k pool))) /\
  (List.length (firstn n (fst (sortRandom k pool))) <= 3)%nat.
Proof.
  intro L. split.
  - apply Forall_forall. intros m I. apply firstn_subset in I.
    pose proof pool_ok as P. rewrite Forall_forall in P. apply P.
    eapply Permutation_in; [|exact I].
    apply Permutation_sym, sortRandom_perm.
  - pose proof (firstn_le_length n (fst (sortRandom k pool))). lia.
Qed.

Lemma sumRewards_nonneg ms : Forall MissionOk ms -> 0 <= sumRewards ms.
Proof.
  induction 1 as [|m ms (R & _) _ IH]; cbn; [lra|].
  destruct (Mission.done m); [rewrite R|]; lra.
Qed.

Lemma inc_ok m :
  eventDriven (Mission.type m) -> MissionOk m -> MissionOk (Mission.inc 1 m).
Proof.
  intros E (R & P0 & P1 & D & C & I). unfold Mission.inc.
  destruct (Mission.done m || Mission.failed m) eqn:T;
    [unfold MissionOk; tauto|].
  apply orb_false_iff in T. destruct T as (Dn & _).
  destruct (I E) as ((k & Hk) & (n & Hn)). specialize (D Dn).
  assert (K : (k + 1 <= n)%Z).
  { assert (inject_Z k < inject_Z n) by lra.
    rewrite <- Zlt_Qlt in H. lia. }
  assert (K' : inject_Z (k + 1) <= inject_Z n) by now rewrite <- Zle_Qle.
  rewrite inject_Z_plus in K'. change (inject_Z 1) with 1 in K'.
  unfold MissionOk, Qgeb. cbn.
  split; [exact R|]. split; [lra|]. split; [lra|].
  split; [|split; [exact C|]].
  - qcase; intro F; [discriminate | lra].
  - intros _. split; [|now exists n].
    exists (k + 1)%Z. rewrite inject_Z_plus. change (inject_Z 1) with 1. lra.
Qed.

Lemma onEvent_ok ty ms :
  eventDriven ty -> Forall MissionOk ms ->
  Forall MissionOk
    (map (fun m => if MissionType_eqb (Mission.type m) ty
                   then Mission.inc 1 m else m) ms).
Proof.
  intros E F. apply Forall_map. eapply Forall_impl; [|exact F].
  intros m Ok. destruct (MissionType_eqb _ _) eqn:T; [|assumption].
  apply MissionType_eqb_eq in T. apply inc_ok; [now rewrite T | exact Ok].
Qed.

Lemma update_ok dt m : MissionOk m -> MissionOk (Mission.update dt m).
Proof.
  intro Ok. unfold Mission.update.
  destruct (Mission.done m || Mission.failed m); [exact Ok|].
  destruct (Mission.timer m); [|exact Ok].
  unfold MissionOk in *. cbn. exact Ok.
Qed.

Lemma update_type dt m : Mission.type (Mission.update dt m) = Mission.type m.
Proof.
  unfold Mission.update.
  now destruct (Mission.done m || Mission.failed m), (Mission.timer m).
Qed.

Lemma step_ok dt took tier m :
  (tier <= 6)%Z -> MissionOk m -> MissionOk (MissionSystem_step dt took tier m).
Proof.
  intros T Ok0. unfold MissionSystem_step. cbv zeta.
  pose proof (update_ok dt Ok0) as Ok. revert Ok.
  generalize (Mission.update dt m). intros m1 Ok.
  assert (T' : inject_Z tier <= 6)
    by (change 6 with (inject_Z 6); now rewrite <- Zle_Qle).
  assert (Plain : forall m2,
             Mission.type m2 <> comboPeak -> MissionOk m2 ->
             MissionOk
               (if MissionType_eqb (Mission.type m2) comboPeak
                then
                  if Qgeb (Qmax (Mission.progress m2) (inject_Z tier))
                       (Mission.target
                          (Mission.setProgress
                             (Qmax (Mission.progress m2) (inject_Z tier)) m2))
                  then Mission.setDone
                         (Mission.setProgress
                            (Qmax (Mission.progress m2) (inject_Z tier)) m2)
                  else Mission.setProgress
                         (Qmax (Mission.progress m2) (inject_Z tier)) m2
                else m2)).
  { intros m2 N Ok2. destruct (MissionType_eqb _ _) eqn:E; [|exact Ok2].
    apply MissionType_eqb_eq in E. contradiction. }
  destruct (MissionType_eqb (Mission.type m1) secondsNoHit && negb took) eqn:S.
  - apply andb_true_iff in S. destruct S as (S & _).
    apply MissionType_eqb_eq in S.
    destruct Ok as (R & P0 & P1 & D & C & I).
    assert (B : 0 <= clamp (numOf (Mission.maxTimer m1) - numOf (Mission.timer m1))
                       0 (Mission.target m1) /\
                clamp (numOf (Mission.maxTimer m1) - numOf (Mission.timer m1))
                       0 (Mission.target m1) <= Mission.target m1)
      by (apply clamp_range; lra).
    revert B.
    generalize (clamp (numOf (Mission.maxTimer m1) - numOf (Mission.timer m1))
                  0 (Mission.target m1)).
    intros p (B0 & B1). unfold Qgeb. cbn [Mission.target Mission.setProgress].
    destruct (Qleb (Mission.target m1) p) eqn:Q;
      [apply Qleb_true in Q | apply Qleb_false in Q];
      (apply Plain; [cbn; congruence|]);
      unfold MissionOk, eventDriven; cbn; rewrite S;
      repeat split; try assumption; try discriminate;
      try (intros _; assumption);
      match goal with H : _ <> _ /\ _ |- _ => destruct H; congruence end.
  - destruct (MissionType_eqb (Mission.type m1) comboPeak) eqn:E;
      [|exact Ok].
    apply MissionType_eqb_eq in E.
    destruct Ok as (R & P0 & P1 & D & C & I). specialize (C E).
    assert (B : 0 <= Qmax (Mission.progress m1) (inject_Z tier) /\
                Qmax (Mission.progress m1) (inject_Z tier) <= Mission.target m1)
      by (rewrite C in *; split; minmax; lra).
    revert B. generalize (Qmax (Mission.progress m1) (inject_Z tier)).
    intros p (B0 & B1). unfold Qgeb. cbn [Mission.target Mission.setProgress].
    destruct (Qleb (Mission.target m1) p) eqn:Q;
      [apply Qleb_true in Q | apply Qleb_false in Q];
      unfold MissionOk, eventDriven; cbn; rewrite E;
      repeat split; try assumption; try discriminate;
      try (intros _; assumption);
      match goal with H : _ <> _ /\ _ |- _ => destruct H; congruence end.
Qed.

(** *** Scoring *)

Lemma award_fields p g :
  let g' := Game_award p g in
  sameStage g g' /\
  enemies g' = enemies g /\ projectiles g' = projectiles g /\
  cores g' = cores g /\ missions g' = missions g /\ level g' = level g /\
  snake g' = snake g /\
  xp g' = xp g + p /\
  score g' = score g + inject_Z (Math_round (p * combo g)) /\
  combo g' = clamp (combo g + (5#100)) 1 6 /\
  comboTier g' = Z.max (comboTier g) (Math_floor (clamp (combo g + (5#100)) 1 6)).
Proof.
  cbv zeta. split; [apply award_stage|]. unfold Game_award. cbv zeta.
  repeat split; reflexivity.
Qed.

Lemma Math_round_pos q : 1 <= q -> 0 < inject_Z (Math_round q).
Proof.
  intro L. unfold Math_round.
  assert (K : (1 <= Qfloor (q + (1#2)))%Z).
  { apply Z.le_trans with (Qfloor (inject_Z 1)); [rewrite Qfloor_Z; lia|].
    apply Qfloor_resp_le. change (inject_Z 1) with 1. lra. }
  change 0 with (inject_Z 0). rewrite <- Zlt_Qlt. lia.
Qed.

(** A scoring event is worth a point at least, so it shows in the
    score. *)
Lemma award_ledger m p g : 1 <= p -> Ledger m g -> Ledger m (Game_award p g).
Proof.
  intros P ([] & (G1 & G2 & G3 & G4 & G5)).
  destruct (award_fields p g)
    as (_ & E1 & E2 & E3 & E4 & E5 & E6 & E7 & E8 & E9 & E10).
  assert (V : 0 < inject_Z (Math_round (p * combo g)))
    by (apply Math_round_pos; nra).
  assert (R : 1 <= clamp (combo g + (5#100)) 1 6 /\
              clamp (combo g + (5#100)) 1 6 <= 6) by (apply clamp_range; lra).
  pose proof (@Qfloor_range _ 1 6 (proj1 R) (proj2 R)) as F.
  fold (Math_floor (clamp (combo g + (5#100)) 1 6)) in F.
  cbv zeta in *.
  split; [split | unfold Grown];
    rewrite ?E1, ?E2, ?E3, ?E4, ?E5, ?E6, ?E7, ?E8, ?E9, ?E10;
    try assumption; try lra; try lia.
  repeat split; try assumption; try lra.
Qed.

Lemma levelUp_fields g :
  Qgeb (xp g) (inject_Z (450 + level g * 170)) = true ->
  let g' := Game_levelUp g in
  enemies g' = enemies g /\ projectiles g' = projectiles g /\
  cores g' = cores g /\ combo g' = combo g /\ comboTier g' = comboTier g /\
  missions g'
  = firstn (if (Z.rem (level g + 1) 3 =? 0)%Z then 3%nat else 2%nat)
      (fst (sortRandom (rng g) pool)) /\
  xp g' = xp g - inject_Z (450 + level g * 170) /\
  score g' = score g + MissionSystem_rewardScore (missions g) /\
  level g' = (level g + 1)%Z /\
  Snake.maxHealth (snake g') = Snake.maxHealth (snake g) + 6 /\
  Snake.length (snake g') = Snake.length (snake g) /\
  tookDamageThisLevel g' = false.
Proof.
  intro E. cbv zeta. unfold Game_levelUp. rewrite E. cbv zeta.
  unfold MissionSystem_startLevel. cbv zeta.
  repeat split; reflexivity.
Qed.

Lemma levelUp_ledger m g : Ledger m g -> Ledger m (Game_levelUp g).
Proof.
  intros L.
  destruct (Qgeb (xp g) (inject_Z (450 + level g * 170))) eqn:E;
    [|unfold Game_levelUp; now rewrite E].
  destruct (levelUp_fields g E)
    as (E1 & E2 & E3 & E4 & E5 & E6 & E7 & E8 & E9 & E10 & E11 & _).
  unfold Qgeb in E. apply Qleb_true in E.
  destruct L as ([] & (G1 & G2 & G3 & G4 & G5)).
  pose proof (sumRewards_nonneg sound_missions0) as S.
  rewrite <- rewardScore_sum in S.
  assert (D : Forall MissionOk
               (firstn (if (Z.rem (level g + 1) 3 =? 0)%Z then 3%nat else 2%nat)
                  (fst (sortRandom (rng g) pool))) /\
             (List.length
                (firstn (if (Z.rem (level g + 1) 3 =? 0)%Z then 3%nat else 2%nat)
                   (fst (sortRandom (rng g) pool))) <= 3)%nat)
    by (apply drawn_ok; destruct (_ =? _)%Z; lia).
  cbv zeta in *.
  split; [split | unfold Grown];
    rewrite ?E1, ?E2, ?E3, ?E4, ?E5, ?E6, ?E7, ?E8, ?E9, ?E10, ?E11;
    try assumption; try lra; try lia; try apply D.
  repeat split; try lra; try lia.
  intro Q. apply G5. lra.
Qed.

Lemma gainScore_ledger m p g : 1 <= p -> Ledger m g -> Ledger m (Game_gainScore p g).
Proof. intros P L. now apply levelUp_ledger, award_ledger. Qed.

Lemma onEvent_ledger m ty g :
  eventDriven ty -> Ledger m g -> Ledger m (MissionSystem_onEvent ty 1 g).
Proof.
  intros E L. unfold MissionSystem_onEvent.
  apply Ledger_set_missions; [| |exact L].
  - apply onEvent_ok; [exact E | apply L].
  - rewrite length_map. apply L.
Qed.

Lemma grow_ledger m n g :
  (0 <= n)%Z -> Ledger m g -> Ledger m (set_snake (Snake.grow n (snake g)) g).
Proof.
  intros N ([] & (G1 & G2 & G3 & G4 & G5)).
  split; [split | unfold Grown]; cbn; try assumption.
  repeat split; try assumption; lia.
Qed.

Lemma explodeEnemy_ledger m e isMine g :
  1 <= Enemy.scoreValue e -> Ledger m g -> Ledger m (Game_explodeEnemy e isMine g).
Proof.
  intros V L. unfold Game_explodeEnemy. cbv zeta.
  assert (Ev1 : eventDriven runnerKills) by (split; discriminate).
  assert (Ev2 : eventDriven mineKills) by (split; discriminate).
  destruct isMine; [apply onEvent_ledger; [exact Ev2|]|];
    (destruct (EnemyType_eqb _ _); [apply onEvent_ledger; [exact Ev1|]|]);
    (apply grow_ledger; [destruct (Enemy.isBoss e); lia|]);
    (apply gainScore_ledger; [exact V|]);
    (eapply Ledger_same; [apply burst_ledger | exact L]).
Qed.

(** *** The collision passes *)

Lemma forEach_both (A S : Type) (body : A -> S -> A * S)
    (Q Q' : A -> Prop) (P : S -> Prop) :
  (forall a s, Q a -> P s -> Q' (fst (body a s)) /\ P (snd (body a s))) ->
  forall l s, Forall Q l -> P s ->
    Forall Q' (fst (forEach body l s)) /\ P (snd (forEach body l s)).
Proof.
  intros Step l. induction l as [|a l IH]; intros s F Hs; cbn.
  - split; [constructor | assumption].
  - inversion F as [|? ? Qa Fl]; subst.
    destruct (Step a s Qa Hs) as (Qa' & Ps).
    destruct (IH (snd (body a s)) Fl Ps) as (F' & P').
    split; [constructor; assumption | assumption].
Qed.

Lemma forEach_length (A S : Type) (body : A -> S -> A * S) l : forall s,
  List.length (fst (forEach body l s)) = List.length l.
Proof. induction l as [|a l IH]; intro s; cbn; [reflexivity | now rewrite IH]. Qed.

Lemma Forall_filter (A : Type) (P : A -> Prop) f (l : list A) :
  Forall P l -> Forall P (filter f l).
Proof.
  rewrite !Forall_forall. intros H a I. apply filter_In in I. now apply H.
Qed.

Lemma collectCore_ledger m c g :
  CoreOk c -> Ledger m g ->
  (Core.collected (fst (collectCore c g)) = true \/ CoreOk (fst (collectCore c g))) /\
  Ledger m (snd (collectCore c g)).
Proof.
  intros (V & Ok) L. unfold collectCore.
  destruct (Qltb _ 18); cbn [fst snd];
    [|split; [right; split; assumption | exact L]].
  split; [now left|].
  eapply Ledger_same; [apply burst_ledger|].
  apply onEvent_ledger; [split; discriminate|].
  destruct (Core.kind c) as [[| |]|]; (apply gainScore_ledger; [rewrite V; lra|]);
    try exact L;
    (eapply Ledger_same; [|exact L]); now apply set_snake_ledger.
Qed.

Lemma pickupPass_ledger m g : Ledger m g -> Ledger m (pickupPass g).
Proof.
  intro L. unfold pickupPass. cbv zeta.
  destruct (@forEach_both _ _ collectCore CoreOk
              (fun c => Core.collected c = true \/ CoreOk c) (Ledger m)
              (fun a s => @collectCore_ledger m a s)
              (cores g) g (sound_cores (proj1 L)) L) as (F & L').
  apply Ledger_set_cores; [| |exact L'].
  - apply Forall_forall. intros c I. apply filter_In in I. destruct I as (I & N).
    rewrite Forall_forall in F. destruct (F c I) as [C | Ok]; [|exact Ok].
    rewrite C in N. discriminate.
  - pose proof (filter_length_le (fun c => negb (Core.collected c))
                  (fst (forEach collectCore (cores g) g))) as K.
    rewrite forEach_length in K. destruct L as ([] & _). lia.
Qed.

Lemma radius0_bound ty : 0 <= Enemy.radius0 ty /\ Enemy.radius0 ty <= 40.
Proof. destruct ty; cbn; split; lra. Qed.

Lemma scoreValue0_bound ty : 40 <= Enemy.scoreValue0 ty.
Proof. destruct ty; cbn; lra. Qed.

Lemma takeDamage_ok a e : 0 <= a -> EnemyOk e -> EnemyOk (Enemy.takeDamage a e).
Proof.
  intros A (R & V & H & L). unfold EnemyOk, Enemy.takeDamage. cbn.
  split; [exact R|]. split; [exact V|]. split; [lra|].
  qcase; intro T; [discriminate | exact E].
Qed.

Lemma strike_ok p es r :
  0 <= Projectile.damage p -> Forall EnemyOk es -> strike p es = Some r ->
  Forall EnemyOk (fst r) /\ EnemyOk (snd r).
Proof.
  intros D. revert r. induction es as [|e es IH]; intros r F; cbn; [discriminate|].
  inversion F as [|? ? Oe Fes]; subst.
  destruct (Enemy.alive e && _).
  - intros [= <-]. cbn.
    pose proof (@takeDamage_ok _ e D Oe). split; [constructor|]; assumption.
  - destruct (strike p es) as [r'|]; [|discriminate].
    intros [= <-]. cbn. destruct (IH r' Fes eq_refl) as (F' & O').
    split; [constructor|]; assumption.
Qed.

Lemma explode_ok m e isMine g :
  EnemyOk e -> Ledger m g -> Ledger m (Game_explodeEnemy e isMine g).
Proof.
  intros (_ & V & _) L. apply explodeEnemy_ledger; [|exact L].
  rewrite V. pose proof (scoreValue0_bound (Enemy.type e)). lra.
Qed.

Lemma projectileHit_ledger m p g :
  ShotOk p -> Ledger m g ->
  ShotOk (fst (projectileHit p g)) /\ Ledger m (snd (projectileHit p g)).
Proof.
  intros S L. unfold projectileHit.
  destruct (negb _); [now split|].
  destruct (strike p (enemies g)) as [r|] eqn:E; [|now split]. cbn [fst snd].
  split; [exact S|].
  assert (D : 0 <= Projectile.damage p) by (destruct S as (D & _); rewrite D; lra).
  destruct (@strike_ok p (enemies g) r D (sound_enemies (proj1 L)) E) as (F & O).
  destruct (Enemy.alive (snd r)); [|apply explode_ok; [exact O|]];
    (eapply Ledger_same; [apply burst_ledger|]);
    now apply Ledger_set_enemies.
Qed.

Lemma projectilePass_ledger m g : Ledger m g -> Ledger m (projectilePass g).
Proof.
  intro L. unfold projectilePass. cbv zeta.
  destruct (@forEach_both _ _ projectileHit ShotOk ShotOk (Ledger m)
              (fun a s => @projectileHit_ledger m a s)
              (projectiles g) g (sound_shots (proj1 L)) L) as (F & L').
  now apply Ledger_set_projectiles.
Qed.

Lemma blast_ledger m mi e g :
  EnemyOk e -> Ledger m g ->
  EnemyOk (fst (blast mi e g)) /\ Ledger m (snd (blast mi e g)).
Proof.
  intros O L. unfold blast. cbv zeta.
  destruct (negb _); [now split|].
  destruct (Qltb _ _) eqn:D; [|now split].
  apply Qltb_true in D.
  assert (A : 0 <= 65 - distance (Mine.x mi) (Mine.y mi) (Enemy.x e) (Enemy.y e)
                       * (35#100)).
  { destruct O as (R & _). rewrite R in D.
    destruct (radius0_bound (Enemy.type e)). lra. }
  pose proof (@takeDamage_ok _ e A O) as O'.
  destruct (Enemy.alive _); cbn [fst snd]; (split; [exact O'|]);
    [exact L | now apply explode_ok].
Qed.

Lemma mineStep_ledger m mi g : Ledger m g -> Ledger m (snd (mineStep mi g)).
Proof.
  intro L. unfold mineStep. cbv zeta.
  destruct (negb _ || _); [exact L|].
  destruct (mineTriggered _ _); [|exact L]. cbn [snd].
  assert (L1 : Ledger m (ParticleSystem_burst (Mine.x mi) (Mine.y mi) 32
                           "#ffaf8f" 230 4 g))
    by (eapply Ledger_same; [apply burst_ledger | exact L]).
  destruct (@forEach_both _ _ (blast mi) EnemyOk EnemyOk (Ledger m)
              (fun a s => @blast_ledger m mi a s)
              (enemies (ParticleSystem_burst (Mine.x mi) (Mine.y mi) 32
                          "#ffaf8f" 230 4 g))
              (ParticleSystem_burst (Mine.x mi) (Mine.y mi) 32
                 "#ffaf8f" 230 4 g)
              (sound_enemies (proj1 L1)) L1) as (F & L').
  now apply Ledger_set_enemies.
Qed.

Lemma minePass_ledger m g : Ledger m g -> Ledger m (minePass g).
Proof.
  intro L. unfold minePass. cbv zeta.
  eapply Ledger_same; [apply set_mines_ledger|].
  apply forEach_state with (P := Ledger m); [|exact L].
  intros a s. apply mineStep_ledger.
Qed.

Lemma onPlayerHit_ledger m k g : Ledger m g -> Ledger m (onPlayerHit k g).
Proof.
  intros ([] & G). unfold onPlayerHit.
  split; [split; cbn; try assumption; lra | exact G].
Qed.

Lemma hurt_ledger m a g :
  Ledger m g -> Ledger m (set_snake (snd (Snake.applyDamage a (snake g))) g).
Proof.
  intro L. eapply Ledger_same; [|exact L].
  destruct (applyDamage_keeps a (snake g)) as (_ & M & N).
  now apply set_snake_ledger.
Qed.

Lemma contact_ledger m dt g e : Ledger m g -> Ledger m (contact dt g e).
Proof.
  intro L. unfold contact. cbv zeta. destruct (_ && _); [|exact L].
  destruct (Qgtb _ 0);
    [eapply Ledger_same; [apply burst_ledger|]; apply onPlayerHit_ledger|];
    now apply hurt_ledger.
Qed.

Lemma contactPass_ledger m dt g : Ledger m g -> Ledger m (contactPass dt g).
Proof.
  unfold contactPass. generalize (enemies g) as es. intro es. revert g.
  induction es as [|e es IH]; intros g L; cbn; [exact L|].
  apply IH. now apply contact_ledger.
Qed.

Lemma enemyProjectileHit_ledger m p g :
  Ledger m g -> Ledger m (snd (enemyProjectileHit p g)).
Proof.
  intro L. unfold enemyProjectileHit. cbv zeta.
  destruct (_ && _); cbn [snd]; [|exact L].
  destruct (Qgtb _ 0); [apply onPlayerHit_ledger|]; now apply hurt_ledger.
Qed.

Lemma enemyProjectilePass_ledger m g : Ledger m g -> Ledger m (enemyProjectilePass g).
Proof.
  intro L. unfold enemyProjectilePass. cbv zeta.
  eapply Ledger_same; [apply set_enemyProjectiles_ledger|].
  apply forEach_state with (P := Ledger m); [|exact L].
  intros a s. apply enemyProjectileHit_ledger.
Qed.

Lemma sweep_ledger m g : Ledger m g -> Ledger m (sweep g).
Proof.
  intro L. unfold sweep.
  apply Ledger_set_enemies; [apply Forall_filter, L|].
  eapply Ledger_same; [apply set_mines_ledger|].
  eapply Ledger_same; [apply set_enemyProjectiles_ledger|].
  apply Ledger_set_projectiles; [apply Forall_filter, L | exact L].
Qed.

Lemma handleCollisions_ledger m dt g :
  Ledger m g -> Ledger m (Game_handleCollisions dt g).
Proof.
  intro L. unfold Game_handleCollisions.
  apply sweep_ledger, enemyProjectilePass_ledger, contactPass_ledger,
    minePass_ledger, projectilePass_ledger, pickupPass_ledger, L.
Qed.

Lemma settle_fields dt g :
  let g' := Game_settle dt g in
  enemies g' = enemies g /\ projectiles g' = projectiles g /\
  enemyProjectiles g' = enemyProjectiles g /\ mines g' = mines g /\
  cores g' = cores g /\ xp g' = xp g /\ score g' = score g /\
  level g' = level g /\ combo g' = combo g /\ comboTier g' = comboTier g /\
  snake g' = snake g /\
  missions g'
  = map (MissionSystem_step dt (tookDamageThisLevel g) (comboTier g)) (missions g).
Proof.
  cbv zeta. unfold Game_settle, MissionSystem_update. cbv zeta. cbn.
  destruct (Qleb (Snake.health (snake g)) 0); cbn; now repeat split.
Qed.

Lemma settle_ledger m dt g : Ledger m g -> Ledger m (Game_settle dt g).
Proof.
  intros ([] & (G1 & G2 & G3 & G4 & G5)).
  destruct (settle_fields dt g)
    as (E1 & E2 & _ & _ & E3 & E4 & E5 & E6 & E7 & E8 & E9 & E10).
  cbv zeta in *.
  split; [split | unfold Grown];
    rewrite ?E1, ?E2, ?E3, ?E4, ?E5, ?E6, ?E7, ?E8, ?E9, ?E10;
    try assumption.
  - apply Forall_map. eapply Forall_impl; [|exact sound_missions0].
    intros a. now apply step_ok.
  - now rewrite length_map.
  - repeat split; assumption.
Qed.

(** *** The clocks, the player's update, the spawns, the entity updates *)

Lemma clocks_ledger m dt sdt g : Ledger m g -> Ledger m (Game_clocks dt sdt g).
Proof.
  intros ([] & G). unfold Game_clocks, lerp. cbv zeta. cbn.
  destruct (Qleb _ 0); (split; [split; cbn; try assumption; lra | exact G]).
Qed.

Lemma aimed_keeps dt i s :
  let s' := Snake_timers dt (Snake_turn dt (Snake_setAimFromInput i s)) in
  Snake.maxHealth s' = Snake.maxHealth s /\ Snake.length s' = Snake.length s.
Proof.
  cbv zeta.
  assert (A : forall s0,
             Snake.maxHealth (Snake_timers dt (Snake_turn dt s0)) = Snake.maxHealth s0 /\
             Snake.length (Snake_timers dt (Snake_turn dt s0)) = Snake.length s0).
  { intro s0. unfold Snake_timers, Snake_turn. cbv zeta. cbn.
    destruct (Qgtb (Snake.dashTime s0) 0); cbn;
      destruct (Qgtb (Snake.temporalTime s0) 0); cbn; now split. }
  assert (B : Snake.maxHealth (Snake_setAimFromInput i s) = Snake.maxHealth s /\
              Snake.length (Snake_setAimFromInput i s) = Snake.length s).
  { unfold Snake_setAimFromInput. destruct (negb _ || negb _); now split. }
  destruct B as (B1 & B2). rewrite <- B1, <- B2. apply A.
Qed.

Lemma move_keeps dt s :
  Snake.maxHealth (Snake_move dt s) = Snake.maxHealth s /\
  Snake.length (Snake_move dt s) = Snake.length s.
Proof. unfold Snake_move. cbv zeta. cbn. now split. Qed.

Lemma dash_ledger g : sameLedger g (Snake_dash g).
Proof. unfold Snake_dash, consumeKey, ParticleSystem_burst. ledgered. Qed.

Lemma temporal_ledger g : sameLedger g (Snake_temporal g).
Proof. unfold Snake_temporal, consumeKey, ParticleSystem_burst. ledgered. Qed.

Lemma mine_ledger g : sameLedger g (Snake_mine g).
Proof. unfold Snake_mine, consumeKey. ledgered. Qed.

Lemma set_input_twice i j g : set_input i (set_input j g) = set_input i g.
Proof. reflexivity. Qed.

Lemma consumeKey_shape k g :
  snd (consumeKey k g) = set_input (snd (InputManager.consume k (input g))) g.
Proof. reflexivity. Qed.

Lemma fire_keys_shape g :
  let c1 := consumeKey " " g in
  let c2 := if fst c1 then c1 else consumeKey "space" (snd c1) in
  let c3 := if fst c2 then c2 else consumeKey "spacebar" (snd c2) in
  exists i, snd c3 = set_input i g.
Proof.
  cbv zeta.
  destruct (fst (consumeKey " " g)) eqn:K1; cbv iota.
  - rewrite K1. cbv iota. eexists. apply consumeKey_shape.
  - destruct (fst (consumeKey "space" (snd (consumeKey " " g)))); cbv iota.
    + eexists. rewrite consumeKey_shape, consumeKey_shape.
      apply set_input_twice.
    + eexists. rewrite consumeKey_shape, consumeKey_shape.
      etransitivity; [apply set_input_twice|].
      rewrite consumeKey_shape. apply set_input_twice.
Qed.

Lemma primaryShot_ok s i : ShotOk (primaryShot s i).
Proof. unfold ShotOk, primaryShot. now split. Qed.

Lemma fire_ledger m g : Ledger m g -> Ledger m (Snake_fire g).
Proof.
  intro L. unfold Snake_fire. cbv zeta.
  destruct (fire_keys_shape g) as (i & E). cbv zeta in E.
  rewrite E.
  generalize (fst (if fst (if fst (consumeKey " " g) then consumeKey " " g
                           else consumeKey "space" (snd (consumeKey " " g)))
                   then if fst (consumeKey " " g) then consumeKey " " g
                        else consumeKey "space" (snd (consumeKey " " g))
                   else consumeKey "spacebar"
                          (snd (if fst (consumeKey " " g) then consumeKey " " g
                                else consumeKey "space" (snd (consumeKey " " g)))))).
  intro b.
  assert (L1 : Ledger m (set_input i g))
    by (eapply Ledger_same; [apply set_input_ledger | exact L]).
  destruct (b && _); [|exact L1].
  apply Ledger_set_projectiles.
  - apply Forall_app. split; [apply L1|].
    repeat constructor; apply primaryShot_ok.
  - eapply Ledger_same; [|exact L1]. now apply set_snake_ledger.
Qed.

Lemma Snake_update_ledger m dt g : Ledger m g -> Ledger m (Snake_update dt g).
Proof.
  intro L. unfold Snake_update. cbv zeta.
  eapply Ledger_same; [apply trail_ledger|].
  eapply Ledger_same; [apply set_snake_ledger; apply move_keeps|].
  apply fire_ledger.
  eapply Ledger_same; [apply mine_ledger|].
  eapply Ledger_same; [apply temporal_ledger|].
  eapply Ledger_same; [apply dash_ledger|].
  eapply Ledger_same; [apply set_snake_ledger; apply aimed_keeps | exact L].
Qed.

Lemma maxHealth0_bound ty : 14 <= Enemy.maxHealth0 ty.
Proof. destruct ty; cbn; lra. Qed.

Lemma new_enemy_ok ty x y lvl cd :
  (1 <= lvl)%Z ->
  EnemyOk (Enemy.new ty x y (1 + inject_Z (lvl - 1) * (16#100)) cd).
Proof.
  intro L. unfold EnemyOk, Enemy.new.
  cbn [Enemy.radius Enemy.scoreValue Enemy.health Enemy.maxHealth Enemy.alive
       Enemy.type].
  split; [reflexivity|]. split; [reflexivity|]. split; [lra|]. intros _.
  apply Math_round_pos.
  assert (0 <= inject_Z (lvl - 1))
    by (change 0 with (inject_Z 0); rewrite <- Zle_Qle; lia).
  pose proof (maxHealth0_bound ty). nra.
Qed.

Lemma spawnEnemy_ledger m g : Ledger m g -> Ledger m (Game_spawnEnemy g).
Proof.
  intro L. unfold Game_spawnEnemy. cbv zeta.
  eapply Ledger_same; [apply set_rng_ledger|].
  apply Ledger_set_enemies; [|exact L].
  apply Forall_app. split; [apply L|].
  constructor; [|constructor]. apply new_enemy_ok, L.
Qed.

Lemma spawnWave_ledger m g : Ledger m g -> Ledger m (Game_spawnWave g).
Proof.
  intro L. unfold Game_spawnWave. cbv zeta.
  destruct (Qleb (spawnTimer g) 0); [|exact L].
  apply repeatN_state with (P := Ledger m); [apply spawnEnemy_ledger|].
  eapply Ledger_same; [|exact L]. ledgered.
Qed.

Lemma new_core_ok x y pulse k :
  (0 <= k <= 2)%Z -> CoreOk (Core.new x y pulse k).
Proof.
  intro B. unfold CoreOk, Core.new. cbn.
  split; [reflexivity|]. split; [reflexivity|]. split; [reflexivity|].
  assert (C : k = 0%Z \/ k = 1%Z \/ k = 2%Z) by lia.
  destruct C as [-> | [-> | ->]]; cbn; discriminate.
Qed.

Lemma spawnPickup_ledger m g : Ledger m g -> Ledger m (Game_spawnPickup g).
Proof.
  intro L. unfold Game_spawnPickup, Game_spawnCore. cbv zeta.
  destruct (Qleb (coreSpawnTimer g) 0 && (List.length (cores g) <? 9)%nat) eqn:E;
    [|exact L].
  apply andb_true_iff in E. destruct E as (_ & E). apply Nat.ltb_lt in E.
  eapply Ledger_same; [apply set_rng_ledger|].
  assert (L1 : Ledger m (set_rng (rng g + 1)
                           (set_coreSpawnTimer (randRange (12#10) (26#10) (rng g)) g)))
    by (eapply Ledger_same; [|exact L]; ledgered).
  apply Ledger_set_cores; [| |exact L1].
  - apply Forall_app. split; [apply L1|].
    constructor; [|constructor]. apply new_core_ok, randInt_bounds. lia.
  - rewrite length_app. cbn. lia.
Qed.

Lemma Enemy_update_ledger dt e g : sameLedger g (snd (Enemy_update dt e g)).
Proof.
  unfold Enemy_update, sameLedger. cbv zeta.
  destruct (Enemy.type e); branches; cbn; repeat split; reflexivity.
Qed.

Lemma Enemy_update_ok m dt e g :
  EnemyOk e -> Ledger m g ->
  EnemyOk (fst (Enemy_update dt e g)) /\ Ledger m (snd (Enemy_update dt e g)).
Proof.
  intros (R & V & H & A) L.
  split; [|eapply Ledger_same; [apply Enemy_update_ledger | exact L]].
  destruct (Enemy_update_keeps dt e g) as (K1 & K2 & K3 & K4 & _ & _ & K7 & K8 & _).
  cbv zeta in *. unfold EnemyOk. rewrite K1, K2, K3, K4, K7, K8. now repeat split.
Qed.

Lemma entities_ledger m dt sdt g : Ledger m g -> Ledger m (Game_entities dt sdt g).
Proof.
  intro L. unfold Game_entities. cbv zeta.
  assert (L1 : Ledger m (set_cores (map (Core.update dt) (cores g)) g)).
  { apply Ledger_set_cores; [| |exact L].
    - apply Forall_map. eapply Forall_impl; [|apply L]. intros c Ok. exact Ok.
    - rewrite length_map. apply L. }
  revert L1. generalize (set_cores (map (Core.update dt) (cores g)) g).
  intros g1 L1.
  destruct (@forEach_both _ _ (Enemy_update sdt) EnemyOk EnemyOk (Ledger m)
              (fun a s => @Enemy_update_ok m sdt a s)
              (enemies g1) g1 (sound_enemies (proj1 L1)) L1) as (F & L2).
  assert (L3 : Ledger m (set_enemies (fst (forEach (Enemy_update sdt) (enemies g1) g1))
                           (snd (forEach (Enemy_update sdt) (enemies g1) g1))))
    by now apply Ledger_set_enemies.
  revert L3.
  generalize (set_enemies (fst (forEach (Enemy_update sdt) (enemies g1) g1))
                (snd (forEach (Enemy_update sdt) (enemies g1) g1))).
  intros g2 L3.
  eapply Ledger_same; [apply set_mines_ledger|].
  eapply Ledger_same; [apply set_enemyProjectiles_ledger|].
  apply Ledger_set_projectiles; [|exact L3].
  apply Forall_map. eapply Forall_impl; [|apply L3]. intros p Ok. exact Ok.
Qed.

Lemma advance_ledger m dt g : Ledger m g -> Ledger m (Game_advance dt g).
Proof.
  intro L. unfold Game_advance. cbv zeta.
  apply entities_ledger, spawnPickup_ledger, spawnWave_ledger,
    Snake_update_ledger, clocks_ledger, L.
Qed.

Lemma update_ledger m dt g : Ledger m g -> Ledger m (Game_update dt g).
Proof.
  intro L. unfold Game_update. destruct (negb _).
  - eapply Ledger_same; [apply set_input_ledger | exact L].
  - apply settle_ledger, handleCollisions_ledger, advance_ledger, L.
Qed.

Lemma draw_ledger g : sameLedger g (Game_draw g).
Proof. unfold Game_draw. ledgered. Qed.

Lemma frame_ledger m now g : Ledger m g -> Ledger m (Game_frame now g).
Proof.
  intro L. unfold Game_frame. cbv zeta.
  eapply Ledger_same; [apply draw_ledger|]. apply update_ledger.
  eapply Ledger_same; [apply set_lastTime_ledger | exact L].
Qed.

Lemma Sound_same g g' : sameLedger g g' -> Sound g -> Sound g'.
Proof.
  intros E S. apply (@Ledger_same g g g' E). split; [exact S | apply Grown_refl].
Qed.

Lemma reset_sound g : Sound (Game_reset g).
Proof.
  unfold Game_reset, MissionSystem_startLevel. cbv zeta.
  destruct (@drawn_ok 2 (rng g)) as (D1 & D2); [lia|].
  split; cbn;
    [constructor | constructor | constructor | lia | exact D1 | exact D2
    | lra | lra | lia | lra | lia].
Qed.

Lemma togglePause_ledger g : sameLedger g (Game_togglePause g).
Proof. unfold Game_togglePause. destruct (state g); ledgered. Qed.

Lemma keydown_ledger k g : sameLedger g (Game_keydown k g).
Proof.
  unfold Game_keydown. cbv zeta. destruct (String.eqb _ "p"); [|ledgered].
  eapply sameLedger_trans; [|apply togglePause_ledger]. ledgered.
Qed.

(** Every state of a session satisfies the bookkeeping invariant. *)
Lemma reachable_sound g : reachable g -> Sound g.
Proof.
  induction 1.
  - apply reset_sound.
  - unfold Game_startGame. eapply Sound_same; [|apply reset_sound]. ledgered.
  - eapply Sound_same; [apply togglePause_ledger | assumption].
  - eapply Sound_same; [apply keydown_ledger | assumption].
  - eapply Sound_same; [|eassumption]. unfold Game_keyup. ledgered.
  - apply (@frame_ledger g now g). split; [assumption | apply Grown_refl].
Qed.

(* ------------------------------------------------------------------ *)
(** ** What the bookkeeping invariant gives *)

(** X18 (the [Enemy] constructor and [takeDamage], lines 286-348, through
    every step of the tick).  Between ticks every enemy on the field is
    alive, has positive health and no more of it than its maximum, and
    has the radius and the score value of its archetype. *)
Theorem enemies_on_the_field_are_sound (g : Game.t) :
  reachable g ->
  Forall (fun e => Enemy.alive e = true /\
                   0 < Enemy.health e /\ Enemy.health e <= Enemy.maxHealth e /\
                   Enemy.radius e = Enemy.radius0 (Enemy.type e) /\
                   Enemy.scoreValue e = Enemy.scoreValue0 (Enemy.type e))
         (enemies g).
Proof.
  intro R. destruct (reachable_settled R) as (_ & A).
  pose proof (sound_enemies (reachable_sound R)) as O.
  rewrite Forall_forall in *. intros e I.
  destruct (O e I) as (Ra & V & H & P). specialize (A e I).
  repeat split; auto.
Qed.

Lemma sumRewards_cap ms :
  Forall MissionOk ms -> (List.length ms <= 3)%nat -> sumRewards ms <= 540.
Proof.
  intros F L.
  destruct ms as [|a [|b [|c [|d ms]]]]; cbn in L; try lia;
    repeat match goal with
      | H : Forall _ (_ :: _) |- _ => inversion H; clear H; subst
      | H : MissionOk _ |- _ => destruct H as (? & _)
      end;
    cbn; branches;
    repeat match goal with
      | H : Mission.reward _ = _ |- _ => rewrite H; clear H
      end;
    lra.
Qed.

(** X19 ([Mission] and [MissionSystem], lines 467-552, through every
    step of the tick).  In every state of a session there are at most
    three missions, each with a reward of 180 and a progress between 0
    and its target that is short of the target as long as the mission is
    not done; so what [rewardScore] pays at a level-up is between 0 and
    540. *)
Theorem missions_stay_within_their_target (g : Game.t) :
  reachable g ->
  (List.length (missions g) <= 3)%nat /\
  Forall (fun m => Mission.reward m = 180 /\
                   0 <= Mission.progress m /\
                   Mission.progress m <= Mission.target m /\
                   (Mission.done m = false ->
                    Mission.progress m < Mission.target m))
         (missions g) /\
  0 <= MissionSystem_rewardScore (missions g) /\
  MissionSystem_rewardScore (missions g) <= 540.
Proof.
  intro R. destruct (reachable_sound R).
  split; [assumption|]. split.
  - eapply Forall_impl; [|exact sound_missions0].
    intros m (A & B & C & D & _). now repeat split.
  - rewrite rewardScore_sum.
    split; [now apply sumRewards_nonneg | now apply sumRewards_cap].
Qed.

(** X20 ([Core] and the pickup director, lines 435-465, 903-906 and
    1062-1065, through every step of the tick).  In every state of a
    session there are at most nine pickups on the field; each is not
    collected, is worth 25, has radius 8, and is of one of the three
    kinds: the index drawn by [randInt(0, 2)] is never out of range.
    Every frame keeps it so, from any state that satisfies the
    bookkeeping invariant: the director adds no tenth pickup. *)
Theorem pickups_are_capped_and_well_formed (g : Game.t) :
  let capped := fun g : Game.t =>
    (List.length (cores g) <= 9)%nat /\
    Forall (fun c => Core.collected c = false /\ Core.value c = 25 /\
                     Core.radius c = 8 /\ exists k, Core.kind c = Some k)
           (cores g) in
  (reachable g -> capped g) /\
  (Sound g -> forall now : Q, capped (Game_frame now g)).
Proof.
  cbv zeta.
  assert (K : forall s, Sound s ->
              (List.length (cores s) <= 9)%nat /\
              Forall (fun c => Core.collected c = false /\ Core.value c = 25 /\
                               Core.radius c = 8 /\ exists k, Core.kind c = Some k)
                     (cores s)).
  { intros s []. split; [assumption|].
    eapply Forall_impl; [|exact sound_cores0].
    intros c (V & Ra & C & K). repeat split; try assumption.
    destruct (Core.kind c) as [k|]; [now exists k | congruence]. }
  split.
  - intro R. apply K. now apply reachable_sound.
  - intros S now. apply K.
    apply (@frame_ledger g now g). split; [exact S | apply Grown_refl].
Qed.

(** X21 ([Game.gainScore] and [Game.explodeEnemy], lines 908-943, through
    every step of the tick).  A frame never takes anything back: score,
    level, maximal health and length after it are at least what they
    were, experience and score are never negative, and the level is at
    least 1.  This holds from every state of a session, and from every
    state that satisfies the bookkeeping invariant. *)
Theorem a_frame_never_takes_back (now : Q) (g : Game.t) :
  let g' := Game_frame now g in
  let kept :=
    score g <= score g' /\ (level g <= level g')%Z /\
    Snake.maxHealth (snake g) <= Snake.maxHealth (snake g') /\
    (Snake.length (snake g) <= Snake.length (snake g'))%Z /\
    0 <= xp g' /\ 0 <= score g /\ (1 <= level g)%Z in
  (reachable g -> kept) /\ (Sound g -> kept).
Proof.
  cbv zeta.
  assert (K : Sound g ->
              score g <= score (Game_frame now g) /\
              (level g <= level (Game_frame now g))%Z /\
              Snake.maxHealth (snake g) <= Snake.maxHealth (snake (Game_frame now g)) /\
              (Snake.length (snake g) <= Snake.length (snake (Game_frame now g)))%Z /\
              0 <= xp (Game_frame now g) /\ 0 <= score g /\ (1 <= level g)%Z).
  { intro S.
    destruct (@frame_ledger g now g (conj S (Grown_refl g)))
      as ([] & (G1 & G2 & G3 & G4 & _)).
    destruct S. now repeat split. }
  split; [intro R; apply K; now apply reachable_sound | exact K].
Qed.

(* ------------------------------------------------------------------ *)
(** ** The combo tier across a frame (C9) *)

(** C9, as amended.  The combo tier is a high-water mark of the whole
    match, moved by scoring events only.  Every scoring event sets it to
    the larger of its previous value and the floor of the new combo,
    whether or not the event starts a new level.  [reset] takes it back
    to 1, and so does [startGame], which calls it; the key and pause
    listeners leave it alone.  Under the invariant, which every state of
    a session satisfies, it bounds the floor of the combo, and a frame
    of a running match ends with the larger of the tier it started with
    and the floor of the combo as the scoring passes of the frame left
    it, so no frame lowers it; a frame of a match that is not running
    leaves it alone.  Under the bookkeeping invariant a frame never
    lowers the score, and a frame that leaves the score where it was
    leaves the tier where it was. *)
Theorem comboTier_high_water_mark (g : Game.t) :
  (forall p : Q,
      comboTier (Game_gainScore p g) =
      Z.max (comboTier g) (Math_floor (combo (Game_gainScore p g)))) /\
  comboTier (Game_reset g) = 1%Z /\
  comboTier (Game_startGame g) = 1%Z /\
  (forall k : string,
      comboTier (Game_keydown k g) = comboTier g /\
      comboTier (Game_keyup k g) = comboTier g) /\
  comboTier (Game_togglePause g) = comboTier g /\
  (reachable g -> Safe g /\ Sound g) /\
  (Safe g ->
   (Math_floor (combo g) <= comboTier g)%Z /\
   forall now : Q,
     let dt := clamp ((now - lastTime g) / 1000) 0 (5#100) in
     let g' := Game_frame now g in
     (comboTier g <= comboTier g')%Z /\
     (state g = running ->
      comboTier g'
      = Z.max (comboTier g)
          (Math_floor (combo (beforeDamage dt (set_lastTime now g))))) /\
     (state g <> running -> comboTier g' = comboTier g) /\
     (Sound g ->
      score g <= score g' /\
      (score g' == score g -> comboTier g' = comboTier g))).
Proof.
  split; [intro p; apply gainScore_comboTier|].
  split; [reflexivity|]. split; [reflexivity|].
  split; [intro k; split;
          [apply (keydown_same k g) | unfold Game_keyup; reflexivity]|].
  split; [apply (togglePause_same g)|].
  split; [intro R; split; [now apply reachable_safe | now apply reachable_sound]|].
  intro S. split; [apply S|]. intros now dt g'.
  split; [now apply frame_comboTier|].
  split; [|split].
  - intro E.
    assert (S0 : Safe (set_lastTime now g))
      by (eapply Safe_sameCore; [|exact S]; unfold sameCore; now repeat split).
    pose proof (beforeDamage_pre dt S0) as (SM & _ & T & K).
    pose proof (safe_floor SM) as F.
    pose proof (frame_damage now S) as D. cbv zeta in D. fold dt in D.
    assert (G : g' = Game_draw
                       (Game_settle dt
                          (Game_handleCollisions dt
                             (Game_advance dt (set_lastTime now g))))).
    { subst g'. unfold Game_frame, Game_update. cbv zeta. fold dt.
      cbn [state set_lastTime]. now rewrite E. }
    rewrite <- G in D. destruct D as (D & _). rewrite D.
    change (comboTier (set_lastTime now g)) with (comboTier g) in T, K. lia.
  - intro N. subst g'. unfold Game_frame. cbv zeta.
    rewrite (proj1 (proj2 (proj2 (proj2 (proj2 (proj2 (draw_same _))))))).
    unfold Game_update. cbn [state set_lastTime].
    destruct (state g); try contradiction; reflexivity.
  - intro So.
    destruct (@frame_ledger g now g (conj So (Grown_refl g)))
      as (_ & (G1 & _ & _ & _ & G5)).
    split; [exact G1 | exact G5].
Qed.

(* ------------------------------------------------------------------ *)
(** ** What is on the field between ticks *)

Lemma sweep_fields g :
  projectiles (sweep g) = filter Projectile.alive (projectiles g) /\
  enemyProjectiles (sweep g) = filter Projectile.alive (enemyProjectiles g) /\
  mines (sweep g) = filter Mine.alive (mines g) /\
  enemies (sweep g) = filter Enemy.alive (enemies g).
Proof. unfold sweep. now repeat split. Qed.

Lemma filter_all (A : Type) (f : A -> bool) (l : list A) :
  Forall (fun a => f a = true) (filter f l).
Proof. apply Forall_forall. intros a I. now apply filter_In in I. Qed.

Lemma update_tidy dt g :
  Forall (fun p => Projectile.alive p = true) (projectiles g) /\
  Forall (fun p => Projectile.alive p = true) (enemyProjectiles g) /\
  Forall (fun m => Mine.alive m = true) (mines g) ->
  Forall (fun p => Projectile.alive p = true) (projectiles (Game_update dt g)) /\
  Forall (fun p => Projectile.alive p = true) (enemyProjectiles (Game_update dt g)) /\
  Forall (fun m => Mine.alive m = true) (mines (Game_update dt g)).
Proof.
  intro T. unfold Game_update. destruct (negb _); [exact T|].
  destruct (settle_fields dt (Game_handleCollisions dt (Game_advance dt g)))
    as (_ & E1 & E2 & E3 & _).
  cbv zeta in *. rewrite E1, E2, E3. unfold Game_handleCollisions.
  match goal with
  | |- context [sweep ?s] => destruct (sweep_fields s) as (S1 & S2 & S3 & _)
  end.
  rewrite S1, S2, S3. repeat split; apply filter_all.
Qed.

Lemma reachable_tidy g :
  reachable g ->
  Forall (fun p => Projectile.alive p = true) (projectiles g) /\
  Forall (fun p => Projectile.alive p = true) (enemyProjectiles g) /\
  Forall (fun m => Mine.alive m = true) (mines g).
Proof.
  induction 1 as [now | g R IH | g R IH | k g R IH | k g R IH | now g R IH].
  - cbn. repeat split; constructor.
  - cbn. repeat split; constructor.
  - unfold Game_togglePause. now destruct (state g).
  - unfold Game_keydown, Game_togglePause. cbv zeta.
    destruct (String.eqb _ "p"); [|exact IH].
    cbn [state set_input]. now destruct (state g).
  - exact IH.
  - unfold Game_frame. cbv zeta.
    destruct (draw_keeps (Game_update (clamp ((now - lastTime g) / 1000) 0 (5#100))
                            (set_lastTime now g))) as [n ->].
    cbn [projectiles enemyProjectiles mines set_rng].
    apply update_tidy. exact IH.
Qed.

(** After a running tick only what is alive is on the field. *)
Lemma update_swept dt g :
  state g = running ->
  Forall (fun p => Projectile.alive p = true) (projectiles (Game_update dt g)) /\
  Forall (fun p => Projectile.alive p = true) (enemyProjectiles (Game_update dt g)) /\
  Forall (fun m => Mine.alive m = true) (mines (Game_update dt g)).
Proof.
  intro R. unfold Game_update. rewrite R. cbn [GameState_eqb negb].
  destruct (settle_fields dt (Game_handleCollisions dt (Game_advance dt g)))
    as (_ & E1 & E2 & E3 & _).
  cbv zeta in *. rewrite E1, E2, E3. unfold Game_handleCollisions.
  match goal with
  | |- context [sweep ?s] => destruct (sweep_fields s) as (S1 & S2 & S3 & _)
  end.
  rewrite S1, S2, S3. repeat split; apply filter_all.
Qed.

(** X22 (the sweep of lines 1028-1031, with the player's and the enemies'
    weapons).  Between ticks nothing dead is left on the field: every
    projectile and every mine is alive; every projectile of the player
    has damage 12 and radius 4, and no hostile projectile has negative
    damage.  This holds in every state of a session, and after a frame
    of a running match from every state that satisfies the two
    invariants, whatever was dead or died on the field during the
    frame. *)
Theorem nothing_dead_is_left_on_the_field (g : Game.t) :
  let tidy := fun g : Game.t =>
    Forall (fun p => Projectile.alive p = true /\ Projectile.damage p = 12 /\
                     Projectile.radius p = 4) (projectiles g) /\
    Forall (fun p => Projectile.alive p = true /\ 0 <= Projectile.damage p)
           (enemyProjectiles g) /\
    Forall (fun m => Mine.alive m = true) (mines g) in
  (reachable g -> tidy g) /\
  (Safe g -> Sound g -> state g = running ->
   forall now : Q, tidy (Game_frame now g)).
Proof.
  cbv zeta.
  assert (K : forall s,
             Safe s -> Sound s ->
             Forall (fun p => Projectile.alive p = true) (projectiles s) /\
             Forall (fun p => Projectile.alive p = true) (enemyProjectiles s) /\
             Forall (fun m => Mine.alive m = true) (mines s) ->
             Forall (fun p => Projectile.alive p = true /\ Projectile.damage p = 12 /\
                              Projectile.radius p = 4) (projectiles s) /\
             Forall (fun p => Projectile.alive p = true /\ 0 <= Projectile.damage p)
                    (enemyProjectiles s) /\
             Forall (fun m => Mine.alive m = true) (mines s)).
  { intros s Sa So (T1 & T2 & T3).
    pose proof (sound_shots So) as S.
    pose proof (safe_hostile Sa) as H. unfold HostileOk in H.
    split; [|split; [|exact T3]]; rewrite Forall_forall in *.
    - intros p I. destruct (S p I). repeat split; auto.
    - intros p I. split; auto. }
  split.
  - intro R. apply K;
      [now apply reachable_safe | now apply reachable_sound | now apply reachable_tidy].
  - intros Sa So R now. apply K.
    + now apply frame_safe.
    + apply (@frame_ledger g now g). split; [exact So | apply Grown_refl].
    + unfold Game_frame. cbv zeta.
      destruct (draw_keeps (Game_update (clamp ((now - lastTime g) / 1000) 0 (5#100))
                              (set_lastTime now g))) as [n ->].
      cbn [projectiles enemyProjectiles mines set_rng].
      now apply update_swept.
Qed.

Lemma collectCore_fst c s :
  fst (collectCore c s)
  = if Qltb (distance (Core.x c) (Core.y c) (headX s) (headY s)) 18
    then Core.collect c else c.
Proof. unfold collectCore. now destruct (Qltb _ 18). Qed.

(** X23 (the pickup loop, lines 946-963).  One pass over pickups that are
    not collected removes exactly those whose centre is within 18 of the
    head, keeps the others in their order, and does not move the head:
    whatever the collection of one pickup does to the match, it does not
    change which of the later ones are in reach. *)
Theorem pickups_in_reach_are_collected (g : Game.t) :
  Forall (fun c => Core.collected c = false) (cores g) ->
  cores (pickupPass g)
  = filter (fun c => negb (Qltb (distance (Core.x c) (Core.y c) (headX g) (headY g)) 18))
      (cores g) /\
  Snake.head (snake (pickupPass g)) = Snake.head (snake g).
Proof.
  intro U. split; [|apply pickupPass_stage].
  unfold pickupPass. cbv zeta. cbn [cores set_cores].
  assert (K : forall l s,
             sameStage g s -> Forall (fun c => Core.collected c = false) l ->
             filter (fun c => negb (Core.collected c)) (fst (forEach collectCore l s))
             = filter (fun c => negb (Qltb (distance (Core.x c) (Core.y c)
                                              (headX g) (headY g)) 18)) l).
  { induction l as [|c l IH]; intros s S F; [reflexivity|].
    inversion F as [|? ? Uc Ul]; subst.
    cbn [forEach fst snd filter].
    rewrite (IH (snd (collectCore c s)));
      [|eapply sameStage_trans; [exact S | apply collectCore_stage] | exact Ul].
    assert (H : headX s = headX g /\ headY s = headY g).
    { unfold headX, headY. destruct S as (_ & _ & _ & _ & _ & _ & _ & H).
      now rewrite H. }
    destruct H as (HX & HY).
    rewrite collectCore_fst, HX, HY.
    destruct (Qltb _ 18); cbn [negb Core.collected Core.collect];
      [reflexivity | now rewrite Uc]. }
  apply K; [apply sameStage_refl | exact U].
Qed.

(* ------------------------------------------------------------------ *)
(** ** The draw of the missions *)

Lemma NoDup_firstn (A : Type) n (l : list A) : NoDup l -> NoDup (firstn n l).
Proof.
  revert l. induction n as [|n IH]; intros [|a l] N;
    rewrite ?firstn_O, ?firstn_nil, ?firstn_cons; try constructor.
  - inversion N; subst. intro I. apply firstn_subset in I. contradiction.
  - inversion N; subst. now apply IH.
Qed.

Lemma firstn_map (A B : Type) (f : A -> B) n (l : list A) :
  firstn n (map f l) = map f (firstn n l).
Proof.
  revert l. induction n as [|n IH]; intros [|a l];
    rewrite ?firstn_O, ?firstn_nil, ?firstn_cons; cbn [map];
    rewrite ?firstn_O, ?firstn_nil, ?firstn_cons; try reflexivity.
  now rewrite IH.
Qed.

Lemma pool_types : NoDup (map Mission.type pool).
Proof.
  cbn. repeat constructor; cbn; intuition discriminate.
Qed.

(** X24 ([MissionSystem.startLevel], lines 519-526).  Whatever the order
    the random sort leaves the pool in, [startLevel] draws three missions
    when the level is a multiple of 3 and two otherwise; they come from
    the pool untouched (no progress, neither done nor failed, reward
    180), and no two of them are of the same type. *)
Theorem startLevel_draws_distinct_missions (lvl : Z) (g : Game.t) :
  let ms := missions (MissionSystem_startLevel lvl g) in
  List.length ms = (if (Z.rem lvl 3 =? 0)%Z then 3%nat else 2%nat) /\
  NoDup (map Mission.type ms) /\
  Forall (fun m => In m pool /\ Mission.progress m = 0 /\
                   Mission.done m = false /\ Mission.failed m = false /\
                   Mission.reward m = 180) ms.
Proof.
  cbv zeta. unfold MissionSystem_startLevel. cbv zeta.
  cbn [missions set_rng set_missions].
  pose proof (sortRandom_perm (rng g) pool) as P.
  split; [|split].
  - rewrite length_firstn, <- (Permutation_length P).
    destruct (_ =? _)%Z; reflexivity.
  - rewrite <- firstn_map. apply NoDup_firstn.
    eapply Permutation_NoDup; [apply Permutation_map, P | apply pool_types].
  - apply Forall_forall. intros m I. apply firstn_subset in I.
    assert (Ip : In m pool)
      by (eapply Permutation_in; [apply Permutation_sym, P | exact I]).
    split; [exact Ip|].
    unfold pool in Ip. cbn in Ip.
    repeat (destruct Ip as [<- | Ip]; [now repeat split|]). contradiction.
Qed.

(* ------------------------------------------------------------------ *)
(** ** The spawn directors *)

(** X25 ([Game.spawnEnemy] with the [Enemy] constructor, lines 871-901
    and 293-335).  A spawn draws four random values and appends one
    enemy, placed 20 outside one of the four edges of the world at a
    position along that edge, standing still, at full health, with a fire
    cooldown from 0.8 to 1.6. *)
Theorem enemies_enter_from_an_edge (g : Game.t) :
  0 <= WORLD_width -> 0 <= WORLD_height ->
  exists e,
    enemies (Game_spawnEnemy g) = enemies g ++ [e] /\
    rng (Game_spawnEnemy g) = (rng g + 4)%nat /\
    ((Enemy.y e = -20 /\ 0 <= Enemy.x e /\ Enemy.x e <= WORLD_width) \/
     (Enemy.x e = WORLD_width + 20 /\ 0 <= Enemy.y e /\ Enemy.y e <= WORLD_height) \/
     (Enemy.y e = WORLD_height + 20 /\ 0 <= Enemy.x e /\ Enemy.x e <= WORLD_width) \/
     (Enemy.x e = -20 /\ 0 <= Enemy.y e /\ Enemy.y e <= WORLD_height)) /\
    (Enemy.vx e = 0 /\ Enemy.vy e = 0) /\
    ((8#10) <= Enemy.fireCooldown e /\ Enemy.fireCooldown e <= (16#10)) /\
    Enemy.health e = Enemy.maxHealth e /\ Enemy.alive e = true.
Proof.
  intros W H. unfold Game_spawnEnemy. cbv zeta.
  cbn [enemies rng set_rng set_enemies].
  eexists. split; [reflexivity|]. split; [reflexivity|].
  unfold Enemy.new.
  cbn [Enemy.x Enemy.y Enemy.vx Enemy.vy Enemy.fireCooldown Enemy.health
       Enemy.maxHealth Enemy.alive].
  pose proof (randRange_bounds (rng g + 2) W) as BW.
  pose proof (randRange_bounds (rng g + 2) H) as BH.
  split; [|split; [now split|split; [|now split]]].
  - destruct (randInt 0 3 (rng g + 1) =? 0)%Z; [left; now split|].
    destruct (randInt 0 3 (rng g + 1) =? 1)%Z; [right; left; now split|].
    destruct (randInt 0 3 (rng g + 1) =? 2)%Z;
      [right; right; left; now split | right; right; right; now split].
  - apply randRange_bounds. lra.
Qed.

Lemma spawnEnemy_counts g :
  spawnTimer (Game_spawnEnemy g) = spawnTimer g /\
  level (Game_spawnEnemy g) = level g /\
  List.length (enemies (Game_spawnEnemy g)) = S (List.length (enemies g)) /\
  rng (Game_spawnEnemy g) = (rng g + 4)%nat.
Proof.
  unfold Game_spawnEnemy. cbv zeta.
  cbn [enemies rng spawnTimer level set_rng set_enemies].
  rewrite length_app. cbn [List.length]. repeat split; lia.
Qed.

Lemma repeat_spawn_counts n : forall g,
  spawnTimer (repeatN n Game_spawnEnemy g) = spawnTimer g /\
  List.length (enemies (repeatN n Game_spawnEnemy g)) = (List.length (enemies g) + n)%nat /\
  rng (repeatN n Game_spawnEnemy g) = (rng g + 4 * n)%nat.
Proof.
  induction n as [|n IH]; intro g; cbn [repeatN].
  - repeat split; lia.
  - destruct (IH (Game_spawnEnemy g)) as (I1 & I2 & I3).
    destruct (spawnEnemy_counts g) as (S1 & _ & S2 & S3).
    rewrite I1, I2, I3, S1, S2, S3. repeat split; lia.
Qed.

(** X26 (the enemy spawn director, lines 1055-1060).  While the spawn
    timer is positive the director does nothing.  Once it has run out,
    the director spawns one enemy, two from level 6 on, and sets the
    timer to a value from 0.3375 up to but not including 2.75: the base
    interval, between 0.45 and 2.2, times a factor from 0.75 up to but
    not including 1.25. *)
Theorem spawn_director_cadence (g : Game.t) :
  let g' := Game_spawnWave g in
  let amount := if (level g >=? 6)%Z then 2%nat else 1%nat in
  (0 < spawnTimer g -> g' = g) /\
  (spawnTimer g <= 0 ->
   ((3375#10000) <= spawnTimer g' /\ spawnTimer g' < (275#100)) /\
   List.length (enemies g') = (List.length (enemies g) + amount)%nat /\
   rng g' = (rng g + 1 + 4 * amount)%nat).
Proof.
  cbv zeta. unfold Game_spawnWave. cbv zeta. split.
  - intro P. destruct (Qleb (spawnTimer g) 0) eqn:E; [|reflexivity].
    apply Qleb_true in E. lra.
  - intro P. rewrite (proj2 (Qleb_true _ _) P).
    cbn [level set_rng set_spawnTimer].
    match goal with
    | |- context [repeatN ?n Game_spawnEnemy ?s] =>
        destruct (repeat_spawn_counts n s) as (C1 & C2 & C3)
    end.
    rewrite C1, C2, C3. cbn [spawnTimer enemies rng set_rng set_spawnTimer].
    split; [|split; reflexivity].
    assert (B : (45#100) <= clamp ((22#10) - inject_Z (level g) * (8#100))
                              (45#100) (22#10) /\
                clamp ((22#10) - inject_Z (level g) * (8#100)) (45#100) (22#10)
                <= (22#10)) by (apply clamp_range; lra).
    revert B.
    generalize (clamp ((22#10) - inject_Z (level g) * (8#100)) (45#100) (22#10)).
    intros b (B0 & B1).
    assert (R0 : (75#100) <= randRange (75#100) (125#100) (rng g))
      by (apply randRange_bounds; lra).
    assert (R1 : randRange (75#100) (125#100) (rng g) < (125#100))
      by (apply randRange_below; reflexivity).
    revert R0 R1. generalize (randRange (75#100) (125#100) (rng g)).
    intros r R0 R1. split; nra.
Qed.

(** X27 (the pickup spawn director with [Game.spawnCore], lines 903-906
    and 1062-1065).  The director does nothing while its timer is
    positive, and nothing either, not even a reset of the timer, while
    nine pickups are on the field.  Otherwise it sets the timer to a
    value from 1.2 up to but not including 2.6 and adds one pickup, not
    collected, worth 25, of one of the three kinds, at least 30 inside
    the world on every side. *)
Theorem pickup_director_cadence (g : Game.t) :
  60 <= WORLD_width -> 60 <= WORLD_height ->
  let g' := Game_spawnPickup g in
  (0 < coreSpawnTimer g \/ (9 <= List.length (cores g))%nat -> g' = g) /\
  (coreSpawnTimer g <= 0 -> (List.length (cores g) < 9)%nat ->
   ((12#10) <= coreSpawnTimer g' /\ coreSpawnTimer g' < (26#10)) /\
   rng g' = (rng g + 5)%nat /\
   exists c,
     cores g' = cores g ++ [c] /\ CoreOk c /\
     (30 <= Core.x c /\ Core.x c <= WORLD_width - 30) /\
     (30 <= Core.y c /\ Core.y c <= WORLD_height - 30)).
Proof.
  intros W H. cbv zeta. unfold Game_spawnPickup. split.
  - intros [P | P].
    + destruct (Qleb (coreSpawnTimer g) 0) eqn:E; [|reflexivity].
      apply Qleb_true in E. lra.
    + destruct (List.length (cores g) <? 9)%nat eqn:E;
        [apply Nat.ltb_lt in E; lia|].
      now rewrite andb_false_r.
  - intros T C.
    rewrite (proj2 (Qleb_true _ _) T), (proj2 (Nat.ltb_lt _ _) C).
    cbn [andb]. unfold Game_spawnCore. cbv zeta.
    cbn [coreSpawnTimer rng cores set_rng set_cores set_coreSpawnTimer].
    split; [split; [apply randRange_bounds; lra | apply randRange_below; reflexivity]|].
    split; [lia|].
    eexists. split; [reflexivity|].
    split; [apply new_core_ok, randInt_bounds; lia|].
    unfold Core.new. cbn [Core.x Core.y].
    split; apply randRange_bounds; lra.
Qed.

(* ------------------------------------------------------------------ *)
(** ** Mines against the enemies of a session *)

(** X28 (the blast of lines 986-993, with the archetype radii of the
    [Enemy] constructor).  In a session a blast takes more than 19.5
    health from every live enemy it reaches, namely 65 less 0.35 per
    unit of distance: no enemy is large enough for the falloff to turn
    negative and heal it.  The enemy is alive afterwards exactly if it
    has health left. *)
Theorem a_blast_always_hurts (m : Mine.t) (e : Enemy.t) (g s : Game.t) :
  reachable g -> In e (enemies g) -> inBlast m e = true ->
  let d := distance (Mine.x m) (Mine.y m) (Enemy.x e) (Enemy.y e) in
  let e' := fst (blast m e s) in
  Enemy.health e' = Enemy.health e - (65 - d * (35#100)) /\
  Enemy.health e' < Enemy.health e - (195#10) /\
  (Enemy.alive e' = true <-> 0 < Enemy.health e').
Proof.
  intros R I B. cbv zeta.
  pose proof (sound_enemies (reachable_sound R)) as O.
  rewrite Forall_forall in O. destruct (O e I) as (Ra & _).
  unfold inBlast in B. apply andb_true_iff in B. destruct B as (A & D).
  unfold blast. cbv zeta. rewrite A, D. cbn [negb].
  apply Qltb_true in D. rewrite Ra in D.
  destruct (radius0_bound (Enemy.type e)) as (_ & R40).
  assert (H : Enemy.health
                (fst (let t' := Enemy.takeDamage
                                  (65 - distance (Mine.x m) (Mine.y m)
                                          (Enemy.x e) (Enemy.y e) * (35#100)) e in
                      (t', if Enemy.alive t' then s
                           else Game_explodeEnemy t' true s)))
              = Enemy.health e
                - (65 - distance (Mine.x m) (Mine.y m) (Enemy.x e) (Enemy.y e)
                        * (35#100))) by reflexivity.
  cbv zeta in H.
  split; [exact H|]. split; [rewrite H; lra|].
  cbn [fst]. unfold Enemy.takeDamage. cbn [Enemy.alive Enemy.health].
  rewrite A. qcase; split; intro K; try discriminate; try reflexivity; lra.
Qed.

(* ------------------------------------------------------------------ *)
(** ** The life cycle of a match *)


(** X30 (the pause button and the [p] key, lines 803-829, with the guard
    of [Game.update], lines 1035-1038, and [Game.draw], lines 1169-1175).
    Pausing a running match, letting a frame pass and resuming gives back
    the match as it was, with the key presses that were pending dropped,
    the frame time stamp moved to that frame, and the picture of that
    frame drawn: no time of the match elapses, and the next delta is
    measured from the paused frame.  In the menu and after game over the
    pause control does nothing and a frame changes nothing else.  The
    picture takes two values of the random sequence if the camera
    shakes, and leaves the match alone otherwise. *)
Theorem a_pause_freezes_the_match (now : Q) (g : Game.t) :
  (state g = running ->
   state (Game_togglePause g) = paused /\
   Game_togglePause (Game_frame now (Game_togglePause g))
   = Game_draw (set_lastTime now (set_input (InputManager.endFrame (input g)) g))) /\
  (state g = menu \/ state g = gameover ->
   Game_togglePause g = g /\
   Game_frame now g
   = Game_draw (set_lastTime now (set_input (InputManager.endFrame (input g)) g))) /\
  (0 < cameraShake g -> Game_draw g = set_rng (rng g + 2) g) /\
  (cameraShake g <= 0 -> Game_draw g = g).
Proof.
  split; [|split; [|split]].
  - unfold Game_togglePause, Game_frame, Game_update, Game_draw. cbv zeta.
    destruct g. cbn. intros ->. cbn. split; [reflexivity|].
    now destruct (Qgtb _ 0).
  - unfold Game_togglePause, Game_frame, Game_update, Game_draw. cbv zeta.
    destruct g. cbn. intros [-> | ->]; cbn; (split; [reflexivity|]);
      now destruct (Qgtb _ 0).
  - intro C. unfold Game_draw, Qgtb. qcase; [reflexivity | lra].
  - intro C. unfold Game_draw, Qgtb. qcase; [lra | reflexivity].
Qed.

End Further.

(* ------------------------------------------------------------------ *)
(** ** The further properties on concrete states *)

Section FurtherExamples.
#[local] Existing Instance RationalHost.host.

Lemma opened_reachable : reachable opened.
Proof. apply reach_frame, fresh_reachable. Qed.

(** The scenarios satisfy the two invariants. *)
Lemma drawn_fine tier :
  (0 <= tier <= 6)%Z ->
  Forall comboPeakOk (drawn tier) /\ Forall MissionOk (drawn tier).
Proof.
  intro T.
  assert (T0 : 0 <= inject_Z tier)
    by (change 0 with (inject_Z 0); rewrite <- Zle_Qle; lia).
  assert (T6 : inject_Z tier <= 6)
    by (change 6 with (inject_Z 6); rewrite <- Zle_Qle; lia).
  unfold drawn, Mission.new. split.
  - constructor; [|constructor; [|constructor]]; unfold comboPeakOk; cbn.
    + intros _. repeat split. exact T6.
    + discriminate.
  - constructor; [|constructor; [|constructor]]; unfold MissionOk, eventDriven; cbn.
    + split; [reflexivity|]. split; [exact T0|]. split; [lra|].
      split; [intros _; lra|]. split; [reflexivity|].
      intros (_ & N). now contradiction N.
    + split; [reflexivity|]. split; [lra|]. split; [lra|].
      split; [intros _; lra|]. split; [discriminate|].
      intros _. split; [now exists 0%Z | now exists 5%Z].
Qed.

(** Closes a comparison between numbers that are given. *)
Ltac given := first [lia | vm_compute; first [reflexivity | discriminate | lia]].

(** Splits a property of a list that is given into one of each element. *)
Ltac listed :=
  unfold HostileOk;
  repeat first [apply Forall_nil | apply Forall_cons]; cbv beta;
  unfold ShotOk, CoreOk, EnemyOk;
  repeat match goal with
    | |- _ /\ _ => split
    | |- _ = _ -> _ => intros _
    end.

Lemma pack_fine : EnemiesOk pack /\ Forall EnemyOk pack.
Proof. split; [split|]; listed; given. Qed.

Lemma scene_safe lvl sn shots hostile cs ms sc ex cb ct tier pt took secs :
  (1 <= lvl)%Z -> resourcesOk sn -> 1 <= cb -> cb <= 6 ->
  (1 <= tier <= 6)%Z -> (Math_floor cb <= tier)%Z -> HostileOk hostile ->
  Safe (scene lvl sn shots hostile cs ms sc ex cb ct tier pt took secs).
Proof.
  intros L (R1 & R2 & R3 & R4) C1 C6 T F Ho.
  destruct (@drawn_fine tier) as (M & _); [lia|].
  destruct pack_fine as (E & _).
  split; cbn; try assumption; try lra; try lia.
Qed.

Lemma scene_sound lvl sn shots hostile cs ms sc ex cb ct tier pt took secs :
  (1 <= lvl)%Z ->
  Forall ShotOk shots -> Forall CoreOk cs -> (List.length cs <= 9)%nat ->
  0 <= ex -> 0 <= sc -> 1 <= cb -> (0 <= tier <= 6)%Z ->
  Sound (scene lvl sn shots hostile cs ms sc ex cb ct tier pt took secs).
Proof.
  intros L Sh Co Cap X Sc C T.
  destruct (drawn_fine T) as (_ & M).
  destruct pack_fine as (_ & E).
  split; cbn; try assumption; try lia.
Qed.

Lemma row_fine n : Forall CoreOk (row n).
Proof.
  unfold row. apply Forall_map, Forall_forall. intros k _.
  unfold CoreOk, Core.new. cbn. repeat split.
  pose proof (Z.mod_pos_bound (Z.of_nat k) 3 ltac:(lia)) as B.
  destruct (Z.of_nat k mod 3 <? 0)%Z eqn:E; [apply Z.ltb_lt in E; lia|].
  assert (K : (Z.to_nat (Z.of_nat k mod 3) < 3)%nat) by lia.
  destruct (Z.to_nat (Z.of_nat k mod 3)) as [|[|[|j]]]; cbn; try discriminate.
  lia.
Qed.

(** Closes the two invariants for a scenario. *)
Ltac scenario :=
  split; [apply scene_safe | apply scene_sound];
  try apply row_fine; unfold resourcesOk; listed; try given; try discriminate.

Lemma decaying_fine : Safe decaying /\ Sound decaying.
Proof. scenario. Qed.


Lemma rising_fine : Safe rising /\ Sound rising.
Proof. scenario. Qed.

Lemma veteran_fine : Safe veteran /\ Sound veteran.
Proof. scenario. Qed.

Lemma crowded_sound : Sound crowded /\ Sound eight.
Proof. split; apply scene_sound; try apply row_fine; listed; given. Qed.

Lemma cluttered_fine : Safe cluttered /\ Sound cluttered.
Proof. scenario. Qed.

(** X1, witness: with [e] and [q] just pressed, [consume("E")] delivers
    [e] once and leaves [q] to be delivered. *)
Lemma consume_is_one_shot_witness :
  let i := InputManager.mk [] ["e"%string; "q"%string] in
  fst (InputManager.consume "E" i) = true /\
  fst (InputManager.consume "e" (snd (InputManager.consume "E" i))) = false /\
  fst (InputManager.consume "Q" (snd (InputManager.consume "E" i))) = true.
Proof.
  cbv zeta.
  destruct (@consume_is_one_shot "E" (InputManager.mk [] ["e"%string; "q"%string])
              eq_refl) as (A & _ & B & C).
  split; [rewrite A; reflexivity|].
  split; [apply B; reflexivity|].
  rewrite C; [reflexivity | reflexivity | discriminate].
Defined.

(** X2, witness: [Q] tapped once or twice on an idle keyboard is
    delivered once. *)
Lemma taps_and_held_keys_witness :
  let idle := InputManager.mk [] [] in
  let tap := fun i => InputManager.keyup "Q" (InputManager.keydown "Q" i) in
  InputManager.isDown ["q"%string] (tap idle) = false /\
  fst (InputManager.consume "q" (tap idle)) = true /\
  fst (InputManager.consume "q" (tap (tap idle))) = true /\
  fst (InputManager.consume "q" (snd (InputManager.consume "q" (tap (tap idle)))))
  = false.
Proof.
  cbv zeta.
  destruct (@taps_and_held_keys "Q" (InputManager.mk [] []) eq_refl)
    as (T & _).
  cbv zeta in T. destruct (T eq_refl) as (_ & A & B & _ & C & D).
  split; [exact A|]. split; [exact B|]. split; [exact C | exact D].
Defined.

(** X5, witness: a new mine after 0.1 s and 0.2 s is alive and still
    inert. *)
Lemma mine_fuse_and_lifetime_witness :
  Mine.alive (elapse [(1#10); (2#10)] (Mine.new 3 4)) = true /\
  mineStep (elapse [(1#10); (2#10)] (Mine.new 3 4)) fresh
  = (elapse [(1#10); (2#10)] (Mine.new 3 4), fresh).
Proof.
  assert (F : Forall (fun dt => 0 <= dt) [(1#10); (2#10)])
    by (repeat constructor; vm_compute; discriminate).
  destruct (mine_fuse_and_lifetime (Mine.new 3 4) F) as (_ & _ & A & S).
  split; [apply A; reflexivity | apply S; reflexivity].
Defined.

(** X6, witness: the cornered runner is pushed back into the world. *)
Lemma enemy_update_stays_inside_witness :
  (Enemy.radius cornered <= Enemy.x (fst (Enemy_update (16#1000) cornered fresh)) /\
   Enemy.x (fst (Enemy_update (16#1000) cornered fresh))
   <= WORLD_width - Enemy.radius cornered) /\
  Enemy.health (fst (Enemy_update (16#1000) cornered fresh)) = Enemy.health cornered.
Proof.
  assert (W : Enemy.radius cornered <= WORLD_width - Enemy.radius cornered)
    by (vm_compute; discriminate).
  assert (H : Enemy.radius cornered <= WORLD_height - Enemy.radius cornered)
    by (vm_compute; discriminate).
  destruct (enemy_update_stays_inside (16#1000) cornered fresh W H)
    as (X & _ & _ & _ & _ & E & _).
  split; [exact X | exact E].
Defined.

(** X9, witness: 5 beyond either edge of a world 960 wide. *)
Lemma wrap_stays_in_world_witness :
  wrap (-5) 960 = -5 + 960 /\ wrap 965 960 = 965 - 960.
Proof.
  assert (S : 0 <= 960) by (vm_compute; discriminate).
  assert (L1 : - (960) <= -5) by (vm_compute; discriminate).
  assert (U1 : -5 <= 2 * 960) by (vm_compute; discriminate).
  assert (L2 : - (960) <= 965) by (vm_compute; discriminate).
  assert (U2 : 965 <= 2 * 960) by (vm_compute; discriminate).
  destruct (wrap_stays_in_world S L1 U1) as (_ & _ & A & _).
  destruct (wrap_stays_in_world S L2 U2) as (_ & _ & _ & B).
  split; [apply A; reflexivity | apply B; reflexivity].
Defined.

(** X10, witness: 15 health on top of 90 stops at 100, and 5 then 10 are
    worth 15. *)
Lemma heal_and_charge_saturate_witness :
  Snake.health (Snake.heal 10 bruised) == 100 /\
  Snake.health (Snake.heal 10 (Snake.heal 5 bruised))
  == Snake.health (Snake.heal (10 + 5) bruised) /\
  Snake.shield (Snake.addShield 10 (Snake.addShield 5 bruised))
  == Snake.shield (Snake.addShield (10 + 5) bruised).
Proof.
  assert (A : 0 <= 10) by (vm_compute; discriminate).
  assert (B : 0 <= 5) by (vm_compute; discriminate).
  assert (H0 : 0 <= Snake.health bruised) by (vm_compute; discriminate).
  assert (H1 : Snake.health bruised <= Snake.maxHealth bruised)
    by (vm_compute; discriminate).
  assert (S0 : 0 <= Snake.shield bruised) by (vm_compute; discriminate).
  assert (S1 : Snake.shield bruised <= 120) by (vm_compute; discriminate).
  destruct (heal_and_charge_saturate bruised A B H0 H1 S0 S1)
    as ((E & _ & _ & C) & (_ & _ & _ & D)).
  split; [rewrite E; reflexivity | split; [exact C | exact D]].
Defined.

(** X18, witness: the enemy that the first frame spawned. *)
Lemma enemies_on_the_field_are_sound_witness :
  List.length (enemies opened) = 1%nat /\
  Forall (fun e => Enemy.alive e = true /\
                   0 < Enemy.health e /\ Enemy.health e <= Enemy.maxHealth e /\
                   Enemy.radius e = Enemy.radius0 (Enemy.type e) /\
                   Enemy.scoreValue e = Enemy.scoreValue0 (Enemy.type e))
         (enemies opened).
Proof.
  split; [vm_compute; reflexivity|].
  apply (enemies_on_the_field_are_sound opened_reachable).
Defined.

(** X19, witness: the two missions of the first level, one frame in. *)
Lemma missions_stay_within_their_target_witness :
  List.length (missions opened) = 2%nat /\
  MissionSystem_rewardScore (missions opened) <= 540.
Proof.
  destruct (missions_stay_within_their_target opened_reachable) as (_ & _ & _ & C).
  split; [vm_compute; reflexivity | exact C].
Defined.

(** X20, witness: with nine pickups on the field and the pickup timer
    run out, a frame adds none; with eight, it adds the ninth. *)
Lemma pickups_are_capped_and_well_formed_witness :
  (List.length (cores crowded) = 9%nat /\ coreSpawnTimer crowded <= 0 /\
   (List.length (cores (Game_frame 30016 crowded)) <= 9)%nat) /\
  (List.length (cores eight) = 8%nat /\
   List.length (cores (Game_frame 30016 eight)) = 9%nat /\
   Forall (fun c => Core.collected c = false /\ Core.value c = 25 /\
                    Core.radius c = 8 /\ exists k, Core.kind c = Some k)
          (cores (Game_frame 30016 eight))).
Proof.
  destruct (pickups_are_capped_and_well_formed crowded) as (_ & A).
  destruct (pickups_are_capped_and_well_formed eight) as (_ & B).
  destruct (A (proj1 crowded_sound) 30016) as (A1 & _).
  destruct (B (proj2 crowded_sound) 30016) as (_ & B2).
  split; [split; [reflexivity | split; [given | exact A1]]|].
  split; [reflexivity | split; [vm_compute; reflexivity | exact B2]].
Defined.

(** X21, witness: the frame in which the pickup is absorbed takes the
    score from 1500 to 1549 and takes nothing back. *)
Lemma a_frame_never_takes_back_witness :
  score rising == 1500 /\ score (Game_frame 50016 rising) == 1549 /\
  score rising <= score (Game_frame 50016 rising) /\
  (level rising <= level (Game_frame 50016 rising))%Z /\
  (Snake.length (snake rising) <= Snake.length (snake (Game_frame 50016 rising)))%Z.
Proof.
  destruct (a_frame_never_takes_back 50016 rising) as (_ & K).
  destruct (K (proj2 rising_fine)) as (A & B & _ & C & _).
  split; [reflexivity|]. split; [vm_compute; reflexivity|].
  split; [exact A | split; [exact B | exact C]].
Defined.

(** X22, witness: of three projectiles, two hostile projectiles and
    three mines, one each is left after the frame, and it is alive. *)
Lemma nothing_dead_is_left_on_the_field_witness :
  (List.length (projectiles cluttered) = 3%nat /\
   List.length (enemyProjectiles cluttered) = 2%nat /\
   List.length (mines cluttered) = 3%nat) /\
  (List.length (projectiles (Game_frame 6506 cluttered)) = 1%nat /\
   List.length (enemyProjectiles (Game_frame 6506 cluttered)) = 1%nat /\
   List.length (mines (Game_frame 6506 cluttered)) = 1%nat) /\
  Forall (fun p => Projectile.alive p = true /\ Projectile.damage p = 12 /\
                   Projectile.radius p = 4)
         (projectiles (Game_frame 6506 cluttered)) /\
  Forall (fun p => Projectile.alive p = true /\ 0 <= Projectile.damage p)
         (enemyProjectiles (Game_frame 6506 cluttered)) /\
  Forall (fun m => Mine.alive m = true) (mines (Game_frame 6506 cluttered)).
Proof.
  destruct (nothing_dead_is_left_on_the_field cluttered) as (_ & K).
  split; [repeat split|].
  split; [repeat split; vm_compute; reflexivity|].
  exact (K (proj1 cluttered_fine) (proj2 cluttered_fine) eq_refl 6506).
Defined.



(** C9, witness.  The frame that absorbs the pickup, the twentieth
    scoring event in a row, takes the combo to 2 and the tier from 1 to
    2, the floor of the combo as the scoring passes left it, and it
    raises the score; the quiet frame leaves the score and the tier
    where they were. *)
Lemma comboTier_high_water_mark_witness :
  (comboTier rising = 1%Z /\
   Math_floor
     (combo (beforeDamage (clamp ((50016 - lastTime rising) / 1000) 0 (5#100))
               (set_lastTime 50016 rising))) = 2%Z /\
   comboTier (Game_frame 50016 rising) = 2%Z /\
   score rising < score (Game_frame 50016 rising)) /\
  (score (Game_frame 6506 decaying) == score decaying /\
   comboTier (Game_frame 6506 decaying) = comboTier decaying).
Proof.
  destruct (comboTier_high_water_mark rising) as (_ & _ & _ & _ & _ & _ & A).
  destruct (comboTier_high_water_mark decaying) as (_ & _ & _ & _ & _ & _ & B).
  destruct (A (proj1 rising_fine)) as (_ & A1).
  destruct (B (proj1 decaying_fine)) as (_ & B1).
  specialize (A1 50016). specialize (B1 6506). cbv zeta in A1, B1.
  destruct A1 as (_ & A2 & _). destruct B1 as (_ & _ & _ & B2).
  specialize (A2 eq_refl).
  destruct (B2 (proj2 decaying_fine)) as (_ & B3).
  assert (F : Math_floor
                (combo (beforeDamage
                          (clamp ((50016 - lastTime rising) / 1000) 0 (5#100))
                          (set_lastTime 50016 rising))) = 2%Z)
    by (vm_compute; reflexivity).
  assert (E : score (Game_frame 6506 decaying) == score decaying)
    by (vm_compute; reflexivity).
  split.
  - split; [reflexivity|]. split; [exact F|].
    split; [rewrite A2, F; reflexivity | vm_compute; reflexivity].
  - split; [exact E | exact (B3 E)].
Defined.

(** C9, counterexample.  At level 2 the tier is 2, from the streak
    before the last hit, and the combo is 1.2.  The frame that absorbs
    the pickup starts level 3 with a combo of 1.25, whose floor is 1,
    and the tier is still 2: it did not restart with the level, and it
    is not the highest floor of the combo that level 3 has seen. *)
Lemma comboTier_survives_level_up :
  (Safe veteran /\ Sound veteran /\ state veteran = running) /\
  (let g' := Game_frame 45016 veteran in
   level veteran = 2%Z /\ comboTier veteran = 2%Z /\
   level g' = 3%Z /\ combo g' == (125#100) /\
   Math_floor (combo g') = 1%Z /\ comboTier g' = 2%Z).
Proof.
  split; [split; [apply veteran_fine | split; [apply veteran_fine | reflexivity]]|].
  vm_compute. repeat split; reflexivity.
Qed.

(** X23, witness: of the two pickups the one under the head goes. *)
Lemma pickups_in_reach_are_collected_witness :
  cores (pickupPass pickups) = [Core.new 100 100 0 1].
Proof.
  assert (U : Forall (fun c => Core.collected c = false) (cores pickups))
    by (repeat constructor).
  destruct (pickups_in_reach_are_collected pickups U) as (E & _).
  rewrite E. vm_compute. reflexivity.
Defined.

(** X25, witness: the first spawn of a fresh match. *)
Lemma enemies_enter_from_an_edge_witness :
  exists e, enemies (Game_spawnEnemy fresh) = enemies fresh ++ [e] /\
            Enemy.health e = Enemy.maxHealth e.
Proof.
  assert (W : 0 <= WORLD_width) by (vm_compute; discriminate).
  assert (H : 0 <= WORLD_height) by (vm_compute; discriminate).
  destruct (enemies_enter_from_an_edge fresh W H)
    as (e & E & _ & _ & _ & _ & F & _).
  exists e. split; [exact E | exact F].
Defined.

(** X27, witness: nothing while the timer runs, one pickup once it is
    out. *)
Lemma pickup_director_cadence_witness :
  Game_spawnPickup fresh = fresh /\
  exists c, cores (Game_spawnPickup pickupDue) = cores pickupDue ++ [c] /\
            CoreOk c.
Proof.
  assert (W : 60 <= WORLD_width) by (vm_compute; discriminate).
  assert (H : 60 <= WORLD_height) by (vm_compute; discriminate).
  destruct (pickup_director_cadence fresh W H) as (A & _).
  destruct (pickup_director_cadence pickupDue W H) as (_ & B).
  split; [apply A; left; reflexivity|].
  assert (T : coreSpawnTimer pickupDue <= 0) by (vm_compute; discriminate).
  assert (C : (List.length (cores pickupDue) < 9)%nat) by (vm_compute; lia).
  destruct (B T C) as (_ & _ & c & E & Ok & _).
  exists c. split; [exact E | exact Ok].
Defined.

(** X28, witness: a mine under the first enemy of the match. *)
Lemma a_blast_always_hurts_witness :
  Enemy.health (fst (blast mineOnIt firstEnemy opened))
  < Enemy.health firstEnemy - (195#10).
Proof.
  assert (I : In firstEnemy (enemies opened)) by (vm_compute; left; reflexivity).
  assert (B : inBlast mineOnIt firstEnemy = true) by (vm_compute; reflexivity).
  apply (a_blast_always_hurts mineOnIt firstEnemy opened opened_reachable I B).
Defined.


End FurtherExamples.
